(** * The inferior process monitor (ProcessMonitor.cpp): a shallow embedding

    The development follows the layout of the C++ source: the ptrace
    wrapper and the word-sized memory loops ([DoReadMemory],
    [DoWriteMemory]), the operation funnel ([DoOperation],
    [ServeOperation], [StopOpThread]), the wait-loop classifier
    ([MonitorCallback], [MonitorSIGTRAP], [MonitorSignal]) and the launch
    sequence ([Launch]).  Logging is left out everywhere: it does not
    change any result. *)

From stdpp Require Import gmap list list_numbers strings sorting.
From Stdlib Require Import ZArith Lia.
From Stdlib.Strings Require Import Byte.

Local Open Scope Z_scope.

(** ** Constants of the Linux headers used by the source *)

Definition EIO : Z := 5.
Definition ESRCH : Z := 3.
Definition EINVAL : Z := 22.

Definition SIGILL : Z := 4.
Definition SIGTRAP : Z := 5.
Definition SIGBUS : Z := 7.
Definition SIGFPE : Z := 8.
Definition SIGSEGV : Z := 11.
Definition SIGSTOP : Z := 19.

Definition SI_USER : Z := 0.
Definition SI_KERNEL : Z := 128.
Definition SI_TKILL : Z := -6.
Definition TRAP_BRKPT : Z := 1.
Definition TRAP_TRACE : Z := 2.
(* #define TRAP_HWBKPT 4 *)
Definition TRAP_HWBKPT : Z := 4.

Definition PTRACE_EVENT_CLONE : Z := 3.
Definition PTRACE_EVENT_EXEC : Z := 4.
Definition PTRACE_EVENT_EXIT : Z := 6.

(** ** The caller's error slot *)

(** Modelled from the spec: lldb's [Error] class is declared outside the
    sources at hand.  "Kernel failures surface through the caller's error
    slot with the errno captured; generic errors carry a string." *)
Inductive Error : Type :=
  | ErrorSuccess
  | ErrorErrno (e : Z)
  | ErrorGeneric (s : string).

Definition SetErrorToErrno (errno : Z) : Error := ErrorErrno errno.

Definition Success (e : Error) : bool :=
  match e with ErrorSuccess => true | _ => false end.

(** ** Bytes *)

Definition byte_to_Z (b : byte) : Z := Z.of_N (Byte.to_N b).

(** Conversion to [unsigned char]: the low eight bits. *)
Definition byte_of_Z (z : Z) : byte :=
  default Byte.x00 (Byte.of_N (Z.to_N (z mod 256))).

(** [for (unsigned i = 0; i < n; ++i) body] *)
Definition for_range {S : Type} (n : Z) (body : Z → S → S) (s : S) : S :=
  foldl (λ s i, body i s) s (seqZ 0 n).

(** [p[i]] for a pointer [p] that is [off] bytes into the buffer [buf].
    Reading past the end of the caller's buffer is undefined in C; the
    model reads a zero byte there. *)
Definition load (buf : list byte) (off i : Z) : byte :=
  default Byte.x00 (buf !! Z.to_nat (off + i)).

(** [p[i] = b], likewise. *)
Definition store (off i : Z) (b : byte) (buf : list byte) : list byte :=
  <[Z.to_nat (off + i) := b]> buf.

(** [memcpy(dst, src, n)], for a destination array [dst] and a source
    pointer [src] into the buffer [buf]. *)
Definition memcpy (dst buf : list byte) (src n : Z) : list byte :=
  for_range n (λ i d, store 0 i (load buf src i) d) dst.

(** ** The kernel side of PTRACE_PEEKDATA and PTRACE_POKEDATA

    The kernel is modelled by the memories of the stopped tracees of the
    calling task, one byte map per pid.  A request for a pid that is not
    such a tracee fails with ESRCH; a request that touches an unmapped
    byte fails with EIO.  A failing PTRACE_PEEKDATA returns nothing; a
    failing PTRACE_POKEDATA has written the bytes of the word that come
    before its first unmapped byte, as the kernel copies the word page
    by page and stops at the first page it cannot reach.  A word is
    [word_size] bytes, least significant byte first (a little-endian
    host). *)

(** The byte of tracee [pid] at address [a], if mapped. *)
Definition mem_byte (k : gmap Z (gmap Z byte)) (pid a : Z) : option byte :=
  k !! pid ≫= λ m, m !! a.

Section Memory.

(** [static const unsigned word_size = sizeof(void* )] *)
Variable word_size : Z.

Definition word_bits : Z := 8 * word_size.

(** The cast [(void* )vm_addr] of a 64-bit [lldb::addr_t]. *)
Definition to_pointer (vm_addr : Z) : Z := vm_addr mod 2 ^ word_bits.

(** Arithmetic on [lldb::addr_t], an unsigned 64-bit integer. *)
Definition addr_add (a b : Z) : Z := (a + b) mod 2 ^ 64.

(** A bit pattern of [word_size] bytes read as a [long]. *)
Definition to_long (x : Z) : Z :=
  if 2 ^ (word_bits - 1) <=? x then x - 2 ^ word_bits else x.

Definition read_word (m : gmap Z byte) (addr : Z) : option (list byte) :=
  mapM (λ j, m !! (addr + j)) (seqZ 0 word_size).

Definition write_word (m : gmap Z byte) (addr : Z) (bs : list byte)
  : gmap Z byte :=
  map_seqZ addr bs ∪ m.

(** [errno = 0; data = ptrace(PTRACE_PEEKDATA, pid, addr, NULL)]:
    the result and the value of [errno] after the call. *)
Definition ptrace_peekdata (k : gmap Z (gmap Z byte)) (pid addr : Z)
  : Z * Z :=
  match k !! pid with
  | None => (-1, ESRCH)
  | Some m =>
      match read_word m addr with
      | None => (-1, EIO)
      | Some bs => (to_long (little_endian_to_Z 8 (byte_to_Z <$> bs)), 0)
      end
  end.

(** The bytes of [bs], to be written from [addr] on, that come before
    the first unmapped byte. *)
Fixpoint mapped_prefix (m : gmap Z byte) (addr : Z) (bs : list byte)
  : list byte :=
  match bs with
  | [] => []
  | b :: bs =>
      match m !! addr with
      | Some _ => b :: mapped_prefix m (addr + 1) bs
      | None => []
      end
  end.

(** [errno = 0; ptrace(PTRACE_POKEDATA, pid, addr, data)]: the kernel
    afterwards, the result and [errno]. *)
Definition ptrace_pokedata (k : gmap Z (gmap Z byte)) (pid addr data : Z)
  : gmap Z (gmap Z byte) * Z * Z :=
  match k !! pid with
  | None => (k, -1, ESRCH)
  | Some m =>
      let bs := byte_of_Z <$> Z_to_little_endian word_size 8 data in
      match read_word m addr with
      | None => (<[pid := write_word m addr (mapped_prefix m addr bs)]> k,
                 -1, EIO)
      | Some _ => (<[pid := write_word m addr bs]> k, 0, 0)
      end
  end.

(** ** DoReadMemory *)

(** The state of the loop is [vm_addr], the caller's buffer with the
    position [dst] in it, and [bytes_read].  The result is the count
    returned, the buffer and the error slot. *)
Fixpoint DoReadMemory_loop (fuel : nat) (k : gmap Z (gmap Z byte))
    (pid vm_addr : Z) (buf : list byte) (dst : Z) (size bytes_read : Z)
    (error : Error) : option (Z * list byte * Error) :=
  match fuel with
  | O => None
  | S fuel =>
      if bytes_read <? size then
        let '(data, errno) := ptrace_peekdata k pid (to_pointer vm_addr) in
        if negb (errno =? 0) then
          Some (bytes_read, buf, SetErrorToErrno errno)
        else
          let remainder := size - bytes_read in
          let remainder :=
            if remainder >? word_size then word_size else remainder in
          let buf :=
            for_range remainder
              (λ i b, store dst i
                        (byte_of_Z (Z.land (Z.shiftr data (i * 8)) 255)) b)
              buf in
          DoReadMemory_loop fuel k pid (addr_add vm_addr word_size) buf
            (dst + word_size) size (bytes_read + remainder) error
      else Some (bytes_read, buf, error)
  end.

Definition DoReadMemory (k : gmap Z (gmap Z byte)) (pid vm_addr : Z)
    (buf : list byte) (size : Z) (error : Error)
  : option (Z * list byte * Error) :=
  DoReadMemory_loop (S (Z.to_nat size)) k pid vm_addr buf 0 size 0 error.

(** ** DoWriteMemory *)

(** [data |= (unsigned long)src[i] << i*8] for [i < word_size] *)
Definition pack_word (buf : list byte) (src : Z) : Z :=
  for_range word_size
    (λ i data, Z.lor data (Z.shiftl (byte_to_Z (load buf src i)) (i * 8)))
    0.

(** [unsigned char buff[8]], not initialised by the source. *)
Definition buff_init : list byte := replicate 8 Byte.x00.

(** The loop of [DoWriteMemory]; the call of [DoWriteMemory] on the
    local buffer [buff] in the partial-word branch starts the loop
    afresh with [size = word_size]. *)
Fixpoint DoWriteMemory_loop (fuel : nat) (k : gmap Z (gmap Z byte))
    (pid vm_addr : Z) (buf : list byte) (src : Z) (size bytes_written : Z)
    (error : Error) : option (gmap Z (gmap Z byte) * Z * Error) :=
  match fuel with
  | O => None
  | S fuel =>
      if bytes_written <? size then
        let remainder := size - bytes_written in
        let remainder :=
          if remainder >? word_size then word_size else remainder in
        if remainder =? word_size then
          let data := pack_word buf src in
          let '(k', result, errno) :=
            ptrace_pokedata k pid (to_pointer vm_addr) data in
          if negb (result =? 0) then
            Some (k', bytes_written, SetErrorToErrno errno)
          else
            DoWriteMemory_loop fuel k' pid (addr_add vm_addr word_size) buf
              (src + word_size) size (bytes_written + remainder) error
        else
          match DoReadMemory k pid vm_addr buff_init word_size error with
          | None => None
          | Some (n, buff, error) =>
              if negb (n =? word_size) then Some (k, bytes_written, error)
              else
                let buff := memcpy buff buf src remainder in
                match DoWriteMemory_loop fuel k pid vm_addr buff 0
                        word_size 0 error with
                | None => None
                | Some (k', n', error) =>
                    if negb (n' =? word_size) then
                      Some (k', bytes_written, error)
                    else
                      DoWriteMemory_loop fuel k' pid
                        (addr_add vm_addr word_size) buf (src + word_size)
                        size (bytes_written + remainder) error
                end
          end
      else Some (k, bytes_written, error)
  end.

Definition DoWriteMemory (k : gmap Z (gmap Z byte)) (pid vm_addr : Z)
    (buf : list byte) (size : Z) (error : Error)
  : option (gmap Z (gmap Z byte) * Z * Error) :=
  DoWriteMemory_loop (Z.to_nat size + 2) k pid vm_addr buf 0 size 0 error.

(** *** Notions used to state the properties of the loops *)

(** The bytes [src[0..word_size)] of a buffer position. *)
Definition word_at (buf : list byte) (src : Z) : list byte :=
  (λ i, load buf src i) <$> seqZ 0 word_size.

(** Byte [x] of the region that starts at [v], as the read loop
    fetches it: byte [x mod word_size] of the word peeked at
    [v + (x / word_size) * word_size]. *)
Definition peeked_byte (k : gmap Z (gmap Z byte)) (pid v x : Z)
  : option byte :=
  mem_byte k pid
    (to_pointer (v + x `div` word_size * word_size) + x `mod` word_size).

End Memory.

(** ** What a call can end in *)

(** Besides returning, a call can hit a failing [assert], call a method
    through a null pointer, or wait for ever (in [sem_wait] or [Join]). *)
Inductive outcome (A : Type) : Type :=
  | Done (a : A)
  | AssertionFailed
  | NullDereference
  | Blocked.

Arguments Done {A} a.
Arguments AssertionFailed {A}.
Arguments NullDereference {A}.
Arguments Blocked {A}.

(** Code that runs on a state [St]; the state is kept when the code does
    not return, so that what it did before can be observed. *)
Definition M (St A : Type) : Type := St → outcome A * St.

Definition retM {St A : Type} (a : A) : M St A := λ s, (Done a, s).

Definition bindM {St A B : Type} (c : M St A) (f : A → M St B) : M St B :=
  λ s, match c s with
       | (Done a, s') => f a s'
       | (AssertionFailed, s') => (AssertionFailed, s')
       | (NullDereference, s') => (NullDereference, s')
       | (Blocked, s') => (Blocked, s')
       end.

Notation "'let*' x := c 'in' k" := (bindM c (λ x, k))
  (at level 10, x pattern, c at level 100, k at level 200).
Notation "c ;;; k" := (bindM c (λ _, k))
  (at level 100, k at level 200, right associativity).

(** [assert(c)] *)
Definition assert {St : Type} (c : bool) : M St unit :=
  λ s, if c then (Done tt, s) else (AssertionFailed, s).

(** ** Signal information, operations and the kernel's answers *)

(** The fields of [siginfo_t] the monitor reads. *)
Record siginfo_t : Type := {
  si_signo : Z;
  si_code : Z;
  si_pid : Z;
  si_addr : Z
}.

(* NT_ARM_HW_BREAK and NT_ARM_HW_WATCH of <elf.h> *)
Definition NT_ARM_HW_BREAK : Z := 1026.
Definition NT_ARM_HW_WATCH : Z := 1027.

(** The operations, each with the inputs its constructor takes.  The
    references to the caller's result slots are modelled by the value
    [Execute] returns. *)
Inductive Operation : Type :=
  | ReadOperation (addr : Z) (buff : list byte) (size : Z) (error : Error)
  | WriteOperation (addr : Z) (buff : list byte) (size : Z) (error : Error)
  | ResumeOperation (tid signo : Z)
  | SiginfoOperation (tid : Z)
  | EventMessageOperation (tid : Z)
  | ReadDBGROperation (tid : Z)
  | WriteDBGROperation (tid : Z) (addr_buf cntrl_buf : list Z) (type count : Z).

(** [static Operation* EXIT_OPERATION = nullptr;] *)
Definition EXIT_OPERATION : option Operation := None.

(** The contents of the result slots after [Execute]. *)
Inductive OperationResult : Type :=
  | MemoryResult (result : Z) (buff : list byte) (error : Error)
  | BoolResult (result : bool)
  | SiginfoResult (result : bool) (info : siginfo_t) (ptrace_err : Z)
  | EventMessageResult (result : bool) (message : Z)
  | DBGRResult (count_wp count_bp : Z)
  | NoResult.

(** The kernel as the owner task sees it: the tracees' memory, and for
    every other request the answer the kernel gives.  An answer is the
    result of [ptrace], [errno] where the source reads it, and the
    contents afterwards of the buffer the request fills.
    [indeterminate] is the value a variable holds that the source reads
    without having initialised it. *)
Record Kernel : Type := {
  tracees : gmap Z (gmap Z byte);
  getpid : Z;
  ptrace_cont : Z → Z → Z;
  ptrace_getsiginfo : Z → Z * Z * siginfo_t;
  ptrace_geteventmsg : Z → Z * Z;
  ptrace_getregset_hwdebug : Z → Z → Z → Z * Z;
  ptrace_setregset_hwdebug : Z → Z → list (Z * Z) → Z;
  indeterminate : Z
}.

Definition set_tracees (t : gmap Z (gmap Z byte)) (k : Kernel) : Kernel :=
  {| tracees := t; getpid := getpid k; ptrace_cont := ptrace_cont k;
     ptrace_getsiginfo := ptrace_getsiginfo k;
     ptrace_geteventmsg := ptrace_geteventmsg k;
     ptrace_getregset_hwdebug := ptrace_getregset_hwdebug k;
     ptrace_setregset_hwdebug := ptrace_setregset_hwdebug k;
     indeterminate := indeterminate k |}.

Definition memory_result (r : OperationResult) : Z * list byte * Error :=
  match r with
  | MemoryResult n buff error => (n, buff, error)
  | _ => (0, [], ErrorSuccess)
  end.

Definition bool_result (r : OperationResult) : bool :=
  match r with BoolResult b => b | _ => false end.

Definition siginfo_result (r : OperationResult) : bool * siginfo_t * Z :=
  match r with
  | SiginfoResult b info err => (b, info, err)
  | _ => (false, {| si_signo := 0; si_code := 0; si_pid := 0; si_addr := 0 |}, 0)
  end.

Definition event_message_result (r : OperationResult) : bool * Z :=
  match r with EventMessageResult b msg => (b, msg) | _ => (false, 0) end.

Definition dbgr_result (r : OperationResult) : Z * Z :=
  match r with DBGRResult wp bp => (wp, bp) | _ => (0, 0) end.

(** ** Launching: the arguments and the system calls *)

(* Recognized child exit status codes. *)
Definition ePtraceFailed : Z := 1.
Definition eDupStdinFailed : Z := 2.
Definition eDupStdoutFailed : Z := 3.
Definition eDupStderrFailed : Z := 4.
Definition eChdirFailed : Z := 5.
Definition eExecFailed : Z := 6.
Definition eSetGidFailed : Z := 7.

(** [LaunchArgs].  A [const char **] is the null pointer ([None]) or an
    array ended by a null entry (the list of the entries before it); a
    [FileSpec] converts to [false] when it is empty ([None]). *)
Record LaunchArgs : Type := {
  m_argv : list string;
  m_envp : option (list string);
  m_stdin_file_spec : option string;
  m_stdout_file_spec : option string;
  m_stderr_file_spec : option string;
  m_working_dir : option string;
  launch_flag_disable_aslr : bool
}.

(** What the system calls of [Launch] return, in the child and in the
    parent.  [sys_execve] tells whether the call replaces the image; if
    not, it returns. *)
Record LaunchSyscalls : Type := {
  environ : list string;
  sys_fork : Z;
  sys_ptrace_traceme : Z;
  sys_setgid : Z;
  sys_open : string → Z;
  sys_dup2 : Z → Z → Z;
  sys_close : Z → Z;
  sys_chdir : string → Z;
  sys_execve : string → list string → list string → bool;
  sys_waitpid : Z * Z;
  sys_ptrace_setoptions : Z * Z;
  master_fd : Z;
  sys_fcntl_getfl : Z * Z;
  sys_fcntl_setfl : Z → Z * Z
}.

(** The run of the child: the [execve] it called, if it got that far,
    and its exit code, if it exited. *)
Record ChildRun : Type := {
  child_execve : option (string * list string * list string);
  child_exit : option Z
}.

Definition child_exits (code : Z) : ChildRun :=
  {| child_execve := None; child_exit := Some code |}.

(* WIFEXITED, WEXITSTATUS and WIFSTOPPED of <sys/wait.h> *)
Definition WIFEXITED (status : Z) : bool := Z.land status 127 =? 0.
Definition WEXITSTATUS (status : Z) : Z := Z.land status 65280 ≫ 8.
Definition WIFSTOPPED (status : Z) : bool := Z.land status 255 =? 127.

(** The status [waitpid] stores for the child: the exit code in the
    second byte if the child exited, a stop by [SIGTRAP] after a
    successful [execve] under trace. *)
Definition wait_status (run : ChildRun) : Z :=
  match child_exit run with
  | Some code => Z.land code 255 ≪ 8
  | None => Z.lor (SIGTRAP ≪ 8) 127
  end.

Definition DupDescriptor (sys : LaunchSyscalls) (file_spec : string) (fd : Z)
  : bool :=
  let target_fd := sys_open sys file_spec in
  if target_fd =? -1 then false
  else if sys_dup2 sys target_fd fd =? -1 then false
  else if sys_close sys target_fd =? -1 then false else true.

(** [if (envp == NULL || envp[0] == NULL) envp = environ;] *)
Definition propagate_environment (envp : option (list string))
    (environ : list string) : list string :=
  match envp with
  | None => environ
  | Some [] => environ
  | Some envp => envp
  end.

(** The child's branch of [Launch], with [envp] as the parent left it.
    The calls whose failure the child ignores ([setpgid], closing the
    slave descriptor, [personality]) are left out. *)
Definition Launch_child (args : LaunchArgs) (envp : list string)
    (sys : LaunchSyscalls) : ChildRun :=
  if sys_ptrace_traceme sys <? 0 then child_exits ePtraceFailed
  else if negb (sys_setgid sys =? 0) then child_exits eSetGidFailed
  else if match m_stdin_file_spec args with
          | Some f => negb (DupDescriptor sys f 0)
          | None => false
          end then child_exits eDupStdinFailed
  else if match m_stdout_file_spec args with
          | Some f => negb (DupDescriptor sys f 1)
          | None => false
          end then child_exits eDupStdoutFailed
  else if match m_stderr_file_spec args with
          | Some f => negb (DupDescriptor sys f 2)
          | None => false
          end then child_exits eDupStderrFailed
  else if match m_working_dir args with
          | Some d => negb (0 =? sys_chdir sys d)
          | None => false
          end then child_exits eChdirFailed
  else
    let argv := m_argv args in
    let path := hd EmptyString argv in
    {| child_execve := Some (path, argv, envp);
       child_exit :=
         if sys_execve sys path argv envp then None else Some eExecFailed |}.

(** *** The steps of the child that can make it exit *)

Inductive LaunchFailure : Type :=
  | TraceMeFails
  | SetGidFails
  | DupStdinFails
  | DupStdoutFails
  | DupStderrFails
  | ChdirFails
  | ExecFails.

(** Whether a step, taken on its own, fails. *)
Definition step_fails (args : LaunchArgs) (envp : list string)
    (sys : LaunchSyscalls) (f : LaunchFailure) : bool :=
  match f with
  | TraceMeFails => sys_ptrace_traceme sys <? 0
  | SetGidFails => negb (sys_setgid sys =? 0)
  | DupStdinFails =>
      match m_stdin_file_spec args with
      | Some file => negb (DupDescriptor sys file 0)
      | None => false
      end
  | DupStdoutFails =>
      match m_stdout_file_spec args with
      | Some file => negb (DupDescriptor sys file 1)
      | None => false
      end
  | DupStderrFails =>
      match m_stderr_file_spec args with
      | Some file => negb (DupDescriptor sys file 2)
      | None => false
      end
  | ChdirFails =>
      match m_working_dir args with
      | Some d => negb (0 =? sys_chdir sys d)
      | None => false
      end
  | ExecFails =>
      negb (sys_execve sys (hd EmptyString (m_argv args)) (m_argv args) envp)
  end.

(** The steps the child takes before [f], and whether [f] is the first
    step to fail. *)
Definition steps_before (f : LaunchFailure) : list LaunchFailure :=
  match f with
  | TraceMeFails => []
  | SetGidFails => [TraceMeFails]
  | DupStdinFails => [TraceMeFails; SetGidFails]
  | DupStdoutFails => [TraceMeFails; SetGidFails; DupStdinFails]
  | DupStderrFails =>
      [TraceMeFails; SetGidFails; DupStdinFails; DupStdoutFails]
  | ChdirFails =>
      [TraceMeFails; SetGidFails; DupStdinFails; DupStdoutFails;
       DupStderrFails]
  | ExecFails =>
      [TraceMeFails; SetGidFails; DupStdinFails; DupStdoutFails;
       DupStderrFails; ChdirFails]
  end.

Definition first_failure (args : LaunchArgs) (envp : list string)
    (sys : LaunchSyscalls) (f : LaunchFailure) : bool :=
  step_fails args envp sys f
  && forallb (λ g, negb (step_fails args envp sys g)) (steps_before f).

(** The exit code and the parent's error string that go with a step. *)
Definition exit_code (f : LaunchFailure) : Z :=
  match f with
  | TraceMeFails => ePtraceFailed
  | SetGidFails => eSetGidFailed
  | DupStdinFails => eDupStdinFailed
  | DupStdoutFails => eDupStdoutFailed
  | DupStderrFails => eDupStderrFailed
  | ChdirFails => eChdirFailed
  | ExecFails => eExecFailed
  end.

Definition error_string (f : LaunchFailure) : string :=
  match f with
  | TraceMeFails => "Child ptrace failed."
  | SetGidFails => "Child setgid failed."
  | DupStdinFails => "Child open stdin failed."
  | DupStdoutFails => "Child open stdout failed."
  | DupStderrFails => "Child open stderr failed."
  | ChdirFails => "Child failed to set working directory."
  | ExecFails => "Child exec failed."
  end.

(** ** The monitor *)

Section Monitor.

(** [sizeof(void* )], which is also [sizeof(long)] on Linux. *)
Variable word_size : Z.

(** [CrashReason] and [GetCrashReason] (CrashReason.h), the constants
    [eResumeSignalNone] and [LLDB_INVALID_SIGNAL_NUMBER]: declared outside
    the sources at hand, and taken as they come. *)
Variable CrashReason : Type.
Variable GetCrashReason : siginfo_t → CrashReason.
Variable eResumeSignalNone : Z.
Variable LLDB_INVALID_SIGNAL_NUMBER : Z.

(** Modelled from the spec: [ProcessMessage] (ProcessMessage.h) is
    declared outside the sources at hand.  The spec lists the ten
    variants below; [ProcessMessage_default] is the value of a
    default-constructed [ProcessMessage message;], built by none of the
    ten factory functions. *)
Inductive ProcessMessage : Type :=
  | ProcessMessage_default
  | Exit (pid status : Z)
  | Limbo (pid status : Z)
  | Trace (pid : Z)
  | Break (pid : Z)
  | Watch (pid fault_addr : Z)
  | Crash (pid : Z) (reason : CrashReason) (signo fault_addr : Z)
  | NewThread (parent_pid child_tid : Z)
  | Exec (pid : Z)
  | Signal (pid signo : Z)
  | SignalDelivered (pid signo : Z).

(** The monitor with what it talks to: the process object (its id and
    the messages it was sent, oldest first), the operation thread, the
    funnel (slot and the two semaphores), the operations the owner task
    has executed (oldest first), and the kernel. *)
Record ProcessMonitor : Type := {
  process_id : Z;
  process_messages : list ProcessMessage;
  m_operation_thread_joinable : bool;
  operation_thread_returned : bool;
  m_pid : Z;
  m_terminal_fd : Z;
  m_operation : option Operation;
  m_operation_pending : nat;
  m_operation_done : nat;
  executed : list Operation;
  kernel : Kernel
}.

Definition set_process_messages (l : list ProcessMessage) (m : ProcessMonitor)
  : ProcessMonitor :=
  {| process_id := process_id m; process_messages := l;
     m_operation_thread_joinable := m_operation_thread_joinable m;
     operation_thread_returned := operation_thread_returned m;
     m_pid := m_pid m; m_terminal_fd := m_terminal_fd m;
     m_operation := m_operation m;
     m_operation_pending := m_operation_pending m;
     m_operation_done := m_operation_done m;
     executed := executed m; kernel := kernel m |}.

Definition set_funnel (op : option Operation) (pending done : nat)
    (m : ProcessMonitor) : ProcessMonitor :=
  {| process_id := process_id m; process_messages := process_messages m;
     m_operation_thread_joinable := m_operation_thread_joinable m;
     operation_thread_returned := operation_thread_returned m;
     m_pid := m_pid m; m_terminal_fd := m_terminal_fd m;
     m_operation := op;
     m_operation_pending := pending; m_operation_done := done;
     executed := executed m; kernel := kernel m |}.

Definition set_executed (l : list Operation) (k : Kernel) (m : ProcessMonitor)
  : ProcessMonitor :=
  {| process_id := process_id m; process_messages := process_messages m;
     m_operation_thread_joinable := m_operation_thread_joinable m;
     operation_thread_returned := operation_thread_returned m;
     m_pid := m_pid m; m_terminal_fd := m_terminal_fd m;
     m_operation := m_operation m;
     m_operation_pending := m_operation_pending m;
     m_operation_done := m_operation_done m;
     executed := l; kernel := k |}.

Definition set_pid_terminal (pid fd : Z) (m : ProcessMonitor)
  : ProcessMonitor :=
  {| process_id := process_id m; process_messages := process_messages m;
     m_operation_thread_joinable := m_operation_thread_joinable m;
     operation_thread_returned := operation_thread_returned m;
     m_pid := pid; m_terminal_fd := fd; m_operation := m_operation m;
     m_operation_pending := m_operation_pending m;
     m_operation_done := m_operation_done m;
     executed := executed m; kernel := kernel m |}.

(** [m_process->SendMessage(message)] *)
Definition SendMessage (message : ProcessMessage) : M ProcessMonitor unit :=
  λ m, (Done tt, set_process_messages (process_messages m ++ [message]) m).

(** *** [Execute] of each operation *)

(** [intptr_t data = 0;
    if (m_signo != LLDB_INVALID_SIGNAL_NUMBER) data = m_signo;] *)
Definition resume_data (signo : Z) : Z :=
  if negb (signo =? LLDB_INVALID_SIGNAL_NUMBER) then signo else 0.

Definition Execute (op : Operation) : M ProcessMonitor OperationResult :=
  λ m,
  let k := kernel m in
  match op with
  | ReadOperation addr buff size error =>
      match DoReadMemory word_size (tracees k) (m_pid m) addr buff size error
      with
      | Some (n, buff, error) => (Done (MemoryResult n buff error), m)
      | None => (Blocked, m)
      end
  | WriteOperation addr buff size error =>
      match DoWriteMemory word_size (tracees k) (m_pid m) addr buff size error
      with
      | Some (t, n, error) =>
          (Done (MemoryResult n buff error),
           set_executed (executed m) (set_tracees t k) m)
      | None => (Blocked, m)
      end
  | ResumeOperation tid signo =>
      let data := resume_data signo in
      if negb (ptrace_cont k tid data =? 0) then (Done (BoolResult false), m)
      else (Done (BoolResult true), m)
  | SiginfoOperation tid =>
      let '(result, errno, info) := ptrace_getsiginfo k tid in
      if negb (result =? 0) then (Done (SiginfoResult false info errno), m)
      else (Done (SiginfoResult true info (indeterminate k)), m)
  | EventMessageOperation tid =>
      let '(result, message) := ptrace_geteventmsg k tid in
      if negb (result =? 0) then (Done (EventMessageResult false message), m)
      else (Done (EventMessageResult true message), m)
  | ReadDBGROperation tid =>
      let dbg_info := indeterminate k in
      let '(_, dbg_info) :=
        ptrace_getregset_hwdebug k tid NT_ARM_HW_WATCH dbg_info in
      let count_wp := Z.land dbg_info 255 in
      let '(_, dbg_info) :=
        ptrace_getregset_hwdebug k tid NT_ARM_HW_BREAK dbg_info in
      let count_bp := Z.land dbg_info 255 in
      (Done (DBGRResult count_wp count_bp), m)
  | WriteDBGROperation tid addr_buf cntrl_buf type count =>
      let type := if type =? 0 then NT_ARM_HW_WATCH else NT_ARM_HW_BREAK in
      let dbg_regs :=
        (λ i, (default 0 (addr_buf !! Z.to_nat i),
               default 0 (cntrl_buf !! Z.to_nat i))) <$> seqZ 0 count in
      let _ := ptrace_setregset_hwdebug k tid type dbg_regs in
      (Done NoResult, m)
  end.

(** *** The funnel *)

(** The caller's side of [DoOperation] up to its wait:
    [m_operation = op; sem_post(&m_operation_pending);] *)
Definition post_operation (op : option Operation) : M ProcessMonitor unit :=
  λ m, (Done tt,
        set_funnel op (S (m_operation_pending m)) (m_operation_done m) m).

(** One turn of the serve loop after [sem_wait(&m_operation_pending)]
    has returned 0:
    [monitor->m_operation->Execute(monitor); sem_post(&m_operation_done);] *)
Definition serve_pending : M ProcessMonitor OperationResult :=
  λ m,
  match m_operation_pending m with
  | O => (Blocked, m)
  | S pending =>
      let m := set_funnel (m_operation m) pending (m_operation_done m) m in
      match m_operation m with
      | None => (NullDereference, m)
      | Some op =>
          (let* r := Execute op in
           λ m, (Done r,
                 set_funnel (m_operation m) (m_operation_pending m)
                   (S (m_operation_done m))
                   (set_executed (executed m ++ [op]) (kernel m) m))) m
      end
  end.

(** What [sem_wait] returns to the serve loop. *)
Inductive sem_wait_return : Type :=
  | sem_acquired
  | sem_EINTR
  | sem_failed (errno : Z).

(** The loop [for(;;)] of [ServeOperation], run for the given returns
    of [sem_wait]; when they are used up the task waits in [sem_wait].
    The loop has no [break] and no [return]. *)
Fixpoint ServeOperation (waits : list sem_wait_return)
  : M ProcessMonitor unit :=
  match waits with
  | [] => λ m, (Blocked, m)
  | sem_EINTR :: waits => ServeOperation waits
  | sem_failed _ :: _ => assert false
  | sem_acquired :: waits => serve_pending ;;; ServeOperation waits
  end.

(** The caller's wait for [m_operation_done]. *)
Definition wait_done : M ProcessMonitor unit :=
  λ m,
  match m_operation_done m with
  | O => (Blocked, m)
  | S done =>
      (Done tt, set_funnel (m_operation m) (m_operation_pending m) done m)
  end.

(** [DoOperation(op)], the caller and the owner task taken together:
    the caller posts, the owner task (if it is serving) takes one turn
    of its loop, the caller waits for the completion. *)
Definition DoOperation (op : option Operation)
  : M ProcessMonitor OperationResult :=
  post_operation op ;;;
  let* r :=
    (λ m, if operation_thread_returned m then (Done NoResult, m)
          else serve_pending m) in
  wait_done ;;;
  retM r.

(** [m_operation_thread.Join(nullptr)] *)
Definition Join : M ProcessMonitor unit :=
  λ m, if operation_thread_returned m then (Done tt, m) else (Blocked, m).

Definition StopOpThread : M ProcessMonitor unit :=
  λ m,
  if negb (m_operation_thread_joinable m) then (Done tt, m)
  else (DoOperation EXIT_OPERATION ;;; Join) m.

(** The monitor after the owner task has served [op], for an operation
    that leaves the kernel as it is: the slot still points to [op], and
    [op] is the last operation executed. *)
Definition served (op : Operation) (m : ProcessMonitor) : ProcessMonitor :=
  set_funnel (Some op) (m_operation_pending m) (m_operation_done m)
    (set_executed (executed m ++ [op]) (kernel m) m).

(** [c] hands the process object at most [n] messages, however it ends. *)
Definition sends_at_most {A : Type} (n : nat) (c : M ProcessMonitor A)
  : Prop :=
  ∀ m, ∃ l, process_messages (c m).2 = process_messages m ++ l
            ∧ (length l ≤ n)%nat.

(** *** The operations of the monitor used below *)

Definition ReadMemory (vm_addr : Z) (buf : list byte) (size : Z)
    (error : Error) : M ProcessMonitor (Z * list byte * Error) :=
  let* r := DoOperation (Some (ReadOperation vm_addr buf size error)) in
  retM (memory_result r).

Definition WriteMemory (vm_addr : Z) (buf : list byte) (size : Z)
    (error : Error) : M ProcessMonitor (Z * list byte * Error) :=
  let* r := DoOperation (Some (WriteOperation vm_addr buf size error)) in
  retM (memory_result r).

Definition Resume (tid signo : Z) : M ProcessMonitor bool :=
  let* r := DoOperation (Some (ResumeOperation tid signo)) in
  retM (bool_result r).

Definition GetSignalInfo (tid : Z) : M ProcessMonitor (bool * siginfo_t * Z) :=
  let* r := DoOperation (Some (SiginfoOperation tid)) in
  retM (siginfo_result r).

Definition GetEventMessage (tid : Z) : M ProcessMonitor (bool * Z) :=
  let* r := DoOperation (Some (EventMessageOperation tid)) in
  retM (event_message_result r).

Definition ReadHardwareDebugInfo (tid : Z) : M ProcessMonitor (bool * Z * Z) :=
  let result := true in
  let* r := DoOperation (Some (ReadDBGROperation tid)) in
  retM (result, (dbgr_result r).1, (dbgr_result r).2).

Definition WriteHardwareDebugRegs (tid : Z) (addr_buf cntrl_buf : list Z)
    (type count : Z) : M ProcessMonitor bool :=
  let result := true in
  DoOperation (Some (WriteDBGROperation tid addr_buf cntrl_buf type count)) ;;;
  retM result.

(** *** The wait loop *)

(** [-1] stored in an [unsigned long]. *)
Definition ULONG_MAX : Z := 2 ^ (8 * word_size) - 1.

(** The conversion of an [unsigned long] to the [int] parameter
    [status] of [ProcessMessage::Limbo]. *)
Definition to_int (x : Z) : Z :=
  let y := x mod 2 ^ 32 in
  if 2 ^ 31 <=? y then y - 2 ^ 32 else y.

Definition MonitorSIGTRAP (info : siginfo_t) (pid : Z)
  : M ProcessMonitor ProcessMessage :=
  let message := ProcessMessage_default in
  assert (si_signo info =? SIGTRAP) ;;;
  if si_code info =? Z.lor SIGTRAP (PTRACE_EVENT_CLONE ≪ 8) then
    let tid := 0 in
    let* (ok, tid) := GetEventMessage pid in
    let tid := if negb ok then ULONG_MAX else tid in
    retM (NewThread pid tid)
  else if si_code info =? Z.lor SIGTRAP (PTRACE_EVENT_EXEC ≪ 8) then
    retM (Exec pid)
  else if si_code info =? Z.lor SIGTRAP (PTRACE_EVENT_EXIT ≪ 8) then
    let data := 0 in
    let* (ok, data) := GetEventMessage pid in
    let data := if negb ok then ULONG_MAX else data in
    retM (Limbo pid (to_int (data ≫ 8)))
  else if (si_code info =? 0) || (si_code info =? TRAP_TRACE) then
    retM (Trace pid)
  else if (si_code info =? SI_KERNEL) || (si_code info =? TRAP_BRKPT) then
    retM (Break pid)
  else if si_code info =? TRAP_HWBKPT then
    retM (Watch pid (si_addr info))
  else if (si_code info =? SIGTRAP) || (si_code info =? Z.lor SIGTRAP 128)
  then
    Resume pid eResumeSignalNone ;;;
    retM message
  else
    assert false ;;;
    retM message.

Definition MonitorSignal (monitor : ProcessMonitor) (info : siginfo_t)
    (pid : Z) : ProcessMessage :=
  let signo := si_signo info in
  if (si_code info =? SI_TKILL) || (si_code info =? SI_USER) then
    if si_pid info =? getpid (kernel monitor) then SignalDelivered pid signo
    else Signal pid signo
  else if (signo =? SIGSEGV) || (signo =? SIGILL) || (signo =? SIGFPE)
          || (signo =? SIGBUS) then
    let fault_addr := si_addr info in
    let reason := GetCrashReason info in
    Crash pid reason signo fault_addr
  else Signal pid signo.

(** The result is [stop_monitoring]. *)
Definition MonitorCallback (pid : Z) (exited : bool) (signal status : Z)
  : M ProcessMonitor bool :=
  if exited then
    SendMessage (Exit pid status) ;;;
    λ m, (Done (pid =? process_id m), m)
  else
    let* (ok, info, ptrace_err) := GetSignalInfo pid in
    if negb ok then
      if ptrace_err =? EINVAL then
        let* resumed := Resume pid SIGSTOP in
        (if negb resumed then assert false else retM tt) ;;;
        retM false
      else
        let* stop_monitoring := λ m, (Done (pid =? process_id m), m) in
        (if stop_monitoring : bool then SendMessage (Exit pid status)
         else retM tt) ;;;
        retM stop_monitoring
    else
      let* message :=
        (if si_signo info =? SIGTRAP then MonitorSIGTRAP info pid
         else λ m, (Done (MonitorSignal m info pid), m)) in
      SendMessage message ;;;
      retM false.

(** *** Launch *)

Definition SetDefaultPtraceOpts (sys : LaunchSyscalls) : bool :=
  0 <=? (sys_ptrace_setoptions sys).1.

Definition EnsureFDFlags (sys : LaunchSyscalls) (flags : Z) (error : Error)
  : bool * Error :=
  let '(status, errno) := sys_fcntl_getfl sys in
  if status =? -1 then (false, SetErrorToErrno errno)
  else
    let '(r, errno) := sys_fcntl_setfl sys (Z.lor status flags) in
    if r =? -1 then (false, SetErrorToErrno errno) else (true, error).

(* O_NONBLOCK of <fcntl.h> *)
Definition O_NONBLOCK : Z := 2048.

(** The parent's reading of the exit status of the child. *)
Definition child_exit_error (status : Z) : Error :=
  let code := WEXITSTATUS status in
  if code =? ePtraceFailed then ErrorGeneric "Child ptrace failed."
  else if code =? eDupStdinFailed then
    ErrorGeneric "Child open stdin failed."
  else if code =? eDupStdoutFailed then
    ErrorGeneric "Child open stdout failed."
  else if code =? eDupStderrFailed then
    ErrorGeneric "Child open stderr failed."
  else if code =? eChdirFailed then
    ErrorGeneric "Child failed to set working directory."
  else if code =? eExecFailed then ErrorGeneric "Child exec failed."
  else if code =? eSetGidFailed then ErrorGeneric "Child setgid failed."
  else ErrorGeneric "Child returned unknown exit status.".

(** [Launch]: the result is what it returns, [args->m_error] and the
    run of the child, if there was one.  The thread handle it creates
    for the process object is left out. *)
Definition Launch (args : LaunchArgs) (sys : LaunchSyscalls)
  : M ProcessMonitor (bool * Error * option ChildRun) :=
  let m_error := ErrorSuccess in
  let envp := propagate_environment (m_envp args) (environ sys) in
  let pid := sys_fork sys in
  if pid =? -1 then
    let m_error := ErrorGeneric "Process fork failed." in
    retM (Success m_error, m_error, None)
  else
    let run := Launch_child args envp sys in
    let '(raw_pid, errno) := sys_waitpid sys in
    let status := wait_status run in
    if raw_pid <? 0 then
      let m_error := SetErrorToErrno errno in
      retM (Success m_error, m_error, Some run)
    else if WIFEXITED status then
      let m_error := child_exit_error status in
      retM (Success m_error, m_error, Some run)
    else
      assert (WIFSTOPPED status && (raw_pid =? pid)) ;;;
      if negb (SetDefaultPtraceOpts sys) then
        let m_error := SetErrorToErrno (sys_ptrace_setoptions sys).2 in
        retM (Success m_error, m_error, Some run)
      else
        (λ m, (Done tt, set_pid_terminal pid (master_fd sys) m)) ;;;
        let '(ok, m_error) := EnsureFDFlags sys O_NONBLOCK m_error in
        if negb ok then retM (Success m_error, m_error, Some run)
        else
          SendMessage (Trace pid) ;;;
          retM (Success m_error, m_error, Some run).

(** *** Construction and teardown *)

(** [LLDB_INVALID_PROCESS_ID] (lldb-defines.h), taken as it comes. *)
Variable LLDB_INVALID_PROCESS_ID : Z.

Definition set_operation_thread (joinable returned : bool)
    (m : ProcessMonitor) : ProcessMonitor :=
  {| process_id := process_id m; process_messages := process_messages m;
     m_operation_thread_joinable := joinable;
     operation_thread_returned := returned;
     m_pid := m_pid m; m_terminal_fd := m_terminal_fd m;
     m_operation := m_operation m;
     m_operation_pending := m_operation_pending m;
     m_operation_done := m_operation_done m;
     executed := executed m; kernel := kernel m |}.

(** The member initialisers of the constructors and the two [sem_init]:
    no operation thread (so nobody serves), no pid, no terminal, an
    empty slot and both semaphores at 0. *)
Definition initialise : M ProcessMonitor unit :=
  λ m, (Done tt,
        {| process_id := process_id m;
           process_messages := process_messages m;
           m_operation_thread_joinable := false;
           operation_thread_returned := true;
           m_pid := LLDB_INVALID_PROCESS_ID; m_terminal_fd := -1;
           m_operation := None;
           m_operation_pending := 0; m_operation_done := 0;
           executed := executed m; kernel := kernel m |}).

(** [LaunchOpThread], run on the operation thread up to the point where
    it has posted [args->m_semaphore]: the result is [args->m_error] and
    the count of that semaphore.  After a failed [Launch] the thread
    function returns; otherwise the thread is in [ServeOperation]. *)
Definition LaunchOpThread (args : LaunchArgs) (sys : LaunchSyscalls)
  : M ProcessMonitor (Error * nat) :=
  let* (ok, m_error, _) := Launch args sys in
  if negb ok then
    λ m, (Done (m_error, 1%nat),
          set_operation_thread (m_operation_thread_joinable m) true m)
  else retM (m_error, 1%nat).

(** [StartLaunchOpThread(args, error)].  [thread_error] is the error
    [ThreadLauncher::LaunchThread] leaves in [error]; the thread it
    returns is joinable when that is a success, and then runs
    [LaunchOpThread].  The result is [error] and what the thread has
    left in [args]. *)
Definition StartLaunchOpThread (args : LaunchArgs) (sys : LaunchSyscalls)
    (thread_error error : Error)
  : M ProcessMonitor (Error * option (Error * nat)) :=
  λ m,
  if m_operation_thread_joinable m then (Done (error, None), m)
  else if Success thread_error then
    (let* r := LaunchOpThread args sys in retM (thread_error, Some r))
      (set_operation_thread true false m)
  else (Done (thread_error, None), m).

(** [WAIT_AGAIN: if (sem_wait(&args->m_semaphore)) ...], for the given
    returns of [sem_wait]: the [errno] of a failure other than EINTR, if
    there is one. *)
Fixpoint wait_again (waits : list sem_wait_return) (semaphore : nat)
  : M ProcessMonitor (option Z) :=
  match waits with
  | [] => λ m, (Blocked, m)
  | sem_EINTR :: waits => wait_again waits semaphore
  | sem_failed errno :: _ => retM (Some errno)
  | sem_acquired :: _ =>
      match semaphore with
      | O => λ m, (Blocked, m)
      | S _ => retM None
      end
  end.

(** The constructor that launches.  [monitor_thread_joinable] tells
    whether [Host::StartMonitoringChildProcess] returns a joinable
    thread.  The result is the caller's [error] and whether the monitor
    thread runs. *)
Definition ProcessMonitor_launch (args : LaunchArgs) (sys : LaunchSyscalls)
    (thread_error : Error) (waits : list sem_wait_return)
    (monitor_thread_joinable : bool) (error : Error)
  : M ProcessMonitor (Error * bool) :=
  initialise ;;;
  let* (error, started) := StartLaunchOpThread args sys thread_error error in
  if negb (Success error) then retM (error, false)
  else
    let '(m_error, semaphore) := default (ErrorSuccess, 0%nat) started in
    let* failed := wait_again waits semaphore in
    match failed with
    | Some errno => retM (SetErrorToErrno errno, false)
    | None =>
        if negb (Success m_error) then
          StopOpThread ;;;
          retM (m_error, false)
        else if negb monitor_thread_joinable then
          retM (ErrorGeneric "Process launch failed.", false)
        else retM (error, true)
    end.

(** [StopMonitoringChildProcess()], for a monitor thread that is
    joinable or not, and that ends on SIGUSR1 or not. *)
Definition StopMonitoringChildProcess
    (monitor_thread_joinable monitor_thread_ends : bool)
  : M ProcessMonitor unit :=
  λ m,
  if monitor_thread_joinable then
    if monitor_thread_ends then (Done tt, m) else (Blocked, m)
  else (Done tt, m).

(** [StopMonitor()], which is also the destructor.  The result is the
    list of the descriptors it has closed. *)
Definition StopMonitor (monitor_thread_joinable monitor_thread_ends : bool)
  : M ProcessMonitor (list Z) :=
  StopMonitoringChildProcess monitor_thread_joinable monitor_thread_ends ;;;
  StopOpThread ;;;
  λ m,
  if 0 <=? m_terminal_fd m then
    (Done [m_terminal_fd m], set_pid_terminal (m_pid m) (-1) m)
  else (Done [], m).

(** *** Stopping a thread *)

(* EINTR of <errno.h> *)
Definition EINTR : Z := 4.

(* WSTOPSIG of <sys/wait.h> *)
Definition WSTOPSIG (status : Z) : Z := Z.land status 65280 ≫ 8.

(** [ProcessMessage::Kind] and [GetKind] (ProcessMessage.h).  No
    message built here has the kind [eAttachMessage]. *)
Inductive Kind : Type :=
  | eInvalidMessage
  | eAttachMessage
  | eExitMessage
  | eLimboMessage
  | eSignalMessage
  | eSignalDeliveredMessage
  | eTraceMessage
  | eBreakpointMessage
  | eWatchpointMessage
  | eCrashMessage
  | eNewThreadMessage
  | eExecMessage.

Definition GetKind (message : ProcessMessage) : Kind :=
  match message with
  | ProcessMessage_default => eInvalidMessage
  | Exit _ _ => eExitMessage
  | Limbo _ _ => eLimboMessage
  | Trace _ => eTraceMessage
  | Break _ => eBreakpointMessage
  | Watch _ _ => eWatchpointMessage
  | Crash _ _ _ _ => eCrashMessage
  | NewThread _ _ => eNewThreadMessage
  | Exec _ => eExecMessage
  | Signal _ _ => eSignalMessage
  | SignalDelivered _ _ => eSignalDeliveredMessage
  end.

(** The calls on the process object and on its threads, other than
    [SendMessage], in the order they are made; [AddThread tid] stands
    for adding the thread made by [CreateNewPOSIXThread(process, tid)]
    to the thread list. *)
Inductive ThreadCall : Type :=
  | AddThread (tid : Z)
  | AddThreadForInitialStopIfNeeded (tid : Z)
  | SetState_eStateStopped (tid : Z).

(** One return of [waitpid]: the pid returned, [status] and [errno]
    after the call, and whether the thread list of the process has a
    thread with that id when [FindThreadByID] is asked. *)
Record wait_event : Type := {
  ev_pid : Z;
  ev_status : Z;
  ev_errno : Z;
  ev_thread : bool
}.

(** Code of the monitor run on the monitor together with the log of
    the thread calls. *)
Definition on_monitor {A : Type} (c : M ProcessMonitor A)
  : M (ProcessMonitor * list ThreadCall) A :=
  λ s, let '(r, m) := c s.1 in (r, (m, s.2)).

Definition thread_call (c : ThreadCall)
  : M (ProcessMonitor * list ThreadCall) unit :=
  λ s, (Done tt, (s.1, s.2 ++ [c])).

(** The loop [while (true)] of [StopThread], run for the given returns
    of [waitpid]; when they are used up the caller waits in [waitpid]. *)
Fixpoint StopThread_loop (tid : Z) (events : list wait_event)
  : M (ProcessMonitor * list ThreadCall) bool :=
  match events with
  | [] => λ s, (Blocked, s)
  | ev :: events =>
      let status := ev_status ev in
      let wait_pid := ev_pid ev in
      if wait_pid =? -1 then
        if ev_errno ev =? EINTR then StopThread_loop tid events
        else retM false
      else if WIFEXITED status then
        on_monitor (SendMessage (Exit wait_pid (WEXITSTATUS status))) ;;;
        if wait_pid =? tid then retM true else StopThread_loop tid events
      else
        let* (ok, info, ptrace_err) := on_monitor (GetSignalInfo wait_pid) in
        if negb ok then
          if ptrace_err =? EINVAL then
            assert (WIFSTOPPED status && (WSTOPSIG status =? SIGSTOP)) ;;;
            let* resumed := on_monitor (Resume wait_pid SIGSTOP) in
            (if negb resumed then assert false else retM tt) ;;;
            StopThread_loop tid events
          else retM false
        else
          let* message :=
            on_monitor
              (if si_signo info =? SIGTRAP then MonitorSIGTRAP info wait_pid
               else λ m, (Done (MonitorSignal m info wait_pid), m)) in
          let thread := ev_thread ev in
          assert (thread
                  || match GetKind message with
                     | eSignalMessage => true
                     | _ => false
                     end) ;;;
          if negb thread then
            on_monitor (SendMessage message) ;;;
            StopThread_loop tid events
          else
            let forward :=
              on_monitor (SendMessage message) ;;;
              (if wait_pid =? tid then
                 on_monitor (Resume wait_pid eResumeSignalNone) ;;; retM tt
               else retM tt) ;;;
              StopThread_loop tid events in
            match GetKind message with
            | eExecMessage =>
                (* llvm_unreachable("unexpected message") *)
                assert false ;;; StopThread_loop tid events
            | eAttachMessage | eInvalidMessage => StopThread_loop tid events
            | eLimboMessage | eExitMessage =>
                on_monitor (SendMessage message) ;;;
                if wait_pid =? tid then retM true
                else StopThread_loop tid events
            | eSignalMessage =>
                (if WSTOPSIG status =? SIGSTOP then
                   thread_call (AddThreadForInitialStopIfNeeded tid) ;;;
                   thread_call (SetState_eStateStopped wait_pid)
                 else
                   on_monitor (SendMessage message) ;;;
                   if wait_pid =? tid then
                     on_monitor (Resume wait_pid eResumeSignalNone) ;;;
                     retM tt
                   else retM tt) ;;;
                StopThread_loop tid events
            | eSignalDeliveredMessage =>
                if (wait_pid =? tid) && WIFSTOPPED status
                   && (WSTOPSIG status =? SIGSTOP)
                   && (si_code info =? SI_TKILL)
                then
                  thread_call (SetState_eStateStopped wait_pid) ;;;
                  retM true
                else forward
            | eBreakpointMessage | eTraceMessage | eWatchpointMessage
            | eCrashMessage | eNewThreadMessage => forward
            end
  end.

(** [StopThread(tid)]; [tgkill_result] is what [tgkill] returns. *)
Definition StopThread (tid : Z) (tgkill_result : Z)
    (events : list wait_event) : M (ProcessMonitor * list ThreadCall) bool :=
  let ret := tgkill_result in
  if ret <? 0 then retM false else StopThread_loop tid events.

(** [WaitForInitialTIDStop(tid)], likewise.  On a failing [waitpid] the
    variable [status] keeps its initial value -1. *)
Fixpoint WaitForInitialTIDStop (tid : Z) (events : list wait_event)
  : M (ProcessMonitor * list ThreadCall) bool :=
  match events with
  | [] => λ s, (Blocked, s)
  | ev :: events =>
      let status := ev_status ev in
      let wait_pid := ev_pid ev in
      if status =? -1 then
        if ev_errno ev =? EINTR then WaitForInitialTIDStop tid events
        else retM false
      else
        assert (wait_pid =? tid) ;;;
        let* (ok, info, ptrace_err) := on_monitor (GetSignalInfo wait_pid) in
        if negb ok then retM false
        else if WIFEXITED status then
          on_monitor (SendMessage (Exit wait_pid (WEXITSTATUS status))) ;;;
          if wait_pid =? tid then retM true
          else WaitForInitialTIDStop tid events
        else
          assert (si_code info =? SI_USER) ;;;
          assert (WSTOPSIG status =? SIGSTOP) ;;;
          thread_call (AddThreadForInitialStopIfNeeded wait_pid) ;;;
          retM true
  end.

(** *** Attach *)

(** What the system calls of [Attach] return for a thread id: the
    result and [errno]. *)
Record AttachSyscalls : Type := {
  att_ptrace_attach : Z → Z * Z;
  att_waitpid : Z → Z * Z;
  att_ptrace_setoptions : Z → Z * Z
}.

(** [Host::TidMap], a [std::map] from thread ids to "attached": its
    entries in the order of the keys. *)
Definition TidMap : Type := list (Z * bool).

(** [tids.insert(TidPair(tid, false))] where [tids] has no entry for
    [tid]; the result tells whether there was none. *)
Fixpoint TidMap_insert (tid : Z) (tids : TidMap) : TidMap * bool :=
  match tids with
  | [] => ([(tid, false)], true)
  | (t, attached) :: rest =>
      if tid <? t then ((tid, false) :: tids, true)
      else if tid =? t then (tids, false)
      else
        let '(rest, inserted) := TidMap_insert tid rest in
        ((t, attached) :: rest, inserted)
  end.

(** Modelled from the spec: [Host::FindProcessThreads] is declared
    outside the sources at hand.  "Enumerate all tasks belonging to the
    target thread-group; for each unattached task [...].  Repeat until
    no new tasks appear."  The tasks of the listing that the map does
    not have yet are entered as not attached, and the result tells
    whether there was one. *)
Definition FindProcessThreads (listing : list Z) (tids : TidMap)
  : bool * TidMap :=
  foldl (λ found tid,
           let '(tids, inserted) := TidMap_insert tid found.2 in
           (found.1 || inserted, tids))
        (false, tids) listing.

(** How the loop [for] over the map ends: at the end of the map, with a
    [goto FINISH] after an error, or in [++it] on an iterator whose
    entry [tids_to_attach.erase(it)] has just removed, which C++ leaves
    undefined.  [attach_undefined] marks that point; what the program
    does from there on is not modelled. *)
Inductive AttachStep : Type :=
  | attach_continue (tids : TidMap)
  | attach_finish (m_error : Error)
  | attach_undefined.

(** The loop [for] from the entry [it] on; [requests] are the thread
    ids PTRACE_ATTACH was issued for so far, oldest first. *)
Fixpoint Attach_for (sys : AttachSyscalls) (entries : TidMap)
    (requests : list Z)
  : M (ProcessMonitor * list ThreadCall) (AttachStep * list Z) :=
  match entries with
  | [] => retM (attach_continue [], requests)
  | (tid, attached) :: rest =>
      if negb attached then
        let '(result, errno) := att_ptrace_attach sys tid in
        let requests := requests ++ [tid] in
        if result <? 0 then
          if errno =? ESRCH then retM (attach_undefined, requests)
          else retM (attach_finish (SetErrorToErrno errno), requests)
        else
          let '(wpid, errno) := att_waitpid sys tid in
          if wpid <? 0 then
            if errno =? ESRCH then retM (attach_undefined, requests)
            else retM (attach_finish (SetErrorToErrno errno), requests)
          else
            let '(result, errno) := att_ptrace_setoptions sys tid in
            if negb (0 <=? result) then
              retM (attach_finish (SetErrorToErrno errno), requests)
            else
              thread_call (AddThread tid) ;;;
              thread_call (AddThreadForInitialStopIfNeeded tid) ;;;
              let* (step, requests) := Attach_for sys rest requests in
              retM (match step with
                    | attach_continue rest =>
                        attach_continue ((tid, true) :: rest)
                    | _ => step
                    end, requests)
      else
        let* (step, requests) := Attach_for sys rest requests in
        retM (match step with
              | attach_continue rest =>
                  attach_continue ((tid, attached) :: rest)
              | _ => step
              end, requests)
  end.

(** The loop [while (Host::FindProcessThreads(pid, tids_to_attach))],
    for the listings of the tasks of the process that the successive
    calls see; a call for which no listing is left finds nothing. *)
Fixpoint Attach_while (sys : AttachSyscalls) (listings : list (list Z))
    (tids : TidMap) (requests : list Z)
  : M (ProcessMonitor * list ThreadCall) (AttachStep * list Z) :=
  match listings with
  | [] => retM (attach_continue tids, requests)
  | listing :: listings =>
      let '(found, tids) := FindProcessThreads listing tids in
      if found then
        let* (step, requests) := Attach_for sys tids requests in
        match step with
        | attach_continue tids => Attach_while sys listings tids requests
        | _ => retM (step, requests)
        end
      else retM (attach_continue tids, requests)
  end.

(** [Attach(args)]: the result is what it returns and [args->m_error],
    the map at the end and the thread ids PTRACE_ATTACH was issued for.
    A result [None] stands for a run that has reached the undefined
    [++it]: it says nothing on whether or what [Attach] returns, and
    the thread ids are those of the requests up to that point. *)
Definition Attach (pid : Z) (sys : AttachSyscalls)
    (listings : list (list Z))
  : M (ProcessMonitor * list ThreadCall)
      (option (bool * Error) * TidMap * list Z) :=
  let m_error := ErrorSuccess in
  if pid <=? 1 then
    let m_error := ErrorGeneric "Attaching to process 1 is not allowed." in
    retM (Some (Success m_error, m_error), [], [])
  else
    let* (step, requests) := Attach_while sys listings [] [] in
    match step with
    | attach_undefined => retM (None, [], requests)
    | attach_finish m_error =>
        retM (Some (Success m_error, m_error), [], requests)
    | attach_continue tids =>
        if (0 <? length tids)%nat then
          on_monitor
            (λ m, (Done tt, set_pid_terminal pid (m_terminal_fd m) m)) ;;;
          on_monitor (SendMessage (Trace pid)) ;;;
          retM (Some (Success m_error, m_error), tids, requests)
        else
          let m_error := ErrorGeneric "No such process." in
          retM (Some (Success m_error, m_error), tids, requests)
    end.

(** [AttachOpThread(arg)]: what the thread leaves in [args], the error
    and the count of the semaphore, if the behaviour of [Attach] is
    defined. *)
Definition AttachOpThread (pid : Z) (sys : AttachSyscalls)
    (listings : list (list Z))
  : M (ProcessMonitor * list ThreadCall) (option (Error * nat)) :=
  let* (result, _, _) := Attach pid sys listings in
  match result with
  | None => retM None
  | Some (ok, m_error) =>
      if negb ok then
        on_monitor
          (λ m, (Done (Some (m_error, 1%nat)),
                 set_operation_thread (m_operation_thread_joinable m) true m))
      else retM (Some (m_error, 1%nat))
  end.

(** [StartAttachOpThread(args, error)], with [thread_error] as in
    [StartLaunchOpThread]. *)
Definition StartAttachOpThread (pid : Z) (sys : AttachSyscalls)
    (listings : list (list Z)) (thread_error error : Error)
  : M (ProcessMonitor * list ThreadCall)
      (option (Error * option (Error * nat))) :=
  λ s,
  if m_operation_thread_joinable s.1 then (Done (Some (error, None)), s)
  else if Success thread_error then
    (let* r := AttachOpThread pid sys listings in
     retM (match r with
           | Some r => Some (thread_error, Some r)
           | None => None
           end))
      (set_operation_thread true false s.1, s.2)
  else (Done (Some (thread_error, None)), s).

(** The constructor that attaches, with the inputs of
    [ProcessMonitor_launch].  The result is the caller's [error] and
    whether the monitor thread runs, if the behaviour of [Attach] is
    defined. *)
Definition ProcessMonitor_attach (pid : Z) (sys : AttachSyscalls)
    (listings : list (list Z)) (thread_error : Error)
    (waits : list sem_wait_return) (monitor_thread_joinable : bool)
    (error : Error)
  : M (ProcessMonitor * list ThreadCall) (option (Error * bool)) :=
  on_monitor initialise ;;;
  let* started := StartAttachOpThread pid sys listings thread_error error in
  match started with
  | None => retM None
  | Some (error, started) =>
      if negb (Success error) then retM (Some (error, false))
      else
        let '(m_error, semaphore) := default (ErrorSuccess, 0%nat) started in
        let* failed := on_monitor (wait_again waits semaphore) in
        match failed with
        | Some errno => retM (Some (SetErrorToErrno errno, false))
        | None =>
            if negb (Success m_error) then
              on_monitor StopOpThread ;;;
              retM (Some (m_error, false))
            else if negb monitor_thread_joinable then
              retM (Some (ErrorGeneric "Process attach failed.", false))
            else retM (Some (error, true))
        end
  end.

(** The thread [tid] is gone when [Attach] gets to it: PTRACE_ATTACH,
    or the [waitpid] after it, fails with ESRCH. *)
Definition thread_vanished (sys : AttachSyscalls) (tid : Z) : bool :=
  let '(result, errno) := att_ptrace_attach sys tid in
  if result <? 0 then errno =? ESRCH
  else
    let '(wpid, errno) := att_waitpid sys tid in
    (wpid <? 0) && (errno =? ESRCH).

(** PTRACE_ATTACH, [waitpid] and [SetDefaultPtraceOpts] all succeed for
    the thread [tid]. *)
Definition thread_attached (sys : AttachSyscalls) (tid : Z) : bool :=
  (0 <=? (att_ptrace_attach sys tid).1)
  && (0 <=? (att_waitpid sys tid).1)
  && (0 <=? (att_ptrace_setoptions sys tid).1).

End Monitor.

(** ** Concrete instances *)

(** A tracee, pid 7, with sixteen bytes mapped at 4096. *)
Definition example_tracees : gmap Z (gmap Z byte) :=
  {[ 7 := map_seqZ 4096 (replicate 16 Byte.xff) ]}.

Definition example_bytes : list byte := [Byte.x01; Byte.x02; Byte.x03].

Definition example_word : list byte :=
  [Byte.x01; Byte.x02; Byte.x03; Byte.x04; Byte.x05; Byte.x06; Byte.x07;
   Byte.x08].

Definition example_written : gmap Z (gmap Z byte) :=
  match DoWriteMemory 8 example_tracees 7 4098 example_bytes 3 ErrorSuccess
  with
  | Some (k, _, _) => k
  | None => ∅
  end.

(** A kernel that answers PTRACE_GETSIGINFO with [siginfo], lets every
    PTRACE_CONT succeed and every register-set request fail. *)
Definition example_kernel (siginfo : Z * Z * siginfo_t) : Kernel :=
  {| tracees := example_tracees; getpid := 1000;
     ptrace_cont := λ _ _, 0;
     ptrace_getsiginfo := λ _, siginfo;
     ptrace_geteventmsg := λ _, (0, 0);
     ptrace_getregset_hwdebug := λ _ _ dbg_info, (-1, dbg_info);
     ptrace_setregset_hwdebug := λ _ _ _, -1;
     indeterminate := 0 |}.

(** A kernel that answers PTRACE_GETSIGINFO with [siginfo] and refuses
    every other request. *)
Definition refusing_kernel (siginfo : Z * Z * siginfo_t) : Kernel :=
  {| tracees := example_tracees; getpid := 1000;
     ptrace_cont := λ _ _, -1;
     ptrace_getsiginfo := λ _, siginfo;
     ptrace_geteventmsg := λ _, (-1, 0);
     ptrace_getregset_hwdebug := λ _ _ dbg_info, (-1, dbg_info);
     ptrace_setregset_hwdebug := λ _ _ _, -1;
     indeterminate := 0 |}.

(** A monitor of process 7 whose operation thread is serving. *)
Definition example_monitor (siginfo : Z * Z * siginfo_t)
  : ProcessMonitor unit :=
  {| process_id := 7; process_messages := [];
     m_operation_thread_joinable := true;
     operation_thread_returned := false;
     m_pid := 7; m_terminal_fd := 3; m_operation := None;
     m_operation_pending := 0; m_operation_done := 0;
     executed := []; kernel := example_kernel siginfo |}.

Definition refused_monitor (siginfo : Z * Z * siginfo_t)
  : ProcessMonitor unit :=
  {| process_id := 7; process_messages := [];
     m_operation_thread_joinable := true;
     operation_thread_returned := false;
     m_pid := 7; m_terminal_fd := 3; m_operation := None;
     m_operation_pending := 0; m_operation_done := 0;
     executed := []; kernel := refusing_kernel siginfo |}.

Definition example_MonitorCallback (siginfo : Z * Z * siginfo_t)
  : outcome bool * ProcessMonitor unit :=
  MonitorCallback 8 unit (λ _, tt) 0 2147483647 7 false SIGTRAP 0
    (example_monitor siginfo).

(** A system-call stop, a segmentation fault, and a failed read. *)
Definition syscall_stop : Z * Z * siginfo_t :=
  (0, 0, {| si_signo := SIGTRAP; si_code := SIGTRAP; si_pid := 0;
            si_addr := 0 |}).

Definition segfault : Z * Z * siginfo_t :=
  (0, 0, {| si_signo := SIGSEGV; si_code := 1; si_pid := 0; si_addr := 0 |}).

Definition group_stop : Z * Z * siginfo_t :=
  (-1, EINVAL, {| si_signo := 0; si_code := 0; si_pid := 0; si_addr := 0 |}).

(** A launch of /bin/true with an empty [envp] and a working directory,
    where every system call succeeds but [chdir], which returns
    [chdir_result]. *)
Definition example_args : LaunchArgs :=
  {| m_argv := ["/bin/true"]; m_envp := Some [];
     m_stdin_file_spec := None; m_stdout_file_spec := None;
     m_stderr_file_spec := None; m_working_dir := Some "/tmp";
     launch_flag_disable_aslr := false |}.

Definition example_syscalls (chdir_result : Z) : LaunchSyscalls :=
  {| environ := ["PATH=/bin"]; sys_fork := 1234;
     sys_ptrace_traceme := 0; sys_setgid := 0;
     sys_open := λ _, 5; sys_dup2 := λ _ _, 0; sys_close := λ _, 0;
     sys_chdir := λ _, chdir_result;
     sys_execve := λ _ _ _, true;
     sys_waitpid := (1234, 0); sys_ptrace_setoptions := (0, 0);
     master_fd := 3; sys_fcntl_getfl := (2, 0);
     sys_fcntl_setfl := λ _, (0, 0) |}.

(** The same launch where the terminal cannot be made non-blocking. *)
Definition example_syscalls_fcntl_fails : LaunchSyscalls :=
  {| environ := ["PATH=/bin"]; sys_fork := 1234;
     sys_ptrace_traceme := 0; sys_setgid := 0;
     sys_open := λ _, 5; sys_dup2 := λ _ _, 0; sys_close := λ _, 0;
     sys_chdir := λ _, 0;
     sys_execve := λ _ _ _, true;
     sys_waitpid := (1234, 0); sys_ptrace_setoptions := (0, 0);
     master_fd := 3; sys_fcntl_getfl := (-1, 9);
     sys_fcntl_setfl := λ _, (0, 0) |}.

(** A breakpoint, a clone event, an exit event, a SIGTRAP with a code
    the switch does not list, a read that fails because the task is gone, and a SIGSTOP
    that another process has sent. *)
Definition breakpoint_stop : Z * Z * siginfo_t :=
  (0, 0, {| si_signo := SIGTRAP; si_code := TRAP_BRKPT; si_pid := 0;
            si_addr := 0 |}).

Definition clone_event : Z * Z * siginfo_t :=
  (0, 0, {| si_signo := SIGTRAP;
            si_code := Z.lor SIGTRAP (PTRACE_EVENT_CLONE ≪ 8); si_pid := 0;
            si_addr := 0 |}).

Definition exit_event : Z * Z * siginfo_t :=
  (0, 0, {| si_signo := SIGTRAP;
            si_code := Z.lor SIGTRAP (PTRACE_EVENT_EXIT ≪ 8); si_pid := 0;
            si_addr := 0 |}).

Definition unknown_trap : Z * Z * siginfo_t :=
  (0, 0, {| si_signo := SIGTRAP; si_code := 3; si_pid := 0; si_addr := 0 |}).

Definition unreadable : Z * Z * siginfo_t :=
  (-1, ESRCH, {| si_signo := 0; si_code := 0; si_pid := 0; si_addr := 0 |}).

Definition foreign_stop : Z * Z * siginfo_t :=
  (0, 0, {| si_signo := SIGSTOP; si_code := SI_USER; si_pid := 4321;
            si_addr := 0 |}).

(** Wake-ups of [waitpid] for the thread 7, known to the process:
    stopped by SIGSTOP, and exited with code 0. *)
Definition stopped_event : wait_event :=
  {| ev_pid := 7; ev_status := Z.lor (SIGSTOP ≪ 8) 127; ev_errno := 0;
     ev_thread := true |}.

Definition exited_event : wait_event :=
  {| ev_pid := 7; ev_status := 0; ev_errno := 0; ev_thread := true |}.

(** The example monitor after three bytes were written at 4098. *)
Definition example_after_write : ProcessMonitor unit :=
  (WriteMemory 8 unit 2147483647 4098 example_bytes 3 ErrorSuccess
     (example_monitor syscall_stop)).2.

(** The system calls of an attach where the thread [vanished] exits
    before PTRACE_ATTACH reaches it and all else succeeds. *)
Definition example_attach (vanished : Z) : AttachSyscalls := {|
  att_ptrace_attach := λ tid, if tid =? vanished then (-1, ESRCH) else (0, 0);
  att_waitpid := λ tid, (tid, 0);
  att_ptrace_setoptions := λ _, (0, 0)
|}.

(** * Properties of the memory loops *)

Lemma byte_to_Z_range (b : byte) : 0 ≤ byte_to_Z b < 2 ^ 8.
Proof.
  unfold byte_to_Z. pose proof (Byte.to_N_bounded b).
  change (2 ^ 8) with 256. lia.
Qed.

Lemma byte_of_to_Z (b : byte) : byte_of_Z (byte_to_Z b) = b.
Proof.
  unfold byte_of_Z. pose proof (byte_to_Z_range b) as Hb.
  change (2 ^ 8) with 256 in Hb. rewrite Z.mod_small by lia.
  unfold byte_to_Z. by rewrite N2Z.id, Byte.of_to_N.
Qed.

Lemma for_range_nonpos {S : Type} (n : Z) (body : Z → S → S) (s : S) :
  n ≤ 0 → for_range n body s = s.
Proof. intros Hn. unfold for_range. by rewrite seqZ_nil. Qed.

Lemma for_range_succ {S : Type} (n : nat) (body : Z → S → S) (s : S) :
  for_range (Z.of_nat (Datatypes.S n)) body s
  = body (Z.of_nat n) (for_range (Z.of_nat n) body s).
Proof. unfold for_range. by rewrite seqZ_S, foldl_app. Qed.

Lemma length_for_range_store (f : Z → byte) (dst : Z) (n : nat)
    (buf : list byte) :
  length (for_range (Z.of_nat n) (λ i b, store dst i (f i) b) buf)
  = length buf.
Proof.
  induction n as [|n IH]; [by rewrite for_range_nonpos|].
  rewrite for_range_succ. unfold store at 1. by rewrite length_insert.
Qed.

Lemma lookup_for_range_store (f : Z → byte) (dst : Z) (n : nat)
    (buf : list byte) (j : nat) :
  0 ≤ dst →
  for_range (Z.of_nat n) (λ i b, store dst i (f i) b) buf !! j
  = if decide (dst ≤ Z.of_nat j < dst + Z.of_nat n ∧ (j < length buf)%nat)
    then Some (f (Z.of_nat j - dst)) else buf !! j.
Proof.
  intros Hdst. induction n as [|n IH].
  { rewrite for_range_nonpos by done. case_decide; [lia|done]. }
  rewrite for_range_succ. unfold store at 1.
  rewrite list_lookup_insert, length_for_range_store, IH.
  repeat case_decide; try lia; try done.
  do 2 f_equal. lia.
Qed.

Lemma little_endian_to_Z_snoc (n : Z) (bs : list Z) (b : Z) :
  0 ≤ n →
  little_endian_to_Z n (bs ++ [b])
  = Z.lor (little_endian_to_Z n bs) (b ≪ (Z.of_nat (length bs) * n)).
Proof.
  intros Hn. induction bs as [|a bs IH]; simpl little_endian_to_Z.
  { rewrite Z.shiftl_0_l, Z.lor_0_r, Z.shiftl_0_r. by rewrite Z.lor_0_l. }
  rewrite IH, Z.shiftl_lor, Z.shiftl_shiftl, Z.lor_assoc by lia.
  do 2 f_equal. simpl length. lia.
Qed.

Section MemoryProofs.

Variable word_size : Z.
Hypothesis word_size_host : word_size = 4 ∨ word_size = 8.

Local Abbreviation memories := (gmap Z (gmap Z byte)).

Lemma word_size_bounds : 0 < word_size ≤ 8.
Proof. lia. Qed.

Lemma pointer_range_divides : (2 ^ word_bits word_size | 2 ^ 64).
Proof.
  unfold word_bits. destruct word_size_host as [-> | ->].
  - exists (2 ^ 32). reflexivity.
  - exists 1. reflexivity.
Qed.

Lemma pointer_range_pos : 0 < 2 ^ word_bits word_size ≤ 2 ^ 64.
Proof. unfold word_bits. destruct word_size_host as [-> | ->]; lia. Qed.

Lemma to_pointer_addr_add (v j : Z) :
  to_pointer word_size (addr_add v j) = to_pointer word_size (v + j).
Proof.
  unfold to_pointer, addr_add.
  apply Z.mod_mod_divide, pointer_range_divides.
Qed.

Lemma addr_add_assoc (v i j : Z) :
  addr_add (addr_add v i) j = addr_add v (i + j).
Proof.
  unfold addr_add. rewrite Zplus_mod_idemp_l. f_equal. lia.
Qed.

Lemma to_pointer_small (v : Z) :
  0 ≤ v < 2 ^ word_bits word_size → to_pointer word_size v = v.
Proof. intros Hv. unfold to_pointer. by apply Z.mod_small. Qed.

(** *** Words in the tracee's memory *)

Lemma read_word_is_Some (m : gmap Z byte) (a : Z) :
  is_Some (read_word word_size m a)
  ↔ ∀ i, 0 ≤ i < word_size → is_Some (m !! (a + i)).
Proof.
  unfold read_word. rewrite mapM_is_Some, Forall_seqZ.
  split; intros H i Hi; apply H; lia.
Qed.

Lemma read_word_Some (m : gmap Z byte) (a : Z) (bs : list byte) :
  read_word word_size m a = Some bs →
  length bs = Z.to_nat word_size
  ∧ ∀ i, 0 ≤ i < word_size → m !! (a + i) = bs !! Z.to_nat i.
Proof.
  unfold read_word. rewrite mapM_Some, Forall2_same_length_lookup.
  rewrite length_seqZ. intros [Hlen H]. split; [done|].
  intros i Hi. destruct (bs !! Z.to_nat i) as [b|] eqn:Hb.
  - apply (H (Z.to_nat i) i b); [|done].
    apply lookup_seqZ. lia.
  - apply lookup_ge_None in Hb. lia.
Qed.

Lemma to_long_little_endian (zs : list Z) :
  length zs = Z.to_nat word_size →
  Forall (λ z, 0 ≤ z < 2 ^ 8) zs →
  Z_to_little_endian word_size 8
    (to_long word_size (little_endian_to_Z 8 zs)) = zs.
Proof.
  intros Hlen Hzs.
  pose proof word_size_bounds as HW.
  pose proof (little_endian_to_Z_bound 8 zs ltac:(lia) Hzs) as Hx.
  set (x := little_endian_to_Z 8 zs) in *.
  assert (Hmod : to_long word_size x `mod` 2 ^ (word_size * 8) = x).
  { unfold to_long, word_bits. replace (8 * word_size) with (word_size * 8) by lia.
    replace (Z.of_nat (length zs) * 8) with (word_size * 8) in Hx by lia.
    case_match.
    - replace (x - 2 ^ (word_size * 8))
        with (x + (-1) * 2 ^ (word_size * 8)) by lia.
      rewrite Z.mod_add by lia. by apply Z.mod_small.
    - by apply Z.mod_small. }
  set (cs := Z_to_little_endian word_size 8 (to_long word_size x)).
  assert (Hcs : little_endian_to_Z 8 cs = x).
  { unfold cs. by rewrite little_endian_to_Z_to_little_endian by lia. }
  rewrite <- (Z_to_little_endian_to_Z word_size 8 cs).
  - rewrite Hcs. unfold x. apply Z_to_little_endian_to_Z; [lia|lia|done].
  - unfold cs. by rewrite length_Z_to_little_endian by lia.
  - lia.
  - apply Z_to_little_endian_bound; lia.
Qed.

(** The read loop's byte [i] of a peeked word is the tracee's byte [i]
    of that word. *)
Lemma peek_byte (bs : list byte) (i : Z) (b : byte) :
  length bs = Z.to_nat word_size →
  0 ≤ i →
  bs !! Z.to_nat i = Some b →
  byte_of_Z
    (Z.land
       (to_long word_size (little_endian_to_Z 8 (byte_to_Z <$> bs))
          ≫ (i * 8)) 255) = b.
Proof.
  intros Hlen Hi Hb.
  pose proof word_size_bounds as HW.
  assert (Hzs : Forall (λ z, 0 ≤ z < 2 ^ 8) (byte_to_Z <$> bs)).
  { apply Forall_fmap, Forall_forall. intros c _. apply byte_to_Z_range. }
  pose proof (to_long_little_endian (byte_to_Z <$> bs)) as Hle.
  rewrite length_fmap in Hle. specialize (Hle Hlen Hzs).
  assert (Hz : (byte_to_Z <$> bs) !! Z.to_nat i = Some (byte_to_Z b)).
  { by rewrite list_lookup_fmap, Hb. }
  rewrite <- Hle in Hz at 1.
  apply Z_to_little_endian_lookup_Some in Hz as [_ Hz]; [|lia..].
  rewrite Z2Nat.id in Hz by done.
  change (Z.ones 8) with 255 in Hz. rewrite <- Hz. apply byte_of_to_Z.
Qed.

Lemma pack_word_little_endian (buf : list byte) (src : Z) :
  pack_word word_size buf src
  = little_endian_to_Z 8 (byte_to_Z <$> word_at word_size buf src).
Proof.
  unfold pack_word, word_at.
  pose proof word_size_bounds as HW.
  rewrite <- (Z2Nat.id word_size) by lia.
  induction (Z.to_nat word_size) as [|n IH].
  { by rewrite for_range_nonpos. }
  rewrite for_range_succ, IH, seqZ_S, !fmap_app. simpl.
  rewrite little_endian_to_Z_snoc by lia.
  by rewrite !length_fmap, length_seqZ, Nat2Z.id.
Qed.

Lemma poke_bytes (buf : list byte) (src : Z) :
  byte_of_Z <$> Z_to_little_endian word_size 8 (pack_word word_size buf src)
  = word_at word_size buf src.
Proof.
  pose proof word_size_bounds as HW.
  rewrite pack_word_little_endian, Z_to_little_endian_to_Z.
  - rewrite <- list_fmap_compose. rewrite <- (list_fmap_id (word_at word_size buf src)) at 2.
    apply list_fmap_ext. intros _ b _. apply byte_of_to_Z.
  - unfold word_at. rewrite !length_fmap, length_seqZ. lia.
  - lia.
  - apply Forall_fmap, Forall_forall. intros c _. apply byte_to_Z_range.
Qed.

Lemma lookup_word_at (buf : list byte) (src i : Z) :
  0 ≤ i < word_size →
  word_at word_size buf src !! Z.to_nat i = Some (load buf src i).
Proof.
  intros Hi. unfold word_at. rewrite list_lookup_fmap.
  rewrite lookup_seqZ_lt by lia. simpl. do 2 f_equal. lia.
Qed.

Lemma length_word_at (buf : list byte) (src : Z) :
  length (word_at word_size buf src) = Z.to_nat word_size.
Proof. unfold word_at. by rewrite length_fmap, length_seqZ. Qed.

Lemma lookup_write_word (m : gmap Z byte) (a : Z) (bs : list byte) (x : Z) :
  length bs = Z.to_nat word_size →
  write_word m a bs !! x
  = if decide (a ≤ x < a + word_size) then bs !! Z.to_nat (x - a)
    else m !! x.
Proof.
  intros Hlen. pose proof word_size_bounds as HW.
  unfold write_word. rewrite lookup_union, lookup_map_seqZ.
  case_decide as Hx.
  - rewrite option_guard_True by lia. simpl.
    destruct (bs !! Z.to_nat (x - a)) eqn:E; [by destruct (m !! x)|].
    apply lookup_ge_None in E. lia.
  - destruct (decide (a ≤ x)) as [Hax|Hax].
    + rewrite option_guard_True by lia. simpl.
      rewrite (lookup_ge_None_2 bs) by lia. by destruct (m !! x).
    + rewrite option_guard_False by lia. simpl. by destruct (m !! x).
Qed.

Lemma lookup_write_bytes (m : gmap Z byte) (a : Z) (bs : list byte) (x : Z) :
  write_word m a bs !! x
  = if decide (a ≤ x < a + Z.of_nat (length bs)) then bs !! Z.to_nat (x - a)
    else m !! x.
Proof.
  unfold write_word. rewrite lookup_union, lookup_map_seqZ.
  case_decide as Hx.
  - rewrite option_guard_True by lia. simpl.
    destruct (bs !! Z.to_nat (x - a)) eqn:E; [by destruct (m !! x)|].
    apply lookup_ge_None in E. lia.
  - destruct (decide (a ≤ x)) as [Hax|Hax].
    + rewrite option_guard_True by lia. simpl.
      rewrite (lookup_ge_None_2 bs) by lia. by destruct (m !! x).
    + rewrite option_guard_False by lia. simpl. by destruct (m !! x).
Qed.

(** What a failing poke writes: the first [p] bytes of the word, where
    byte [p] is the first unmapped one. *)
Lemma mapped_prefix_spec (m : gmap Z byte) (bs : list byte) :
  ∀ a, ∃ p : nat,
    mapped_prefix m a bs = take p bs ∧ (p ≤ length bs)%nat
    ∧ (∀ i, 0 ≤ i < Z.of_nat p → is_Some (m !! (a + i)))
    ∧ ((p < length bs)%nat → m !! (a + Z.of_nat p) = None).
Proof.
  induction bs as [|b bs IH]; intros a; simpl.
  { exists 0%nat. split_and!; [done|done|intros; lia|simpl; lia]. }
  destruct (m !! a) as [b0|] eqn:Ha.
  - destruct (IH (a + 1)) as (p & Heq & Hle & Hpre & Hnone).
    exists (S p). split_and!.
    + simpl. by rewrite Heq.
    + lia.
    + intros i Hi. destruct (decide (i = 0)) as [->|Hi0].
      * rewrite Z.add_0_r, Ha. by eexists.
      * replace (a + i) with (a + 1 + (i - 1)) by lia. apply Hpre. lia.
    + intros Hlt. replace (a + Z.of_nat (S p)) with (a + 1 + Z.of_nat p)
        by lia. apply Hnone. lia.
  - exists 0%nat. split_and!; [done|lia|intros; lia|].
    intros _. by rewrite Z.add_0_r.
Qed.

(** *** The two requests *)

Lemma peek_errno (k : memories) (pid a : Z) :
  (ptrace_peekdata word_size k pid a).2 = 0
  ↔ ∃ m, k !! pid = Some m ∧ is_Some (read_word word_size m a).
Proof.
  unfold ptrace_peekdata. destruct (k !! pid) as [m|]; simpl.
  - destruct (read_word word_size m a) as [bs|] eqn:E; simpl.
    + split; [|done]. intros _. exists m. by rewrite E.
    + split; [done|]. intros (? & [= <-] & [? ?]). congruence.
  - split; [done|]. by intros (? & ? & _).
Qed.

Lemma peek_ok (k : memories) (pid a data : Z) :
  ptrace_peekdata word_size k pid a = (data, 0) →
  ∃ m bs, k !! pid = Some m ∧ read_word word_size m a = Some bs
    ∧ data = to_long word_size (little_endian_to_Z 8 (byte_to_Z <$> bs)).
Proof.
  unfold ptrace_peekdata. destruct (k !! pid) as [m|]; [|done].
  destruct (read_word word_size m a) as [bs|] eqn:E; [|done].
  intros [= <-]. by exists m, bs.
Qed.

Lemma mem_byte_poke (k : memories) (m : gmap Z byte) (pid a : Z)
    (bs : list byte) (pid' x : Z) :
  k !! pid = Some m →
  length bs = Z.to_nat word_size →
  mem_byte (<[pid := write_word m a bs]> k) pid' x
  = if decide (pid' = pid ∧ a ≤ x < a + word_size)
    then bs !! Z.to_nat (x - a) else mem_byte k pid' x.
Proof.
  intros Hk Hlen. unfold mem_byte. rewrite lookup_insert.
  destruct (decide (pid = pid')) as [<-|Hne]; simpl.
  - rewrite lookup_write_word by done. rewrite Hk. simpl.
    case_decide as Hin; case_decide as Hin'; try done.
    + destruct Hin'. by split.
    + by destruct Hin' as [_ Hin'].
  - case_decide as Hin; [|done]. by destruct Hin as [-> _].
Qed.

Lemma mem_byte_write (k : memories) (m : gmap Z byte) (pid a : Z)
    (bs : list byte) (pid' x : Z) :
  k !! pid = Some m →
  mem_byte (<[pid := write_word m a bs]> k) pid' x
  = if decide (pid' = pid ∧ a ≤ x < a + Z.of_nat (length bs))
    then bs !! Z.to_nat (x - a) else mem_byte k pid' x.
Proof.
  intros Hk. unfold mem_byte. rewrite lookup_insert.
  destruct (decide (pid = pid')) as [<-|Hne]; simpl.
  - rewrite lookup_write_bytes. rewrite Hk. simpl.
    case_decide as Hin; case_decide as Hin'; try done.
    + destruct Hin'. by split.
    + by destruct Hin' as [_ Hin'].
  - case_decide as Hin; [|done]. by destruct Hin as [-> _].
Qed.

(** A poke of the word [src[0..word_size)] of a buffer either fails,
    having written the [p] bytes before the first unmapped byte of the
    word, or finds the word mapped and writes it. *)
Lemma poke_cases (k : memories) (pid a : Z) (buf : list byte) (src : Z) :
  (∃ e k1 p,
     ptrace_pokedata word_size k pid a (pack_word word_size buf src)
     = (k1, -1, e)
     ∧ e ≠ 0 ∧ 0 ≤ p < word_size
     ∧ (∀ pid' x,
          mem_byte k1 pid' x
          = if decide (pid' = pid ∧ a ≤ x < a + p)
            then Some (load buf src (x - a)) else mem_byte k pid' x)
     ∧ (∀ i, 0 ≤ i < p → is_Some (mem_byte k pid (a + i)))
     ∧ mem_byte k pid (a + p) = None)
  ∨ (∃ m, k !! pid = Some m ∧ is_Some (read_word word_size m a)
      ∧ ptrace_pokedata word_size k pid a (pack_word word_size buf src)
        = (<[pid := write_word m a (word_at word_size buf src)]> k, 0, 0)).
Proof.
  pose proof word_size_bounds as HW.
  unfold ptrace_pokedata. destruct (k !! pid) as [m|] eqn:Hk.
  2:{ left. exists ESRCH, k, 0. split_and!; [done|done|lia|lia| | |].
      - intros pid' x. case_decide; [lia|done].
      - intros i Hi. lia.
      - unfold mem_byte. by rewrite Hk. }
  rewrite poke_bytes.
  destruct (read_word word_size m a) as [bs|] eqn:E.
  { right. exists m. split_and!; [done|by rewrite E|done]. }
  left.
  destruct (mapped_prefix_spec m (word_at word_size buf src) a)
    as (p & Heq & Hle & Hpre & Hnone).
  rewrite length_word_at in Hle, Hnone.
  assert (Hp : (p < Z.to_nat word_size)%nat).
  { destruct (decide (p < Z.to_nat word_size)%nat) as [|Hge]; [done|].
    assert (is_Some (read_word word_size m a)) as [? ?]; [|congruence].
    apply read_word_is_Some. intros i Hi. apply Hpre. lia. }
  exists EIO, (<[pid := write_word m a (take p (word_at word_size buf src))]> k),
    (Z.of_nat p).
  rewrite Heq. split_and!; [done|done|lia|lia| | |].
  - intros pid' x. rewrite (mem_byte_write k m pid a _ pid' x Hk).
    rewrite length_take, length_word_at, Nat.min_l by lia.
    case_decide as Hin; [|done]. destruct Hin as [_ Hin].
    rewrite lookup_take_lt by lia. rewrite lookup_word_at by lia. done.
  - intros i Hi. unfold mem_byte. rewrite Hk. simpl. by apply Hpre.
  - unfold mem_byte. rewrite Hk. simpl. by apply Hnone.
Qed.

(** *** The read loop *)

Lemma remainder_min (n : Z) :
  (if n >? word_size then word_size else n) = Z.min n word_size.
Proof. destruct (Z.gtb_spec n word_size); lia. Qed.

Lemma DoReadMemory_loop_total (fuel : nat) (k : memories) (pid v : Z)
    (buf : list byte) (dst size br : Z) (error : Error) :
  (Z.to_nat (size - br) < fuel)%nat →
  is_Some (DoReadMemory_loop word_size fuel k pid v buf dst size br error).
Proof.
  pose proof word_size_bounds as HW.
  revert v buf dst br. induction fuel as [|fuel IH]; intros v buf dst br Hf;
    [lia|].
  simpl. destruct (Z.ltb_spec br size); [|done].
  destruct (ptrace_peekdata word_size k pid (to_pointer word_size v))
    as [data errno].
  destruct (negb (errno =? 0)); [done|].
  apply IH. rewrite remainder_min. lia.
Qed.

Lemma DoReadMemory_total (k : memories) (pid v : Z) (buf : list byte)
    (size : Z) (error : Error) :
  is_Some (DoReadMemory word_size k pid v buf size error).
Proof. apply DoReadMemory_loop_total. lia. Qed.

Lemma DoReadMemory_loop_ok (fuel : nat) (k : memories) (m : gmap Z byte)
    (pid v : Z) (buf : list byte) (dst size br : Z) (error : Error) :
  k !! pid = Some m →
  0 ≤ dst → 0 ≤ br ≤ size →
  (∀ j, 0 ≤ j → br + j * word_size < size →
        0 ≤ v + j * word_size < 2 ^ word_bits word_size) →
  (∀ j i, 0 ≤ j → br + j * word_size < size → 0 ≤ i < word_size →
          is_Some (m !! (v + j * word_size + i))) →
  (Z.to_nat (size - br) < fuel)%nat →
  ∃ buf',
    DoReadMemory_loop word_size fuel k pid v buf dst size br error
    = Some (size, buf', error)
    ∧ length buf' = length buf
    ∧ ∀ j : nat,
        buf' !! j
        = if decide (dst ≤ Z.of_nat j < dst + (size - br)
                     ∧ (j < length buf)%nat)
          then m !! (v + (Z.of_nat j - dst)) else buf !! j.
Proof.
  pose proof word_size_bounds as HW.
  pose proof pointer_range_pos as HP.
  intros Hk. revert v buf dst br.
  induction fuel as [|fuel IH]; intros v buf dst br Hdst Hbr Hptr Hmap Hf;
    [lia|].
  simpl. destruct (Z.ltb_spec br size) as [Hlt|Hge].
  2:{ exists buf. replace br with size by lia. split_and!; [done..|].
      intros j. case_decide; [lia|done]. }
  specialize (Hptr 0 ltac:(lia) ltac:(lia)) as Hv.
  rewrite Z.add_0_r in Hv. rewrite to_pointer_small by lia.
  destruct (ptrace_peekdata word_size k pid v) as [data errno] eqn:Hpeek.
  assert (errno = 0) as ->.
  { change errno with (data, errno).2. rewrite <- Hpeek.
    apply peek_errno. exists m. split; [done|].
    apply read_word_is_Some. intros i Hi.
    specialize (Hmap 0 i ltac:(lia) ltac:(lia) Hi).
    by rewrite Z.mul_0_l, Z.add_0_r in Hmap. }
  apply peek_ok in Hpeek as (m' & bs & Hk' & Hbs & ->).
  assert (m' = m) as -> by congruence.
  apply read_word_Some in Hbs as [Hlen Hbs].
  simpl. rewrite remainder_min.
  set (rem := Z.min (size - br) word_size).
  set (buf1 := for_range rem _ buf).
  destruct (IH (addr_add v word_size) buf1 (dst + word_size) (br + rem))
    as (buf' & Heq & Hlen' & Hlook).
  - lia.
  - lia.
  - intros j Hj Hjs. unfold addr_add.
    specialize (Hptr (j + 1) ltac:(lia) ltac:(lia)).
    rewrite Z.mod_small by lia. lia.
  - intros j i Hj Hjs Hi. unfold addr_add.
    pose proof (Hptr 1 ltac:(lia) ltac:(lia)).
    rewrite Z.mod_small by lia.
    specialize (Hmap (j + 1) i ltac:(lia) ltac:(lia) Hi).
    by replace (v + word_size + j * word_size + i)
      with (v + (j + 1) * word_size + i) by lia.
  - lia.
  - assert (Hlen1 : length buf1 = length buf).
    { unfold buf1. rewrite <- (Z2Nat.id rem) by lia.
      apply length_for_range_store. }
    exists buf'. split; [done|]. split; [congruence|].
    intros j. rewrite Hlook, Hlen1.
    unfold buf1. rewrite <- (Z2Nat.id rem) by lia.
    rewrite lookup_for_range_store by lia. rewrite Z2Nat.id by lia.
    pose proof (Hptr 1 ltac:(lia)) as Hv1. subst rem.
    repeat case_decide; try lia; try done.
    + unfold addr_add. rewrite Z.mod_small by lia. f_equal. lia.
    + rewrite (Hbs (Z.of_nat j - dst)) by lia.
      destruct (bs !! Z.to_nat (Z.of_nat j - dst)) as [b|] eqn:Hb.
      * f_equal. apply peek_byte; [done|lia|done].
      * apply lookup_ge_None in Hb. lia.
Qed.

Lemma to_pointer_addr_add_add (v i j : Z) :
  to_pointer word_size (addr_add v i + j) = to_pointer word_size (v + i + j).
Proof.
  rewrite <- (to_pointer_addr_add (addr_add v i) j), addr_add_assoc.
  rewrite to_pointer_addr_add. f_equal. lia.
Qed.

Lemma peeked_byte_shift (k : memories) (pid v x : Z) :
  peeked_byte word_size k pid (addr_add v word_size) (x - word_size)
  = peeked_byte word_size k pid v x.
Proof.
  pose proof word_size_bounds as HW. unfold peeked_byte.
  replace (x - word_size) with (x + (-1) * word_size) by lia.
  rewrite Z.div_add, Z.mod_add by lia.
  rewrite to_pointer_addr_add_add. do 3 f_equal. lia.
Qed.

Lemma DoReadMemory_loop_fail (kf : nat) :
  ∀ (fuel : nat) (k : memories) (pid v : Z) (buf : list byte)
    (dst size br : Z) (error : Error) (e : Z),
  0 ≤ dst → 0 ≤ br →
  br + Z.of_nat kf * word_size < size →
  (∀ j, 0 ≤ j < Z.of_nat kf →
     (ptrace_peekdata word_size k pid
        (to_pointer word_size (v + j * word_size))).2 = 0) →
  (ptrace_peekdata word_size k pid
     (to_pointer word_size (v + Z.of_nat kf * word_size))).2 = e →
  e ≠ 0 →
  (kf < fuel)%nat →
  ∃ buf',
    DoReadMemory_loop word_size fuel k pid v buf dst size br error
    = Some (br + Z.of_nat kf * word_size, buf', SetErrorToErrno e)
    ∧ length buf' = length buf
    ∧ ∀ j : nat,
        buf' !! j
        = if decide (dst ≤ Z.of_nat j < dst + Z.of_nat kf * word_size
                     ∧ (j < length buf)%nat)
          then peeked_byte word_size k pid v (Z.of_nat j - dst) else buf !! j.
Proof.
  pose proof word_size_bounds as HW.
  induction kf as [|kf IH];
    intros fuel k pid v buf dst size br error e Hdst Hbr Hsz Hok Hfail He Hf;
    (destruct fuel as [|fuel]; [lia|]); simpl.
  - destruct (Z.ltb_spec br size); [|lia].
    rewrite Z.mul_0_l, Z.add_0_r in Hfail.
    destruct (ptrace_peekdata word_size k pid (to_pointer word_size v))
      as [data errno]. simpl in Hfail. subst errno.
    destruct (Z.eqb_spec e 0); [done|]. simpl.
    exists buf. split_and!; [do 3 f_equal; lia|done|].
    intros j. case_decide; [lia|done].
  - destruct (Z.ltb_spec br size); [|lia].
    pose proof (Hok 0 ltac:(lia)) as H0.
    rewrite Z.mul_0_l, Z.add_0_r in H0.
    destruct (ptrace_peekdata word_size k pid (to_pointer word_size v))
      as [data errno] eqn:Hpeek. simpl in H0. subst errno. simpl.
    apply peek_ok in Hpeek as (m & bs & Hk & Hbs & ->).
    apply read_word_Some in Hbs as [Hlenbs Hbs].
    rewrite remainder_min, Z.min_r by lia.
    set (buf1 := for_range word_size _ buf).
    assert (Hlen1 : length buf1 = length buf).
    { unfold buf1. rewrite <- (Z2Nat.id word_size) by lia.
      apply length_for_range_store. }
    destruct (IH fuel k pid (addr_add v word_size) buf1 (dst + word_size)
                size (br + word_size) error e) as (buf' & Heq & Hlen & Hlook);
      [lia|lia|lia| | |done|lia|].
    + intros j Hj. rewrite to_pointer_addr_add_add.
      replace (v + word_size + j * word_size)
        with (v + (j + 1) * word_size) by lia.
      apply Hok. lia.
    + rewrite to_pointer_addr_add_add. rewrite <- Hfail. do 3 f_equal. lia.
    + exists buf'. split_and!.
      * rewrite Heq. do 3 f_equal. lia.
      * congruence.
      * intros j. rewrite Hlook, Hlen1. unfold buf1.
        rewrite <- (Z2Nat.id word_size) by lia.
        rewrite lookup_for_range_store by lia. rewrite Z2Nat.id by lia.
        repeat case_decide; try lia; try done.
        -- rewrite <- (peeked_byte_shift k pid v (Z.of_nat j - dst)).
           f_equal. lia.
        -- unfold peeked_byte.
           rewrite Z.div_small, Z.mod_small, Z.mul_0_l, Z.add_0_r by lia.
           unfold mem_byte. rewrite Hk. simpl.
           rewrite (Hbs (Z.of_nat j - dst)) by lia.
           destruct (bs !! Z.to_nat (Z.of_nat j - dst)) as [b|] eqn:Hb.
           ++ f_equal. apply peek_byte; [done|lia|done].
           ++ apply lookup_ge_None in Hb. lia.
Qed.

(** *** The write loop *)

(** The call [DoWriteMemory(pid, vm_addr, buff, word_size, error)] of
    the partial-word branch is one poke. *)
Lemma DoWriteMemory_loop_word (fuel : nat) (k : memories) (pid v : Z)
    (buff : list byte) (error : Error) :
  DoWriteMemory_loop word_size (S (S fuel)) k pid v buff 0 word_size 0 error
  = let '(k1, result, errno) :=
      ptrace_pokedata word_size k pid (to_pointer word_size v)
        (pack_word word_size buff 0) in
    if negb (result =? 0) then Some (k1, 0, SetErrorToErrno errno)
    else Some (k1, word_size, error).
Proof.
  pose proof word_size_bounds as HW.
  cbn [DoWriteMemory_loop].
  destruct (Z.ltb_spec 0 word_size); [|lia].
  rewrite remainder_min, Z.min_l by lia.
  rewrite Z.sub_0_r, Z.eqb_refl.
  destruct (ptrace_pokedata _ _ _ _ _) as [[k1 result] errno].
  destruct (negb (result =? 0)); [done|].
  rewrite Z.add_0_l, Z.ltb_irrefl. done.
Qed.

Lemma DoWriteMemory_loop_word_fuel (k : memories) (pid v : Z)
    (buff : list byte) (error : Error) (r : memories * Z * Error) :
  DoWriteMemory_loop word_size 1 k pid v buff 0 word_size 0 error = Some r →
  DoWriteMemory_loop word_size 2 k pid v buff 0 word_size 0 error = Some r.
Proof.
  pose proof word_size_bounds as HW.
  cbn [DoWriteMemory_loop].
  destruct (Z.ltb_spec 0 word_size); [|lia].
  rewrite remainder_min, Z.min_l by lia.
  rewrite Z.sub_0_r, Z.eqb_refl.
  destruct (ptrace_pokedata _ _ _ _ _) as [[k1 result] errno].
  by destruct (negb (result =? 0)).
Qed.

Lemma DoWriteMemory_loop_word_inv (fuel : nat) (k : memories) (pid v : Z)
    (buff : list byte) (error : Error) (r : memories * Z * Error) :
  DoWriteMemory_loop word_size fuel k pid v buff 0 word_size 0 error
  = Some r →
  let '(k1, result, errno) :=
    ptrace_pokedata word_size k pid (to_pointer word_size v)
      (pack_word word_size buff 0) in
  r = if negb (result =? 0) then (k1, 0, SetErrorToErrno errno)
      else (k1, word_size, error).
Proof.
  intros Hr. destruct fuel as [|[|fuel]]; [done| |].
  - apply DoWriteMemory_loop_word_fuel in Hr.
    rewrite DoWriteMemory_loop_word in Hr.
    destruct (ptrace_pokedata _ _ _ _ _) as [[k1 result] errno].
    destruct (negb (result =? 0)); congruence.
  - rewrite DoWriteMemory_loop_word in Hr.
    destruct (ptrace_pokedata _ _ _ _ _) as [[k1 result] errno].
    destruct (negb (result =? 0)); congruence.
Qed.

(** Reading one word into the local buffer. *)
Lemma DoReadMemory_word (k : memories) (pid v : Z) (error error1 : Error)
    (buff : list byte) :
  0 ≤ v < 2 ^ word_bits word_size →
  DoReadMemory word_size k pid v buff_init word_size error
  = Some (word_size, buff, error1) →
  ∃ m, k !! pid = Some m ∧ error1 = error ∧ length buff = 8%nat
    ∧ ∀ i, 0 ≤ i < word_size →
        is_Some (m !! (v + i)) ∧ buff !! Z.to_nat i = m !! (v + i).
Proof.
  pose proof word_size_bounds as HW.
  intros Hv Hr. unfold DoReadMemory in Hr.
  destruct (decide ((ptrace_peekdata word_size k pid
                       (to_pointer word_size v)).2 = 0)) as [Hp|Hp].
  - apply peek_errno in Hp as (m & Hk & Hrd).
    rewrite to_pointer_small in Hrd by done.
    destruct (DoReadMemory_loop_ok (S (Z.to_nat word_size)) k m pid v
                buff_init 0 word_size 0 error)
      as (buf' & Heq & Hlen & Hlook); [done|lia|lia| | |lia|].
    + intros j Hj Hjs. assert (j = 0) as -> by nia. lia.
    + intros j i Hj Hjs Hi. assert (j = 0) as -> by nia.
      rewrite Z.mul_0_l, Z.add_0_r. by apply read_word_is_Some.
    + rewrite Heq in Hr. injection Hr as <- <-.
      exists m. split_and!; [done..|].
      intros i Hi. split; [by apply read_word_is_Some|].
      rewrite Hlook. simpl length. rewrite Z2Nat.id by lia.
      case_decide; [f_equal; lia|lia].
  - destruct (DoReadMemory_loop_fail 0 (S (Z.to_nat word_size)) k pid v
                buff_init 0 word_size 0 error _ ltac:(lia) ltac:(lia)
                ltac:(lia) ltac:(intros; lia)
                ltac:(by rewrite Z.mul_0_l, Z.add_0_r) Hp ltac:(lia))
      as (buf' & Heq & _).
    rewrite Heq in Hr. injection Hr as Hr _ _. lia.
Qed.

Lemma load_overlay (buf : list byte) (src : Z) (buff : list byte)
    (rem i : Z) :
  0 ≤ rem → 0 ≤ i → (Z.to_nat i < length buff)%nat →
  load (memcpy buff buf src rem) 0 i
  = if decide (i < rem) then load buf src i else load buff 0 i.
Proof.
  intros Hrem Hi Hlen. unfold load at 1, memcpy.
  rewrite <- (Z2Nat.id rem) by done.
  rewrite lookup_for_range_store by done.
  rewrite !Z2Nat.id, !Z.add_0_l, Z.sub_0_r by lia.
  repeat case_decide; try lia; done.
Qed.

Lemma load_shift (buf : list byte) (src w a v : Z) :
  load buf (src + w) (a - (v + w)) = load buf src (a - v).
Proof. unfold load. do 3 f_equal. lia. Qed.

(** The state reached by the write loop: the count returned lies
    between the bytes already written and [size]; the tracee's memory
    differs from the initial one exactly on the bytes written, which
    hold the caller's bytes: these are the bytes counted and, where the
    loop stopped at a failing poke of a full word, the [p] bytes of that
    word before its first unmapped byte; and after a complete write
    every word the loop touched is mapped. *)
Lemma DoWriteMemory_loop_spec (fuel : nat) :
  ∀ (k : memories) (pid v : Z) (buf : list byte) (src size bw : Z)
    (error : Error) (k' : memories) (cnt : Z) (error' : Error),
  DoWriteMemory_loop word_size fuel k pid v buf src size bw error
  = Some (k', cnt, error') →
  0 ≤ bw ≤ size →
  (∀ j, 0 ≤ j → bw + j * word_size < size →
        0 ≤ v + j * word_size < 2 ^ word_bits word_size) →
  bw ≤ cnt ≤ size
  ∧ (∃ p, 0 ≤ p
      ∧ (size - cnt < word_size → p = 0)
      ∧ (word_size ≤ size - cnt →
         p < word_size
         ∧ (∀ i, 0 ≤ i < p →
                 is_Some (mem_byte k pid (v + (cnt - bw) + i)))
         ∧ mem_byte k pid (v + (cnt - bw) + p) = None)
      ∧ ∀ pid' a,
          mem_byte k' pid' a
          = if decide (pid' = pid ∧ v ≤ a < v + (cnt - bw) + p)
            then Some (load buf src (a - v)) else mem_byte k pid' a)
  ∧ (cnt = size →
     ∀ j i, 0 ≤ j → bw + j * word_size < size → 0 ≤ i < word_size →
            is_Some (mem_byte k' pid (v + j * word_size + i))).
Proof.
  pose proof word_size_bounds as HW.
  pose proof pointer_range_pos as HP.
  induction fuel as [|fuel IH];
    intros k pid v buf src size bw error k' cnt error' Hrun Hbw Hptr;
    [done|].
  cbn [DoWriteMemory_loop] in Hrun.
  destruct (Z.ltb_spec bw size) as [Hlt|Hge].
  2:{ injection Hrun as <- <- <-. split; [lia|]. split.
      - exists 0. split_and!; [lia|done|lia|].
        intros pid' a. case_decide; [lia|done].
      - intros _ j i Hj Hjs. nia. }
  pose proof (Hptr 0 ltac:(lia) ltac:(lia)) as Hv.
  rewrite Z.mul_0_l, Z.add_0_r in Hv.
  rewrite remainder_min in Hrun.
  destruct (Z.eqb_spec (Z.min (size - bw) word_size) word_size)
    as [Hfull|Hpart].
  - (* a full word: one poke *)
    rewrite to_pointer_small in Hrun by done.
    destruct (poke_cases k pid v buf src)
      as [(e & k1 & p & Hp & He & Hpr & Hmem1 & Hpre & Hnone)
         | (m & Hk & Hrd & Hp)]; rewrite Hp in Hrun;
      cbn [negb Z.eqb] in Hrun.
    { injection Hrun as <- <- <-. split; [lia|]. split; [|lia].
      exists p. rewrite Z.sub_diag, Z.add_0_r.
      split_and!; [lia|lia| |done]. intros _. by split_and!; [lia|..]. }
    rewrite Hfull in Hrun.
    apply IH in Hrun as (Hcnt & (p & Hp0 & Hsmall & Hstop & Hmem) & Hmapped);
      [|lia|].
    2:{ intros j Hj Hjs. unfold addr_add.
        pose proof (Hptr 1 ltac:(lia) ltac:(lia)).
        specialize (Hptr (j + 1) ltac:(lia) ltac:(lia)).
        rewrite Z.mod_small by lia. lia. }
    assert (Hk1 : ∀ pid' a,
               mem_byte
                 (<[pid := write_word m v (word_at word_size buf src)]> k)
                 pid' a
               = if decide (pid' = pid ∧ v ≤ a < v + word_size)
                 then Some (load buf src (a - v)) else mem_byte k pid' a).
    { intros pid' a.
      rewrite (mem_byte_poke k m pid v _ pid' a Hk (length_word_at _ _)).
      case_decide; [|done]. by rewrite lookup_word_at by lia. }
    assert (Hadd : bw + word_size < size →
                   addr_add v word_size = v + word_size).
    { intros Hmore. pose proof (Hptr 1 ltac:(lia) ltac:(lia)).
      unfold addr_add. rewrite Z.mod_small; lia. }
    assert (Hmem' : ∀ pid' a,
               mem_byte k' pid' a
               = if decide (pid' = pid ∧ v ≤ a < v + (cnt - bw) + p)
                 then Some (load buf src (a - v)) else mem_byte k pid' a).
    { intros pid' a. rewrite Hmem, Hk1.
      destruct (decide (bw + word_size < size)) as [Hmore|Hlast].
      - rewrite Hadd by done.
        repeat case_decide; try lia; try done. by rewrite load_shift.
      - assert (p = 0) as -> by lia.
        repeat case_decide; try lia; done. }
    split; [lia|]. split.
    { exists p. split_and!; [done|lia| |done].
      intros Hleft. destruct (Hstop ltac:(lia)) as (Hlt' & Hpre & Hnone).
      rewrite Hadd in Hpre, Hnone by lia.
      split_and!; [done| |].
      - intros i Hi. specialize (Hpre i Hi). rewrite Hk1 in Hpre.
        case_decide; [lia|].
        by replace (v + (cnt - bw) + i)
          with (v + word_size + (cnt - (bw + word_size)) + i) by lia.
      - rewrite Hk1 in Hnone. case_decide; [lia|].
        by replace (v + (cnt - bw) + p)
          with (v + word_size + (cnt - (bw + word_size)) + p) by lia. }
    intros -> j i Hj Hjs Hi.
    destruct (decide (j = 0)) as [->|Hj0].
    + rewrite Hmem'. case_decide; [done|lia].
    + pose proof (Hptr 1 ltac:(lia) ltac:(nia)).
      specialize (Hmapped eq_refl (j - 1) i ltac:(lia) ltac:(lia) Hi).
      unfold addr_add in Hmapped. rewrite Z.mod_small in Hmapped by lia.
      by replace (v + word_size + (j - 1) * word_size + i)
        with (v + j * word_size + i) in Hmapped by lia.
  - (* a trailing partial word: read, overlay, write back *)
    destruct (DoReadMemory word_size k pid v buff_init word_size error)
      as [[[n buff] error1]|] eqn:Hread; [|done].
    destruct (Z.eqb_spec n word_size) as [->|Hn]; cbn [negb] in Hrun.
    2:{ injection Hrun as <- <- <-. split; [lia|]. split; [|lia].
        exists 0. split_and!; [lia|done|lia|].
        intros pid' a. case_decide; [lia|done]. }
    apply DoReadMemory_word in Hread as (m & Hk & -> & Hlen & Hbuff);
      [|done].
    set (rem := Z.min (size - bw) word_size) in *.
    fold (memcpy buff buf src rem) in Hrun.
    set (buff' := memcpy buff buf src rem) in *.
    destruct (DoWriteMemory_loop word_size fuel k pid v buff' 0 word_size 0
                error) as [[[k1 n'] error2]|] eqn:Hnested; [|done].
    apply DoWriteMemory_loop_word_inv in Hnested.
    rewrite to_pointer_small in Hnested by done.
    destruct (poke_cases k pid v buff' 0)
      as [(e & k2 & p & Hp & _ & Hpr & _ & _ & Hnone)
         | (m' & Hk' & Hrd & Hp)]; rewrite Hp in Hnested;
      cbn [negb Z.eqb] in Hnested; injection Hnested as -> -> ->.
    { destruct (Hbuff p Hpr) as [[b Hb] _].
      unfold mem_byte in Hnone. rewrite Hk in Hnone. simpl in Hnone.
      congruence. }
    rewrite Z.eqb_refl in Hrun. cbn [negb] in Hrun.
    assert (m' = m) as -> by congruence.
    apply IH in Hrun as (Hcnt & (p & Hp0 & Hsmall & _ & Hmem) & _);
      [|lia|intros; lia].
    assert (cnt = size) as -> by lia.
    assert (p = 0) as -> by lia.
    assert (Hmem' : ∀ pid' a,
               mem_byte k' pid' a
               = if decide (pid' = pid ∧ v ≤ a < v + word_size)
                 then Some (load buff' 0 (a - v)) else mem_byte k pid' a).
    { intros pid' a. rewrite Hmem.
      rewrite (mem_byte_poke k m pid v _ pid' a Hk (length_word_at _ _)).
      repeat case_decide; try lia; try done.
      rewrite lookup_word_at by lia. done. }
    split; [lia|]. split.
    + exists 0. split_and!; [lia|done|lia|].
      intros pid' a. rewrite Hmem'.
      repeat case_decide; try lia; try done.
      * unfold buff'. rewrite load_overlay by lia.
        case_decide; [done|lia].
      * destruct H as [-> Ha].
        unfold buff'. rewrite load_overlay by lia.
        case_decide; [lia|].
        destruct (Hbuff (a - v) ltac:(lia)) as [[b Hb] Hbb].
        replace (v + (a - v)) with a in * by lia.
        unfold mem_byte. rewrite Hk. simpl. rewrite Hb.
        unfold load. rewrite Z.add_0_l, Hbb, Hb. done.
    + intros _ j i Hj Hjs Hi. assert (j = 0) as -> by nia.
      rewrite Hmem'. case_decide; [done|lia].
Qed.

Lemma DoWriteMemory_loop_total (fuel : nat) :
  ∀ (k : memories) (pid v : Z) (buf : list byte) (src size bw : Z)
    (error : Error),
  (Z.to_nat (size - bw) + 2 ≤ fuel)%nat →
  is_Some (DoWriteMemory_loop word_size fuel k pid v buf src size bw error).
Proof.
  pose proof word_size_bounds as HW.
  induction fuel as [|fuel IH]; intros k pid v buf src size bw error Hf;
    [lia|].
  cbn [DoWriteMemory_loop].
  destruct (Z.ltb_spec bw size) as [Hlt|Hge]; [|done].
  rewrite remainder_min.
  destruct (Z.eqb_spec (Z.min (size - bw) word_size) word_size)
    as [Hfull|Hpart].
  - destruct (ptrace_pokedata _ _ _ _ _) as [[k1 result] errno].
    destruct (negb (result =? 0)); [done|]. apply IH. lia.
  - destruct (DoReadMemory_total k pid v buff_init word_size error)
      as [[[n buff] error1] ->].
    destruct (negb (n =? word_size)); [done|].
    destruct fuel as [|[|fuel]]; [lia..|].
    rewrite DoWriteMemory_loop_word.
    destruct (ptrace_pokedata _ _ _ _ _) as [[k1 result] errno].
    destruct (negb (result =? 0)).
    + destruct (Z.eqb_spec 0 word_size); [lia|done].
    + rewrite Z.eqb_refl. cbn [negb DoWriteMemory_loop].
      destruct (Z.ltb_spec (bw + Z.min (size - bw) word_size) size);
        [lia|done].
Qed.

Lemma DoWriteMemory_total (k : memories) (pid v : Z) (buf : list byte)
    (size : Z) (error : Error) :
  is_Some (DoWriteMemory word_size k pid v buf size error).
Proof. apply DoWriteMemory_loop_total. lia. Qed.

Lemma load_lookup (buf : list byte) (i : nat) :
  (i < length buf)%nat → Some (load buf 0 (Z.of_nat i)) = buf !! i.
Proof.
  intros Hi. unfold load. rewrite Z.add_0_l, Nat2Z.id.
  destruct (buf !! i) eqn:E; [done|].
  apply lookup_ge_None in E. lia.
Qed.

(** The partial-word branch on its own: a transfer shorter than a word
    is one peek of the target word, the overlay of the caller's bytes
    on the bytes peeked, and one poke of the result. *)
Lemma DoWriteMemory_partial_word (k : memories) (pid A n : Z) (B : list byte)
    (error : Error) :
  0 ≤ A < 2 ^ word_bits word_size → 0 < n < word_size →
  DoWriteMemory word_size k pid A B n error
  = let '(data, errno) := ptrace_peekdata word_size k pid A in
    if negb (errno =? 0) then Some (k, 0, SetErrorToErrno errno)
    else
      let buff :=
        for_range word_size
          (λ i b, store 0 i (byte_of_Z (Z.land (data ≫ (i * 8)) 255)) b)
          buff_init in
      let buff := memcpy buff B 0 n in
      let '(k1, result, errno) :=
        ptrace_pokedata word_size k pid A (pack_word word_size buff 0) in
      if negb (result =? 0) then Some (k1, 0, SetErrorToErrno errno)
      else Some (k1, n, error).
Proof.
  pose proof word_size_bounds as HW. intros HA Hn.
  unfold DoWriteMemory.
  replace (Z.to_nat n + 2)%nat with (S (S (S (Z.to_nat n - 1)))) by lia.
  remember (Z.to_nat n - 1)%nat as f eqn:Hf. clear Hf.
  cbn [DoWriteMemory_loop].
  destruct (Z.ltb_spec 0 n); [|lia].
  rewrite remainder_min, Z.sub_0_r, Z.min_l by lia.
  destruct (Z.eqb_spec n word_size); [lia|].
  unfold DoReadMemory.
  replace (S (Z.to_nat word_size))
    with (S (S (Z.to_nat word_size - 1))) by lia.
  remember (Z.to_nat word_size - 1)%nat as g eqn:Hg. clear Hg.
  cbn [DoReadMemory_loop].
  destruct (Z.ltb_spec 0 word_size); [|lia].
  rewrite to_pointer_small by done.
  destruct (ptrace_peekdata word_size k pid A) as [data errno].
  destruct (Z.eqb_spec errno 0) as [->|He]; cbn [negb].
  2:{ destruct (Z.eqb_spec 0 word_size); [lia|done]. }
  rewrite remainder_min, Z.sub_0_r, Z.min_l by lia.
  rewrite Z.add_0_l, Z.ltb_irrefl, Z.eqb_refl. cbn [negb].
  destruct (ptrace_pokedata word_size k pid A _) as [[k1 result] errno].
  destruct (Z.eqb_spec result 0) as [->|Hr]; cbn [negb].
  2:{ destruct (Z.eqb_spec 0 word_size); [lia|done]. }
  rewrite Z.eqb_refl. cbn [negb].
  rewrite Z.add_0_l, Z.ltb_irrefl. done.
Qed.

(** C3.  A write of the [n] bytes [B] at [A] that reports all [n] bytes
    written, followed by a read of [n] bytes at [A], returns [n] and
    fills the caller's buffer with exactly [B], whatever [n] is modulo
    the word size and whether or not [A] is aligned. *)
Theorem WriteMemory_ReadMemory_roundtrip (k k' : memories) (pid A n : Z)
    (B buf : list byte) (error error' error_r : Error) :
  0 ≤ A → A + n ≤ 2 ^ word_bits word_size →
  Z.of_nat (length B) = n → length buf = length B →
  DoWriteMemory word_size k pid A B n error = Some (k', n, error') →
  DoReadMemory word_size k' pid A buf n error_r = Some (n, B, error_r).
Proof.
  pose proof word_size_bounds as HW.
  intros HA HAn HB Hbuf Hw. unfold DoWriteMemory in Hw.
  apply DoWriteMemory_loop_spec in Hw
    as (_ & (p & _ & Hp & _ & Hmem) & Hmapped); [|lia|intros; nia].
  rewrite Hp in Hmem by lia.
  specialize (Hmapped eq_refl). unfold DoReadMemory.
  destruct (decide (n = 0)) as [->|Hn].
  { destruct B; [|done]. destruct buf; done. }
  assert (∃ m', k' !! pid = Some m') as [m' Hk'].
  { specialize (Hmapped 0 0 ltac:(lia) ltac:(lia) ltac:(lia)).
    unfold mem_byte in Hmapped. destruct (k' !! pid); [by eexists|].
    by destruct Hmapped. }
  destruct (DoReadMemory_loop_ok (S (Z.to_nat n)) k' m' pid A buf 0 n 0
              error_r) as (buf' & -> & Hlen & Hlook);
    [done|lia|lia|intros; nia| |lia|].
  { intros j i Hj Hjs Hi. specialize (Hmapped j i Hj Hjs Hi).
    unfold mem_byte in Hmapped. by rewrite Hk' in Hmapped. }
  do 3 f_equal. apply list_eq. intros j. rewrite Hlook.
  case_decide as Hj.
  - specialize (Hmem pid (A + (Z.of_nat j - 0))).
    unfold mem_byte in Hmem at 1. rewrite Hk' in Hmem. simpl in Hmem.
    rewrite Hmem. case_decide; [|lia].
    replace (A + (Z.of_nat j - 0) - A) with (Z.of_nat j) by lia.
    apply load_lookup. lia.
  - rewrite !lookup_ge_None_2; [done|lia|lia].
Qed.

(** C4.  Every write, complete or not, leaves every byte of the
    inferior (and of every other tracee) outside [A, A+n) as it was,
    among them the byte before the range and the byte after it; and a
    transfer that is a partial word is one peek, the overlay of the
    requested bytes, and one poke of the word. *)
Theorem DoWriteMemory_preserves_outside (k : memories) (pid A n : Z)
    (B : list byte) (error : Error) :
  0 ≤ A → 0 ≤ n → A + n ≤ 2 ^ word_bits word_size →
  (∃ k' cnt error',
     DoWriteMemory word_size k pid A B n error = Some (k', cnt, error')
     ∧ (∀ pid' a, ¬ (pid' = pid ∧ A ≤ a < A + n) →
                  mem_byte k' pid' a = mem_byte k pid' a)
     ∧ mem_byte k' pid (A - 1) = mem_byte k pid (A - 1)
     ∧ mem_byte k' pid (A + n) = mem_byte k pid (A + n))
  ∧ (0 < n < word_size →
     DoWriteMemory word_size k pid A B n error
     = let '(data, errno) := ptrace_peekdata word_size k pid A in
       if negb (errno =? 0) then Some (k, 0, SetErrorToErrno errno)
       else
         let buff :=
           for_range word_size
             (λ i b, store 0 i (byte_of_Z (Z.land (data ≫ (i * 8)) 255)) b)
             buff_init in
         let buff := memcpy buff B 0 n in
         let '(k1, result, errno) :=
           ptrace_pokedata word_size k pid A (pack_word word_size buff 0) in
         if negb (result =? 0) then Some (k1, 0, SetErrorToErrno errno)
         else Some (k1, n, error)).
Proof.
  intros HA Hn HAn. split.
  - destruct (DoWriteMemory_total k pid A B n error)
      as [[[k' cnt] error'] Hw].
    exists k', cnt, error'. split; [done|].
    unfold DoWriteMemory in Hw.
    apply DoWriteMemory_loop_spec in Hw
      as (Hcnt & (p & Hp0 & Hsmall & Hstop & Hmem) & _); [|lia|intros; nia].
    assert (Hp : cnt + p ≤ n).
    { destruct (decide (n - cnt < word_size)) as [Hs|Hs].
      - rewrite (Hsmall Hs). lia.
      - destruct (Hstop ltac:(lia)) as [? _]. lia. }
    assert (Hframe : ∀ pid' a, ¬ (pid' = pid ∧ A ≤ a < A + n) →
                               mem_byte k' pid' a = mem_byte k pid' a).
    { intros pid' a Hout. rewrite Hmem. case_decide as Hin; [|done].
      destruct Hout. split; [tauto|lia]. }
    split; [done|]. split; apply Hframe; lia.
  - intros Hpart. apply DoWriteMemory_partial_word; lia.
Qed.

(** C7.  If the peeks of the words 0 .. kf-1 of a read succeed and the
    peek of word kf, which the read needs, fails with [e], the read
    stops there: it returns [kf * word_size], the error slot holds
    [e], the first [kf * word_size] bytes of the buffer are the bytes
    peeked and the rest of the buffer is untouched. *)
Theorem DoReadMemory_failing_peek (k : memories) (pid A size : Z)
    (buf : list byte) (error : Error) (kf e : Z) :
  0 ≤ kf → kf * word_size < size →
  (∀ j, 0 ≤ j < kf →
     (ptrace_peekdata word_size k pid
        (to_pointer word_size (A + j * word_size))).2 = 0) →
  (ptrace_peekdata word_size k pid
     (to_pointer word_size (A + kf * word_size))).2 = e →
  e ≠ 0 →
  ∃ buf',
    DoReadMemory word_size k pid A buf size error
    = Some (kf * word_size, buf', SetErrorToErrno e)
    ∧ length buf' = length buf
    ∧ ∀ j : nat,
        buf' !! j
        = if decide (Z.of_nat j < kf * word_size ∧ (j < length buf)%nat)
          then peeked_byte word_size k pid A (Z.of_nat j) else buf !! j.
Proof.
  pose proof word_size_bounds as HW.
  intros Hkf Hsz Hok Hfail He. unfold DoReadMemory.
  assert (kf < size) by nia.
  destruct (DoReadMemory_loop_fail (Z.to_nat kf) (S (Z.to_nat size)) k pid A
              buf 0 size 0 error e) as (buf' & Heq & Hlen & Hlook);
    rewrite ?Z2Nat.id by lia; try done; try lia.
  rewrite Z2Nat.id, Z.add_0_l in Heq by lia.
  exists buf'. split_and!; [done..|].
  intros j. rewrite Hlook, Z2Nat.id, Z.add_0_l, Z.sub_0_r by lia.
  repeat case_decide; try lia; done.
Qed.

(** *** How a read and a write end, whatever the tracee's memory *)

(** A word is wholly mapped exactly when the kernel can read it. *)
Lemma word_mapped (k : memories) (pid a : Z) :
  (∃ m, k !! pid = Some m ∧ is_Some (read_word word_size m a))
  ↔ ∀ i, 0 ≤ i < word_size → is_Some (mem_byte k pid (a + i)).
Proof.
  pose proof word_size_bounds as HW. unfold mem_byte. split.
  - intros (m & -> & Hrd) i Hi. simpl. by apply read_word_is_Some.
  - intros Hmap. pose proof (Hmap 0 ltac:(lia)) as H0.
    destruct (k !! pid) as [m|]; [|by destruct H0].
    exists m. split; [done|]. apply read_word_is_Some.
    intros i Hi. apply (Hmap i Hi).
Qed.


(** The read loop in general: the count returned, the part of the
    buffer it leaves alone, and why it stopped. *)
Lemma DoReadMemory_loop_outcome (fuel : nat) :
  ∀ (k : memories) (pid v : Z) (buf : list byte) (dst size br : Z)
    (error : Error) (n : Z) (buf' : list byte) (error' : Error),
  DoReadMemory_loop word_size fuel k pid v buf dst size br error
  = Some (n, buf', error') →
  0 ≤ dst → 0 ≤ br ≤ size →
  br ≤ n ≤ size
  ∧ length buf' = length buf
  ∧ (∀ j : nat, ¬ (dst ≤ Z.of_nat j < dst + (n - br)) → buf' !! j = buf !! j)
  ∧ ((n = size ∧ error' = error
      ∧ ∀ j, 0 ≤ j → br + j * word_size < size →
          (ptrace_peekdata word_size k pid
             (to_pointer word_size (v + j * word_size))).2 = 0)
     ∨ (n < size ∧ (word_size | n - br)
        ∧ ∃ e, e ≠ 0 ∧ error' = SetErrorToErrno e
          ∧ (ptrace_peekdata word_size k pid
               (to_pointer word_size (v + (n - br)))).2 = e)).
Proof.
  pose proof word_size_bounds as HW.
  induction fuel as [|fuel IH];
    intros k pid v buf dst size br error n buf' error' Hrun Hdst Hbr; [done|].
  simpl in Hrun. destruct (Z.ltb_spec br size) as [Hlt|Hge].
  2:{ injection Hrun as <- <- <-. split_and!; [lia|lia|done|done|].
      left. split_and!; [lia|done|]. intros j Hj Hjs. nia. }
  destruct (ptrace_peekdata word_size k pid (to_pointer word_size v))
    as [data errno] eqn:Hpeek.
  destruct (Z.eqb_spec errno 0) as [->|He]; simpl in Hrun.
  2:{ injection Hrun as <- <- <-. split_and!; [lia|lia|done|done|].
      right. split; [lia|]. split; [exists 0; lia|].
      exists errno. split_and!; [done|done|].
      by rewrite Z.sub_diag, Z.add_0_r, Hpeek. }
  rewrite remainder_min in Hrun.
  set (rem := Z.min (size - br) word_size) in *.
  match type of Hrun with
  | context [for_range rem ?f buf] => set (buf1 := for_range rem f buf) in *
  end.
  assert (Hlen1 : length buf1 = length buf).
  { unfold buf1. rewrite <- (Z2Nat.id rem) by lia.
    apply length_for_range_store. }
  assert (Hframe1 : ∀ j : nat,
             ¬ (dst ≤ Z.of_nat j < dst + rem) → buf1 !! j = buf !! j).
  { intros j Hj. unfold buf1. rewrite <- (Z2Nat.id rem) by lia.
    rewrite lookup_for_range_store by lia. rewrite Z2Nat.id by lia.
    case_decide; [lia|done]. }
  apply IH in Hrun as (Hn & Hlen & Hframe & Hcase); [|lia|lia].
  split; [lia|]. split; [congruence|]. split.
  { intros j Hj. rewrite Hframe, Hframe1; [done|lia|lia]. }
  destruct Hcase as [(-> & -> & Hpeeks) | (Hshort & Hdiv & e & He & -> & Hfail)].
  - left. split_and!; [done..|]. intros j Hj Hjs.
    destruct (decide (j = 0)) as [->|Hj0].
    + by rewrite Z.mul_0_l, Z.add_0_r, Hpeek.
    + specialize (Hpeeks (j - 1) ltac:(lia) ltac:(lia)).
      rewrite to_pointer_addr_add_add in Hpeeks.
      by replace (v + word_size + (j - 1) * word_size)
        with (v + j * word_size) in Hpeeks by lia.
  - right. assert (rem = word_size) as Hrem by lia.
    split; [done|]. split.
    { destruct Hdiv as [q Hq]. exists (q + 1). lia. }
    exists e. split_and!; [done..|].
    rewrite to_pointer_addr_add_add in Hfail. rewrite <- Hfail.
    do 3 f_equal. lia.
Qed.





(** Both loops see the address only through the cast to a pointer. *)
Lemma to_pointer_next (v1 v2 : Z) :
  to_pointer word_size v1 = to_pointer word_size v2 →
  to_pointer word_size (addr_add v1 word_size)
  = to_pointer word_size (addr_add v2 word_size).
Proof.
  intros Hv. rewrite !to_pointer_addr_add. unfold to_pointer in *.
  by rewrite <- (Zplus_mod_idemp_l v1), Hv, Zplus_mod_idemp_l.
Qed.

Lemma DoReadMemory_loop_pointer (fuel : nat) :
  ∀ (k : memories) (pid v1 v2 : Z) (buf : list byte) (dst size br : Z)
    (error : Error),
  to_pointer word_size v1 = to_pointer word_size v2 →
  DoReadMemory_loop word_size fuel k pid v1 buf dst size br error
  = DoReadMemory_loop word_size fuel k pid v2 buf dst size br error.
Proof.
  induction fuel as [|fuel IH]; intros k pid v1 v2 buf dst size br error Hv;
    [done|].
  simpl. rewrite Hv. destruct (br <? size); [|done].
  destruct (ptrace_peekdata word_size k pid (to_pointer word_size v2))
    as [data errno].
  destruct (negb (errno =? 0)); [done|].
  by apply IH, to_pointer_next.
Qed.

Lemma DoWriteMemory_loop_pointer (fuel : nat) :
  ∀ (k : memories) (pid v1 v2 : Z) (buf : list byte) (src size bw : Z)
    (error : Error),
  to_pointer word_size v1 = to_pointer word_size v2 →
  DoWriteMemory_loop word_size fuel k pid v1 buf src size bw error
  = DoWriteMemory_loop word_size fuel k pid v2 buf src size bw error.
Proof.
  induction fuel as [|fuel IH]; intros k pid v1 v2 buf src size bw error Hv;
    [done|].
  cbn [DoWriteMemory_loop]. rewrite Hv. destruct (bw <? size); [|done].
  destruct (_ =? word_size).
  - destruct (ptrace_pokedata _ _ _ _ _) as [[k1 result] errno].
    destruct (negb (result =? 0)); [done|].
    by apply IH, to_pointer_next.
  - unfold DoReadMemory.
    rewrite (DoReadMemory_loop_pointer _ k pid v1 v2) by done.
    destruct (DoReadMemory_loop _ _ _ _ _ _ _ _ _ _) as [[[n buff] error1]|];
      [|done].
    destruct (negb (n =? word_size)); [done|].
    rewrite (IH k pid v1 v2) by done.
    destruct (DoWriteMemory_loop _ _ _ _ v2 _ _ _ _ _)
      as [[[k1 n'] error2]|]; [|done].
    destruct (negb (n' =? word_size)); [done|].
    by apply IH, to_pointer_next.
Qed.

Lemma word_start_in_range (A size j : Z) :
  0 ≤ A → A + size ≤ 2 ^ word_bits word_size →
  0 ≤ j → j * word_size < size →
  0 ≤ A + j * word_size < 2 ^ word_bits word_size.
Proof. pose proof word_size_bounds. nia. Qed.

(** A read whose words are all mapped. *)
Lemma DoReadMemory_mapped (k : memories) (pid A size : Z) (buf : list byte)
    (error : Error) :
  0 ≤ A → 0 ≤ size → A + size ≤ 2 ^ word_bits word_size →
  (∀ j i, 0 ≤ j → j * word_size < size → 0 ≤ i < word_size →
          is_Some (mem_byte k pid (A + j * word_size + i))) →
  ∃ buf',
    DoReadMemory word_size k pid A buf size error = Some (size, buf', error)
    ∧ length buf' = length buf
    ∧ ∀ j : nat, Z.of_nat j < size → (j < length buf)%nat →
        buf' !! j = mem_byte k pid (A + Z.of_nat j).
Proof.
  pose proof word_size_bounds as HW.
  intros HA Hsize HAn Hmap. unfold DoReadMemory.
  destruct (decide (size = 0)) as [->|Hpos].
  { exists buf. split_and!; [done..|]. intros j Hj. lia. }
  pose proof (Hmap 0 0 ltac:(lia) ltac:(lia) ltac:(lia)) as H0.
  unfold mem_byte in H0. destruct (k !! pid) as [m|] eqn:Hk;
    [|by destruct H0].
  destruct (DoReadMemory_loop_ok (S (Z.to_nat size)) k m pid A buf 0 size 0
              error) as (buf' & Heq & Hlen & Hlook);
    [done|lia|lia| | |lia|].
  { intros j Hj Hjs. apply word_start_in_range with size; lia. }
  { intros j i Hj Hjs Hi. specialize (Hmap j i Hj ltac:(lia) Hi).
    unfold mem_byte in Hmap. by rewrite Hk in Hmap. }
  exists buf'. split_and!; [done..|].
  intros j Hj Hjl. rewrite Hlook. case_decide; [|lia].
  unfold mem_byte. rewrite Hk. simpl. f_equal. lia.
Qed.

(** A complete read has found every word mapped. *)
Lemma DoReadMemory_complete (k : memories) (pid A size : Z)
    (buf buf' : list byte) (error error' : Error) :
  0 ≤ A → 0 ≤ size → A + size ≤ 2 ^ word_bits word_size →
  DoReadMemory word_size k pid A buf size error = Some (size, buf', error') →
  ∀ j i, 0 ≤ j → j * word_size < size → 0 ≤ i < word_size →
         is_Some (mem_byte k pid (A + j * word_size + i)).
Proof.
  intros HA Hsize HAn Hrun j i Hj Hjs Hi. unfold DoReadMemory in Hrun.
  apply DoReadMemory_loop_outcome in Hrun
    as (_ & _ & _ & [(_ & _ & Hpeeks) | (? & _)]); [|lia|lia|lia].
  specialize (Hpeeks j Hj ltac:(lia)).
  rewrite to_pointer_small in Hpeeks
    by (apply word_start_in_range with size; lia).
  apply peek_errno in Hpeeks. by apply word_mapped.
Qed.


(** X1.  Every read returns.  The count [n] it returns is at most
    [size]; the buffer keeps its length, and its bytes from index [n] on
    are the caller's.  Either [n = size] and the error slot is as the
    caller left it, or [n] is a whole number of words below [size] and
    the error slot holds a non-zero [errno]. *)
Theorem DoReadMemory_short_or_complete (k : memories) (pid A size : Z)
    (buf : list byte) (error : Error) :
  0 ≤ size →
  ∃ n buf' error',
    DoReadMemory word_size k pid A buf size error = Some (n, buf', error')
    ∧ 0 ≤ n ≤ size
    ∧ length buf' = length buf
    ∧ (∀ j : nat, n ≤ Z.of_nat j → buf' !! j = buf !! j)
    ∧ ((n = size ∧ error' = error)
       ∨ (n < size ∧ (word_size | n)
          ∧ ∃ e, e ≠ 0 ∧ error' = SetErrorToErrno e)).
Proof.
  intros Hsize.
  destruct (DoReadMemory_total k pid A buf size error)
    as [[[n buf'] error'] Hrun].
  exists n, buf', error'. split; [done|]. unfold DoReadMemory in Hrun.
  apply DoReadMemory_loop_outcome in Hrun
    as (Hn & Hlen & Hframe & Hcase); [|lia|lia].
  split_and!; [lia|lia|done| |].
  - intros j Hj. apply Hframe. lia.
  - destruct Hcase as [(-> & -> & _) | (Hshort & Hdiv & e & He & -> & _)].
    + by left.
    + right. rewrite Z.sub_0_r in Hdiv. split_and!; [done..|]. by exists e.
Qed.

(** X2.  A read of [size] bytes at [A] is complete exactly when every
    byte of every word it peeks — the words of [word_size] bytes from
    [A] on, the last one possibly reaching beyond [A + size] — is mapped
    in the tracee; and then the buffer holds the tracee's bytes
    [A .. A + size) and the error slot is as the caller left it. *)
Theorem DoReadMemory_complete_iff_mapped (k : memories) (pid A size : Z)
    (buf : list byte) (error : Error) :
  0 ≤ A → 0 ≤ size → A + size ≤ 2 ^ word_bits word_size →
  let mapped :=
    ∀ j i, 0 ≤ j → j * word_size < size → 0 ≤ i < word_size →
           is_Some (mem_byte k pid (A + j * word_size + i)) in
  ((∃ buf' error',
      DoReadMemory word_size k pid A buf size error
      = Some (size, buf', error')) ↔ mapped)
  ∧ (mapped →
     ∃ buf',
       DoReadMemory word_size k pid A buf size error
       = Some (size, buf', error)
       ∧ length buf' = length buf
       ∧ ∀ j : nat, Z.of_nat j < size → (j < length buf)%nat →
           buf' !! j = mem_byte k pid (A + Z.of_nat j)).
Proof.
  intros HA Hsize HAn mapped. split; [split|].
  - intros (buf' & error' & Hrun).
    exact (DoReadMemory_complete _ _ _ _ _ _ _ _ HA Hsize HAn Hrun).
  - intros Hmap.
    destruct (DoReadMemory_mapped k pid A size buf error HA Hsize HAn Hmap)
      as (buf' & Hrun & _).
    by exists buf', error.
  - intros Hmap. by apply DoReadMemory_mapped.
Qed.




(** X6.  A read and a write see the address only through its cast to a
    pointer of the host: at two addresses that differ by a multiple of
    2^(8 * word_size) — on a 32-bit host, by 4 GiB — they do the same. *)
Theorem memory_access_truncates_address (k : memories) (pid A c size : Z)
    (buf : list byte) (error : Error) :
  let A' := A + c * 2 ^ word_bits word_size in
  DoReadMemory word_size k pid A' buf size error
  = DoReadMemory word_size k pid A buf size error
  ∧ DoWriteMemory word_size k pid A' buf size error
    = DoWriteMemory word_size k pid A buf size error.
Proof.
  intros A'.
  assert (Hv : to_pointer word_size A' = to_pointer word_size A).
  { pose proof pointer_range_pos as HP. unfold to_pointer, A'.
    apply Z.mod_add. lia. }
  split.
  - by apply DoReadMemory_loop_pointer.
  - by apply DoWriteMemory_loop_pointer.
Qed.

End MemoryProofs.



(** * Properties of the funnel and of the wait loop *)

Section MonitorProofs.

Variable word_size : Z.
Variable CrashReason : Type.
Variable GetCrashReason : siginfo_t → CrashReason.
Variable eResumeSignalNone : Z.
Variable LLDB_INVALID_SIGNAL_NUMBER : Z.

Local Abbreviation Monitor := (ProcessMonitor CrashReason).
Local Abbreviation DoOperation :=
  (DoOperation word_size CrashReason LLDB_INVALID_SIGNAL_NUMBER).
Local Abbreviation Resume :=
  (Resume word_size CrashReason LLDB_INVALID_SIGNAL_NUMBER).
Local Abbreviation GetSignalInfo :=
  (GetSignalInfo word_size CrashReason LLDB_INVALID_SIGNAL_NUMBER).
Local Abbreviation GetEventMessage :=
  (GetEventMessage word_size CrashReason LLDB_INVALID_SIGNAL_NUMBER).
Local Abbreviation MonitorSIGTRAP :=
  (MonitorSIGTRAP word_size CrashReason eResumeSignalNone
     LLDB_INVALID_SIGNAL_NUMBER).
Local Abbreviation MonitorSignal := (MonitorSignal CrashReason GetCrashReason).
Local Abbreviation MonitorCallback :=
  (MonitorCallback word_size CrashReason GetCrashReason eResumeSignalNone
     LLDB_INVALID_SIGNAL_NUMBER).
Local Abbreviation resume_data := (resume_data LLDB_INVALID_SIGNAL_NUMBER).
Local Abbreviation ServeOperation :=
  (ServeOperation word_size CrashReason LLDB_INVALID_SIGNAL_NUMBER).
Local Abbreviation StopOpThread :=
  (StopOpThread word_size CrashReason LLDB_INVALID_SIGNAL_NUMBER).

(** *** Single operations through the funnel *)

(** Unfolds one operation through the funnel. *)
Local Ltac run_operation Hserving :=
  unfold DoOperation, bindM, post_operation, serve_pending, wait_done, retM,
    served; simpl; rewrite Hserving;
  unfold bindM, Execute; simpl.

Lemma Resume_served (m : Monitor) (tid signo : Z) :
  operation_thread_returned _ m = false →
  Resume tid signo m
  = (Done (ptrace_cont (kernel _ m) tid (resume_data signo) =? 0),
     served _ (ResumeOperation tid signo) m).
Proof.
  intros Hserving.
  unfold Resume. run_operation Hserving.
  by destruct (ptrace_cont (kernel _ m) tid (resume_data signo) =? 0).
Qed.

Lemma GetSignalInfo_served (m : Monitor) (tid : Z) :
  operation_thread_returned _ m = false →
  GetSignalInfo tid m
  = (Done (let '(result, errno, info) := ptrace_getsiginfo (kernel _ m) tid in
           if negb (result =? 0) then (false, info, errno)
           else (true, info, indeterminate (kernel _ m))),
     served _ (SiginfoOperation tid) m).
Proof.
  intros Hserving.
  unfold GetSignalInfo. run_operation Hserving.
  destruct (ptrace_getsiginfo (kernel _ m) tid) as [[result errno] info].
  by destruct (negb (result =? 0)).
Qed.

Lemma GetEventMessage_served (m : Monitor) (tid : Z) :
  operation_thread_returned _ m = false →
  GetEventMessage tid m
  = (Done (let '(result, message) := ptrace_geteventmsg (kernel _ m) tid in
           (result =? 0, message)),
     served _ (EventMessageOperation tid) m).
Proof.
  intros Hserving.
  unfold GetEventMessage. run_operation Hserving.
  destruct (ptrace_geteventmsg (kernel _ m) tid) as [result message].
  by destruct (result =? 0).
Qed.

Lemma served_serving (op : Operation) (m : Monitor) :
  operation_thread_returned _ (served _ op m) = operation_thread_returned _ m.
Proof. reflexivity. Qed.

(** *** Teardown *)

(** C1 (what the source does where the claim applies).  The serve loop
    returns for no sequence of wake-ups; with the sentinel in the slot
    its next turn calls [Execute] through the null pointer, and so does
    [StopOpThread] on a monitor whose operation thread is serving: it
    never gets to the end of [Join].  On a monitor whose operation
    thread has returned without serving (a failed bootstrap),
    [StopOpThread] waits for a completion that nobody posts. *)
Theorem ServeOperation_has_no_exit :
  (∀ waits (m : Monitor), (ServeOperation waits m).1 ≠ Done tt)
  ∧ (∀ waits (m : Monitor),
       (ServeOperation (sem_acquired :: waits)
          (post_operation _ EXIT_OPERATION m).2).1 = NullDereference)
  ∧ (∀ m : Monitor,
       m_operation_thread_joinable _ m = true →
       operation_thread_returned _ m = false →
       (StopOpThread m).1 = NullDereference)
  ∧ (∀ m : Monitor,
       m_operation_thread_joinable _ m = true →
       operation_thread_returned _ m = true →
       m_operation_done _ m = 0%nat →
       (StopOpThread m).1 = Blocked).
Proof.
  split_and!.
  - intros waits. induction waits as [|[| |errno] waits IH]; intros m; simpl.
    + done.
    + unfold bindM.
      destruct (serve_pending _ _ _ m) as [[r| | |] m']; simpl; [apply IH|done..].
    + apply IH.
    + done.
  - intros waits m. reflexivity.
  - intros m Hjoinable Hserving. unfold StopOpThread.
    rewrite Hjoinable. simpl. unfold DoOperation, bindM. simpl.
    by rewrite Hserving.
  - intros m Hjoinable Hreturned Hdone. unfold StopOpThread.
    rewrite Hjoinable. simpl. unfold DoOperation, bindM, wait_done. simpl.
    by rewrite Hreturned, Hdone.
Qed.

(** *** The wait loop when the signal information cannot be read *)

(** The signal that [Resume] hands to PTRACE_CONT. *)
Lemma resume_data_signal (signo : Z) :
  signo ≠ LLDB_INVALID_SIGNAL_NUMBER → resume_data signo = signo.
Proof.
  intros Hsigno. unfold resume_data.
  by destruct (Z.eqb_spec signo LLDB_INVALID_SIGNAL_NUMBER).
Qed.

(** C5, as amended.  When PTRACE_GETSIGINFO for the stopped pid fails
    with EINVAL, the callback has the owner task execute
    [Resume(pid, SIGSTOP)], which hands SIGSTOP to PTRACE_CONT, after
    the failed read and nothing else, and hands the process object no
    message; if that resume succeeds the callback returns [false] (keep
    monitoring), and if it does not, the assertion of the source on the
    resume fails.  When the read fails with another errno and the pid
    is the process id, the callback sends [Exit(pid, status)] and
    returns [true]; for another pid it sends nothing and returns
    [false]. *)
Theorem MonitorCallback_siginfo_unavailable (m : Monitor)
    (pid signal status result errno : Z) (info : siginfo_t) :
  SIGSTOP ≠ LLDB_INVALID_SIGNAL_NUMBER →
  operation_thread_returned _ m = false →
  ptrace_getsiginfo (kernel _ m) pid = (result, errno, info) →
  result ≠ 0 →
  let m1 := served _ (SiginfoOperation pid) m in
  MonitorCallback pid false signal status m
  = if errno =? EINVAL then
      (if ptrace_cont (kernel _ m) pid SIGSTOP =? 0 then Done false
       else AssertionFailed,
       served _ (ResumeOperation pid SIGSTOP) m1)
    else if pid =? process_id _ m then
      (Done true,
       set_process_messages _ (process_messages _ m ++ [Exit _ pid status])
         m1)
    else (Done false, m1).
Proof.
  intros Hsigstop Hserving Hinfo Hresult m1.
  unfold MonitorCallback, bindM at 1.
  rewrite GetSignalInfo_served, Hinfo by done.
  destruct (Z.eqb_spec result 0) as [|_]; [done|]. cbn [negb].
  destruct (Z.eqb_spec errno EINVAL) as [->|Herrno].
  - unfold bindM at 1. rewrite Resume_served by done.
    change (kernel _ (served _ (SiginfoOperation pid) m)) with (kernel _ m).
    rewrite resume_data_signal by done. fold m1.
    by destruct (ptrace_cont (kernel _ m) pid SIGSTOP =? 0).
  - unfold bindM, SendMessage, retM. simpl. fold m1.
    by destruct (pid =? process_id _ m).
Qed.

(** *** Counting the messages of a wake-up *)

Lemma sends_ret {A : Type} (n : nat) (a : A) :
  sends_at_most CrashReason n (retM a).
Proof. intros m. exists []. simpl. rewrite app_nil_r. split; [done|lia]. Qed.

Lemma sends_read {A : Type} (n : nat) (f : Monitor → outcome A) :
  sends_at_most CrashReason n (λ m, (f m, m)).
Proof. intros m. exists []. simpl. rewrite app_nil_r. split; [done|lia]. Qed.

Lemma sends_assert (n : nat) (c : bool) :
  sends_at_most CrashReason n (assert c).
Proof.
  intros m. exists []. unfold assert. destruct c; simpl;
    rewrite app_nil_r; (split; [done|lia]).
Qed.

Lemma sends_SendMessage (n : nat) (message : ProcessMessage CrashReason) :
  sends_at_most CrashReason (S n) (SendMessage _ message).
Proof. intros m. exists [message]. simpl. split; [done|lia]. Qed.

Lemma sends_bind {A B : Type} (n k : nat) (c : M Monitor A)
    (f : A → M Monitor B) :
  sends_at_most CrashReason n c →
  (∀ a, sends_at_most CrashReason k (f a)) →
  sends_at_most CrashReason (n + k) (bindM c f).
Proof.
  intros Hc Hf m. unfold bindM. destruct (Hc m) as (l & Hl & Hlen).
  destruct (c m) as [[a| | |] m']; simpl in *.
  - destruct (Hf a m') as (l' & Hl' & Hlen'). exists (l ++ l').
    rewrite Hl', Hl, app_assoc, length_app. split; [done|lia].
  - exists l. split; [done|lia].
  - exists l. split; [done|lia].
  - exists l. split; [done|lia].
Qed.

Lemma sends_bind_none {A B : Type} (k : nat) (c : M Monitor A)
    (f : A → M Monitor B) :
  sends_at_most CrashReason 0 c →
  (∀ a, sends_at_most CrashReason k (f a)) →
  sends_at_most CrashReason k (bindM c f).
Proof. intros Hc Hf. by apply (sends_bind 0 k). Qed.

Lemma sends_Execute (op : Operation) :
  sends_at_most CrashReason 0
    (Execute word_size CrashReason LLDB_INVALID_SIGNAL_NUMBER op).
Proof.
  intros m. exists []. rewrite app_nil_r. split; [|done].
  destruct op; unfold Execute; simpl;
    repeat (case_match; simpl; try done).
  done.
Qed.

Lemma sends_none {A : Type} (n : nat) (c : M Monitor A) :
  (∀ m, process_messages _ (c m).2 = process_messages _ m) →
  sends_at_most CrashReason n c.
Proof.
  intros Hc m. exists []. rewrite app_nil_r, Hc. split; [done|simpl; lia].
Qed.

Lemma sends_serve_pending :
  sends_at_most CrashReason 0
    (serve_pending word_size CrashReason LLDB_INVALID_SIGNAL_NUMBER).
Proof.
  intros m. unfold serve_pending.
  destruct (m_operation_pending _ m) as [|pending].
  { exists []. simpl. by rewrite app_nil_r. }
  simpl. destruct (m_operation _ m) as [o|].
  2:{ exists []. simpl. by rewrite app_nil_r. }
  match goal with
  | |- context [bindM ?c ?f ?m1] =>
      destruct (sends_bind_none 0 c f (sends_Execute o)
                  ltac:(by intros r; apply sends_none) m1)
        as (l & Hl & Hlen)
  end.
  exists l. by rewrite Hl.
Qed.

Lemma sends_DoOperation (op : option Operation) :
  sends_at_most CrashReason 0 (DoOperation op).
Proof.
  unfold DoOperation. apply sends_bind_none; [by apply sends_none|]. intros _.
  apply sends_bind_none.
  - intros m. destruct (operation_thread_returned _ m).
    + exists []. simpl. by rewrite app_nil_r.
    + apply sends_serve_pending.
  - intros r. apply sends_bind_none; [|intros; apply sends_ret].
    apply sends_none. intros m. unfold wait_done.
    by destruct (m_operation_done _ m).
Qed.

Lemma sends_Resume (tid signo : Z) :
  sends_at_most CrashReason 0 (Resume tid signo).
Proof.
  apply sends_bind_none; [apply sends_DoOperation|intros; apply sends_ret].
Qed.

Lemma sends_GetSignalInfo (tid : Z) :
  sends_at_most CrashReason 0 (GetSignalInfo tid).
Proof.
  apply sends_bind_none; [apply sends_DoOperation|intros; apply sends_ret].
Qed.

Lemma sends_GetEventMessage (tid : Z) :
  sends_at_most CrashReason 0 (GetEventMessage tid).
Proof.
  apply sends_bind_none; [apply sends_DoOperation|intros; apply sends_ret].
Qed.

Lemma sends_MonitorSIGTRAP (info : siginfo_t) (pid : Z) :
  sends_at_most CrashReason 0 (MonitorSIGTRAP info pid).
Proof.
  unfold MonitorSIGTRAP.
  apply sends_bind_none; [apply sends_assert|]. intros _.
  repeat case_match;
    repeat first
      [ apply sends_ret | apply sends_assert
      | apply sends_bind_none; [apply sends_GetEventMessage|intros [? ?]]
      | apply sends_bind_none; [apply sends_Resume|intros ?]
      | apply sends_bind_none; [apply sends_assert|intros ?] ].
Qed.

Lemma MonitorCallback_sends_at_most_one (pid : Z) (exited : bool)
    (signal status : Z) :
  sends_at_most CrashReason 1 (MonitorCallback pid exited signal status).
Proof.
  unfold MonitorCallback. destruct exited.
  { apply (sends_bind 1 0); [apply sends_SendMessage|].
    intros _. apply sends_read. }
  apply sends_bind_none; [apply sends_GetSignalInfo|].
  intros [[ok info] ptrace_err]. destruct ok; simpl.
  - apply (sends_bind 0 1).
    + case_match; [apply sends_MonitorSIGTRAP|apply sends_read].
    + intros message. apply (sends_bind 1 0); [apply sends_SendMessage|].
      intros _. apply sends_ret.
  - case_match.
    + apply sends_bind_none; [apply sends_Resume|]. intros resumed.
      apply sends_bind_none; [|intros; apply sends_ret].
      destruct resumed; simpl; [apply sends_ret|apply sends_assert].
    + apply sends_bind_none; [apply sends_read|]. intros stop.
      apply (sends_bind 1 0); [|intros; apply sends_ret].
      destruct stop; [apply sends_SendMessage|apply sends_ret].
Qed.

(** *** System-call stops *)

(** C2, as amended.  For a wake-up whose signal information is SIGTRAP
    with [si_code] SIGTRAP or SIGTRAP|0x80, the callback has the owner
    task execute the read of the signal information and then
    [Resume(pid, eResumeSignalNone)], returns [false], and calls
    [SendMessage] once, with the default-constructed message — which is
    none of the ten message variants.  For every wake-up whatsoever the
    callback calls [SendMessage] at most once. *)
Theorem MonitorCallback_syscall_stop :
  (∀ (m : Monitor) (pid signal status errno : Z) (info : siginfo_t),
     operation_thread_returned _ m = false →
     ptrace_getsiginfo (kernel _ m) pid = (0, errno, info) →
     si_signo info = SIGTRAP →
     si_code info = SIGTRAP ∨ si_code info = Z.lor SIGTRAP 128 →
     ∃ m',
       MonitorCallback pid false signal status m = (Done false, m')
       ∧ executed _ m'
         = executed _ m
           ++ [SiginfoOperation pid; ResumeOperation pid eResumeSignalNone]
       ∧ process_messages _ m'
         = process_messages _ m ++ [ProcessMessage_default _])
  ∧ (∀ (pid : Z) (exited : bool) (signal status : Z),
       sends_at_most CrashReason 1 (MonitorCallback pid exited signal status)).
Proof.
  split; [|apply MonitorCallback_sends_at_most_one].
  intros m pid signal status errno info Hserving Hinfo Hsigno Hcode.
  exists (set_process_messages _
            (process_messages _ m ++ [ProcessMessage_default _])
            (served _ (ResumeOperation pid eResumeSignalNone)
               (served _ (SiginfoOperation pid) m))).
  split; [|by simpl; rewrite <- app_assoc].
  unfold MonitorCallback, bindM at 1.
  rewrite GetSignalInfo_served, Hinfo by done. simpl.
  rewrite Hsigno, Z.eqb_refl.
  unfold bindM at 1, MonitorSIGTRAP, bindM at 1, assert.
  rewrite Hsigno, Z.eqb_refl.
  assert (Hbranch :
            (si_code info =? SIGTRAP) || (si_code info =? Z.lor SIGTRAP 128)
            = true).
  { destruct Hcode as [-> | ->]; reflexivity. }
  destruct Hcode as [Hc | Hc]; rewrite Hc; simpl;
    unfold bindM; rewrite Resume_served by done; reflexivity.
Qed.

(** *** Signals other than SIGTRAP *)

(** C6.  For a stop whose signal information is available and whose
    signal is not SIGTRAP, the callback sends exactly one message and
    returns [false]; the message is [SignalDelivered(pid, signo)] for a
    user or tkill origin whose sender is the debugger itself, and
    [Signal(pid, signo)] for such an origin with another sender; of the
    other origins, SIGSEGV, SIGILL, SIGFPE and SIGBUS give
    [Crash(pid, GetCrashReason(info), signo, si_addr)] and every other
    signal gives [Signal(pid, signo)]. *)
Theorem MonitorCallback_signal_classification (m : Monitor)
    (pid signal status errno : Z) (info : siginfo_t) :
  operation_thread_returned _ m = false →
  ptrace_getsiginfo (kernel _ m) pid = (0, errno, info) →
  si_signo info ≠ SIGTRAP →
  let signo := si_signo info in
  let user_origin := si_code info = SI_USER ∨ si_code info = SI_TKILL in
  let fault :=
    signo = SIGSEGV ∨ signo = SIGILL ∨ signo = SIGFPE ∨ signo = SIGBUS in
  ∃ message,
    MonitorCallback pid false signal status m
    = (Done false,
       set_process_messages _ (process_messages _ m ++ [message])
         (served _ (SiginfoOperation pid) m))
    ∧ (user_origin → si_pid info = getpid (kernel _ m) →
       message = SignalDelivered _ pid signo)
    ∧ (user_origin → si_pid info ≠ getpid (kernel _ m) →
       message = Signal _ pid signo)
    ∧ (¬ user_origin → fault →
       message = Crash _ pid (GetCrashReason info) signo (si_addr info))
    ∧ (¬ user_origin → ¬ fault → message = Signal _ pid signo).
Proof.
  intros Hserving Hinfo Hsigno signo user_origin fault.
  exists (MonitorSignal m info pid). split.
  - unfold MonitorCallback, bindM at 1.
    rewrite GetSignalInfo_served, Hinfo by done. simpl.
    destruct (Z.eqb_spec (si_signo info) SIGTRAP) as [|_]; [done|].
    reflexivity.
  - unfold MonitorSignal, user_origin, fault, signo.
    destruct (Z.eqb_spec (si_code info) SI_TKILL) as [Ht|Ht];
      destruct (Z.eqb_spec (si_code info) SI_USER) as [Hu|Hu]; simpl;
      destruct (Z.eqb_spec (si_pid info) (getpid (kernel _ m))) as [Hp|Hp];
      destruct (Z.eqb_spec (si_signo info) SIGSEGV) as [Hs1|Hs1];
      destruct (Z.eqb_spec (si_signo info) SIGILL) as [Hs2|Hs2];
      destruct (Z.eqb_spec (si_signo info) SIGFPE) as [Hs3|Hs3];
      destruct (Z.eqb_spec (si_signo info) SIGBUS) as [Hs4|Hs4]; simpl;
      split_and!; intros; try done; tauto.
Qed.

(** *** Hardware debug registers *)

(** C10.  With the owner task serving, [ReadHardwareDebugInfo] and
    [WriteHardwareDebugRegs] return [true] whatever the kernel answers
    to the register-set requests: the counts read are the low bytes of
    what the buffer holds after each request, and the results of the
    requests appear nowhere. *)
Theorem hardware_debug_operations_return_true (m : Monitor) (tid : Z)
    (addr_buf cntrl_buf : list Z) (type count : Z) :
  operation_thread_returned _ m = false →
  let k := kernel _ m in
  let watch := ptrace_getregset_hwdebug k tid NT_ARM_HW_WATCH (indeterminate k) in
  let break := ptrace_getregset_hwdebug k tid NT_ARM_HW_BREAK watch.2 in
  ReadHardwareDebugInfo word_size CrashReason LLDB_INVALID_SIGNAL_NUMBER tid m
  = (Done (true, Z.land watch.2 255, Z.land break.2 255),
     served _ (ReadDBGROperation tid) m)
  ∧ WriteHardwareDebugRegs word_size CrashReason LLDB_INVALID_SIGNAL_NUMBER
      tid addr_buf cntrl_buf type count m
    = (Done true,
       served _ (WriteDBGROperation tid addr_buf cntrl_buf type count) m).
Proof.
  intros Hserving k watch break. split.
  - unfold ReadHardwareDebugInfo. run_operation Hserving.
    unfold break, watch, k.
    destruct (ptrace_getregset_hwdebug (kernel _ m) tid NT_ARM_HW_WATCH _)
      as [r1 d1]. simpl.
    by destruct (ptrace_getregset_hwdebug (kernel _ m) tid NT_ARM_HW_BREAK _)
      as [r2 d2].
  - unfold WriteHardwareDebugRegs. by run_operation Hserving.
Qed.

(** *** Launch *)

Lemma Launch_child_first_failure (args : LaunchArgs) (envp : list string)
    (sys : LaunchSyscalls) (f : LaunchFailure) :
  first_failure args envp sys f = true →
  child_exit (Launch_child args envp sys) = Some (exit_code f).
Proof.
  unfold first_failure, Launch_child. intros [Hf Hprev]%andb_true_iff.
  destruct f; simpl in *;
    rewrite ?andb_true_r, ?andb_true_iff, ?negb_true_iff in Hprev;
    destruct_and?;
    repeat match goal with
           | H : ?c = _ |- context [if ?c then _ else _] => rewrite H
           end; simpl; try done.
  by apply negb_true_iff in Hf as ->.
Qed.

Lemma child_exit_error_exit_code (f : LaunchFailure) :
  child_exit_error (wait_status (child_exits (exit_code f)))
  = ErrorGeneric (error_string f).
Proof. by destruct f. Qed.

(** *** Any operation through the funnel *)

Local Abbreviation Execute :=
  (Execute word_size CrashReason LLDB_INVALID_SIGNAL_NUMBER).

(** On a host with words of 4 or 8 bytes every [Execute] returns, and
    it changes nothing of the monitor but the tracees' memory. *)
Lemma Execute_returns (op : Operation) (m : Monitor) :
  word_size = 4 ∨ word_size = 8 →
  ∃ r t,
    Execute op m
    = (Done r, set_executed _ (executed _ m) (set_tracees t (kernel _ m)) m).
Proof.
  intros Hws. destruct m as [pi pm j rt mp tf mo pe dn ex [tr gp c1 c2 c3 c4 c5 ind]].
  destruct op; unfold Execute; simpl.
  - destruct (DoReadMemory_total word_size Hws tr mp addr buff size error)
      as [[[n buff'] error'] ->].
    by eexists _, tr.
  - destruct (DoWriteMemory_total word_size Hws tr mp addr buff size error)
      as [[[t n] error'] ->].
    by eexists _, t.
  - destruct (negb _); by eexists _, tr.
  - destruct (c2 tid) as [[result errno] info].
    destruct (negb _); by eexists _, tr.
  - destruct (c3 tid) as [result message].
    destruct (negb _); by eexists _, tr.
  - destruct (c4 tid NT_ARM_HW_WATCH ind) as [r1 d1].
    destruct (c4 tid NT_ARM_HW_BREAK d1) as [r2 d2].
    by eexists _, tr.
  - by eexists _, tr.
Qed.

Lemma Execute_frame (op : Operation) (m1 m2 : Monitor) :
  kernel _ m1 = kernel _ m2 → m_pid _ m1 = m_pid _ m2 →
  (Execute op m1).1 = (Execute op m2).1.
Proof.
  intros Hk Hp. unfold Execute. rewrite Hk, Hp.
  destruct op; repeat case_match; done.
Qed.

Lemma DoOperation_serving (op : Operation) (m : Monitor) :
  word_size = 4 ∨ word_size = 8 →
  operation_thread_returned _ m = false →
  ∃ r t,
    (Execute op m).1 = Done r
    ∧ DoOperation (Some op) m
      = (Done r,
         set_funnel _ (Some op) (m_operation_pending _ m)
           (m_operation_done _ m)
           (set_executed _ (executed _ m ++ [op])
              (set_tracees t (kernel _ m)) m)).
Proof.
  intros Hws Hserving.
  set (m0 := set_funnel _ (Some op) (m_operation_pending _ m)
               (m_operation_done _ m)
               (set_funnel _ (Some op) (S (m_operation_pending _ m))
                  (m_operation_done _ m) m)).
  destruct (Execute_returns op m0 Hws) as (r & t & Hex).
  exists r, t. split.
  { by rewrite (Execute_frame op m m0), Hex. }
  unfold DoOperation, bindM at 1, post_operation.
  unfold bindM at 1. simpl. rewrite Hserving.
  unfold serve_pending. simpl. unfold bindM at 1. fold Execute. fold m0.
  rewrite Hex. reflexivity.
Qed.

(** X7.  With the owner task serving, operations submitted one after
    the other all return; the owner task has then executed exactly
    these operations, each once and in the order of submission, both
    semaphores are back at their counts, and the process object was
    sent nothing. *)
Theorem DoOperation_sequence (ops : list Operation) (m : Monitor) :
  word_size = 4 ∨ word_size = 8 →
  operation_thread_returned _ m = false →
  ∃ m',
    foldr (λ op rest, DoOperation (Some op) ;;; rest) (retM tt) ops m
    = (Done tt, m')
    ∧ executed _ m' = executed _ m ++ ops
    ∧ m_operation_pending _ m' = m_operation_pending _ m
    ∧ m_operation_done _ m' = m_operation_done _ m
    ∧ process_messages _ m' = process_messages _ m
    ∧ operation_thread_returned _ m' = false.
Proof.
  intros Hws. revert m. induction ops as [|op ops IH]; intros m Hserving.
  { exists m. simpl. by rewrite app_nil_r. }
  destruct (DoOperation_serving op m Hws Hserving) as (r & t & _ & Hop).
  simpl. unfold bindM at 1. rewrite Hop.
  match goal with
  | |- context [foldr _ _ ops ?m1] =>
      destruct (IH m1 Hserving) as (m' & Hrun & Hex & Hp & Hd & Hmsg & Hret)
  end.
  exists m'. split; [done|]. simpl in *.
  rewrite Hex, <- app_assoc. done.
Qed.

(** *** Memory through the funnel *)

Local Abbreviation ReadMemory :=
  (ReadMemory word_size CrashReason LLDB_INVALID_SIGNAL_NUMBER).
Local Abbreviation WriteMemory :=
  (WriteMemory word_size CrashReason LLDB_INVALID_SIGNAL_NUMBER).

Lemma WriteMemory_served (m : Monitor) (A n : Z) (B : list byte)
    (error : Error) (t : gmap Z (gmap Z byte)) (cnt : Z) (error' : Error) :
  operation_thread_returned _ m = false →
  DoWriteMemory word_size (tracees (kernel _ m)) (m_pid _ m) A B n error
  = Some (t, cnt, error') →
  WriteMemory A B n error m
  = (Done (cnt, B, error'),
     set_funnel _ (Some (WriteOperation A B n error))
       (m_operation_pending _ m) (m_operation_done _ m)
       (set_executed _ (executed _ m ++ [WriteOperation A B n error])
          (set_tracees t (kernel _ m)) m)).
Proof.
  intros Hserving Hw. unfold WriteMemory. run_operation Hserving.
  by rewrite Hw.
Qed.

Lemma ReadMemory_served (m : Monitor) (A n : Z) (buf : list byte)
    (error : Error) (cnt : Z) (buf' : list byte) (error' : Error) :
  operation_thread_returned _ m = false →
  DoReadMemory word_size (tracees (kernel _ m)) (m_pid _ m) A buf n error
  = Some (cnt, buf', error') →
  ReadMemory A buf n error m
  = (Done (cnt, buf', error'), served _ (ReadOperation A buf n error) m).
Proof.
  intros Hserving Hr. unfold ReadMemory. run_operation Hserving.
  by rewrite Hr.
Qed.

(** X8.  Through the funnel, with the owner task serving: after
    [WriteMemory] of the [n] bytes [B] at [A] has returned [n], a
    [ReadMemory] of [n] bytes at [A] returns [n] and [B]; the owner task
    has executed the write and then the read, and the read has left the
    kernel as the write left it. *)
Theorem WriteMemory_then_ReadMemory (m m1 : Monitor) (A n : Z)
    (B B' buf : list byte) (error error' error_r : Error) :
  word_size = 4 ∨ word_size = 8 →
  operation_thread_returned _ m = false →
  0 ≤ A → A + n ≤ 2 ^ word_bits word_size →
  Z.of_nat (length B) = n → length buf = length B →
  WriteMemory A B n error m = (Done (n, B', error'), m1) →
  ∃ m2,
    ReadMemory A buf n error_r m1 = (Done (n, B, error_r), m2)
    ∧ executed _ m2
      = executed _ m
        ++ [WriteOperation A B n error; ReadOperation A buf n error_r]
    ∧ kernel _ m2 = kernel _ m1.
Proof.
  intros Hws Hserving HA HAn HB Hbuf Hwrite.
  destruct (DoWriteMemory_total word_size Hws (tracees (kernel _ m))
              (m_pid _ m) A B n error) as [[[t cnt] e] Hw].
  rewrite (WriteMemory_served m A n B error t cnt e Hserving Hw) in Hwrite.
  injection Hwrite as -> _ _ <-.
  assert (Hptr : ∀ j, 0 ≤ j → 0 + j * word_size < n →
                      0 ≤ A + j * word_size < 2 ^ word_bits word_size).
  { intros j Hj Hjs. apply (word_start_in_range word_size Hws A n); lia. }
  pose proof Hw as Hspec. unfold DoWriteMemory in Hspec.
  apply (DoWriteMemory_loop_spec word_size Hws) in Hspec
    as (_ & (p & _ & Hp & _ & Hmem) & Hmapped); [|lia|done].
  rewrite Hp in Hmem by lia.
  specialize (Hmapped eq_refl).
  destruct (DoReadMemory_mapped word_size Hws t (m_pid _ m) A n buf error_r)
    as (buf' & Hread & Hlen & Hbytes); [lia..| |].
  { intros j i Hj Hjs Hi. apply Hmapped; lia. }
  assert (buf' = B) as ->.
  { apply list_eq. intros j.
    destruct (decide (j < length B)%nat) as [Hj|Hj].
    - rewrite Hbytes, Hmem by lia. case_decide; [|lia].
      replace (A + Z.of_nat j - A) with (Z.of_nat j) by lia.
      by apply load_lookup.
    - rewrite !lookup_ge_None_2; [done|lia|lia]. }
  eexists. split.
  { apply ReadMemory_served; [done|]. exact Hread. }
  split; [|done]. simpl. by rewrite <- app_assoc.
Qed.

(** *** The SIGTRAP stops *)

(** The callback at a SIGTRAP stop whose signal information was read,
    up to the switch on [si_code]. *)
Lemma MonitorCallback_SIGTRAP (m : Monitor) (pid signal status errno : Z)
    (info : siginfo_t) :
  operation_thread_returned _ m = false →
  ptrace_getsiginfo (kernel _ m) pid = (0, errno, info) →
  si_signo info = SIGTRAP →
  MonitorCallback pid false signal status m
  = (let* message := MonitorSIGTRAP info pid in
     SendMessage _ message ;;; retM false)
      (served _ (SiginfoOperation pid) m).
Proof.
  intros Hserving Hinfo Hsigno.
  unfold MonitorCallback, bindM at 1.
  rewrite GetSignalInfo_served, Hinfo by done. simpl.
  by rewrite Hsigno, Z.eqb_refl.
Qed.

(** X9.  A SIGTRAP stop whose [si_code] is 0 or TRAP_TRACE is reported
    as [Trace], SI_KERNEL or TRAP_BRKPT as [Break], TRAP_HWBKPT as
    [Watch] with the address of the signal information, and the exec
    event as [Exec]: the callback sends this one message, has the owner
    task execute nothing but the read of the signal information, and
    returns [false]. *)
Theorem MonitorCallback_trap_events (m : Monitor)
    (pid signal status errno : Z) (info : siginfo_t) :
  operation_thread_returned _ m = false →
  ptrace_getsiginfo (kernel _ m) pid = (0, errno, info) →
  si_signo info = SIGTRAP →
  let sends message :=
    MonitorCallback pid false signal status m
    = (Done false,
       set_process_messages _ (process_messages _ m ++ [message])
         (served _ (SiginfoOperation pid) m)) in
  (si_code info = 0 ∨ si_code info = TRAP_TRACE → sends (Trace _ pid))
  ∧ (si_code info = SI_KERNEL ∨ si_code info = TRAP_BRKPT →
     sends (Break _ pid))
  ∧ (si_code info = TRAP_HWBKPT → sends (Watch _ pid (si_addr info)))
  ∧ (si_code info = Z.lor SIGTRAP (PTRACE_EVENT_EXEC ≪ 8) →
     sends (Exec _ pid)).
Proof.
  intros Hserving Hinfo Hsigno sends. unfold sends.
  rewrite (MonitorCallback_SIGTRAP m pid signal status errno info) by done.
  unfold bindM at 1, MonitorSIGTRAP, bindM at 1, assert.
  rewrite Hsigno, Z.eqb_refl.
  split_and!.
  - by intros [-> | ->].
  - by intros [-> | ->].
  - by intros ->.
  - by intros ->.
Qed.

(** X10.  At a clone event the callback asks the kernel for the event
    message and sends [NewThread] with it as the thread id; at an exit
    event it sends [Limbo] whose status is the event message shifted
    right by eight bits and converted to [int].  Where the kernel
    refuses the event message, the value used is [(unsigned long)-1],
    which makes the status -1 on a 64-bit host and 16777215 on a 32-bit
    host.  The owner task executes the read of the signal information
    and then the read of the event message, and the callback returns
    [false]. *)
Theorem MonitorCallback_event_message (m : Monitor)
    (pid signal status errno : Z) (info : siginfo_t) :
  operation_thread_returned _ m = false →
  ptrace_getsiginfo (kernel _ m) pid = (0, errno, info) →
  si_signo info = SIGTRAP →
  let answer := ptrace_geteventmsg (kernel _ m) pid in
  let value := if answer.1 =? 0 then answer.2 else ULONG_MAX word_size in
  let sends message :=
    MonitorCallback pid false signal status m
    = (Done false,
       set_process_messages _ (process_messages _ m ++ [message])
         (served _ (EventMessageOperation pid)
            (served _ (SiginfoOperation pid) m))) in
  (si_code info = Z.lor SIGTRAP (PTRACE_EVENT_CLONE ≪ 8) →
   sends (NewThread _ pid value))
  ∧ (si_code info = Z.lor SIGTRAP (PTRACE_EVENT_EXIT ≪ 8) →
     sends (Limbo _ pid (to_int (value ≫ 8))))
  ∧ - 2 ^ 31 ≤ to_int (value ≫ 8) < 2 ^ 31
  ∧ (answer.1 ≠ 0 →
     (word_size = 8 → to_int (value ≫ 8) = -1)
     ∧ (word_size = 4 → to_int (value ≫ 8) = 16777215)).
Proof.
  intros Hserving Hinfo Hsigno answer value sends. unfold sends.
  rewrite (MonitorCallback_SIGTRAP m pid signal status errno info) by done.
  unfold bindM at 1, MonitorSIGTRAP, bindM at 1, assert.
  rewrite Hsigno, Z.eqb_refl.
  split_and!.
  1,2: intros ->; simpl; unfold bindM; cbv beta;
    rewrite GetEventMessage_served by done;
    change (kernel _ (served _ (SiginfoOperation pid) m)) with (kernel _ m);
    unfold value, answer;
    destruct (ptrace_geteventmsg (kernel _ m) pid) as [result message];
    simpl; by destruct (result =? 0).
  - unfold to_int. pose proof (Z.mod_pos_bound (value ≫ 8) (2 ^ 32)).
    case_match; lia.
  - unfold to_int. pose proof (Z.mod_pos_bound (value ≫ 8) (2 ^ 32)).
    case_match; lia.
  - intros Hrefused. unfold value.
    destruct (Z.eqb_spec answer.1 0) as [|_]; [done|].
    split; intros ->; reflexivity.
Qed.

(** X11.  A SIGTRAP stop whose [si_code] is none of the ten codes of
    the switch runs into [assert(false)]: the callback does not return,
    the process object is sent nothing, and the owner task has executed
    nothing but the read of the signal information — the tracee is not
    resumed. *)
Theorem MonitorCallback_unexpected_trap_code (m : Monitor)
    (pid signal status errno : Z) (info : siginfo_t) :
  operation_thread_returned _ m = false →
  ptrace_getsiginfo (kernel _ m) pid = (0, errno, info) →
  si_signo info = SIGTRAP →
  si_code info ∉ [Z.lor SIGTRAP (PTRACE_EVENT_CLONE ≪ 8);
                  Z.lor SIGTRAP (PTRACE_EVENT_EXEC ≪ 8);
                  Z.lor SIGTRAP (PTRACE_EVENT_EXIT ≪ 8);
                  0; TRAP_TRACE; SI_KERNEL; TRAP_BRKPT; TRAP_HWBKPT;
                  SIGTRAP; Z.lor SIGTRAP 128] →
  MonitorCallback pid false signal status m
  = (AssertionFailed, served _ (SiginfoOperation pid) m).
Proof.
  intros Hserving Hinfo Hsigno Hcode.
  rewrite (MonitorCallback_SIGTRAP m pid signal status errno info) by done.
  unfold bindM at 1, MonitorSIGTRAP, bindM at 1, assert.
  rewrite Hsigno, Z.eqb_refl.
  repeat (apply not_elem_of_cons in Hcode as [? Hcode]).
  repeat match goal with
         | |- context [?a =? ?b] =>
             destruct (Z.eqb_spec a b) as [|_]; [done|]
         end.
  reflexivity.
Qed.

(** The funnel touches neither the process's id nor its messages. *)
Lemma DoOperation_process (op : option Operation) (m : Monitor) :
  process_id _ (DoOperation op m).2 = process_id _ m
  ∧ process_messages _ (DoOperation op m).2 = process_messages _ m.
Proof.
  unfold DoOperation, post_operation, serve_pending, wait_done, retM, Execute.
  repeat (first [progress unfold bindM in * | case_match];
          simplify_eq/=; try done).
Qed.

Lemma GetSignalInfo_process (tid : Z) (m : Monitor) :
  process_id _ (GetSignalInfo tid m).2 = process_id _ m
  ∧ process_messages _ (GetSignalInfo tid m).2 = process_messages _ m.
Proof.
  pose proof (DoOperation_process (Some (SiginfoOperation tid)) m) as H.
  unfold GetSignalInfo, bindM, retM.
  by destruct (DoOperation _ m) as [[r| | |] m1].
Qed.

(** X12.  The callback tells the wait loop to stop only for the
    process's own pid, and only after sending [Exit] for it as the last
    message; for an exit notification it needs no operation of the
    owner task: it sends [Exit] and returns whether the pid is the
    process's. *)
Theorem MonitorCallback_stops_monitoring :
  (∀ (m m' : Monitor) (pid : Z) (exited : bool) (signal status : Z),
     MonitorCallback pid exited signal status m = (Done true, m') →
     pid = process_id _ m
     ∧ process_messages _ m' = process_messages _ m ++ [Exit _ pid status])
  ∧ (∀ (m : Monitor) (pid signal status : Z),
       MonitorCallback pid true signal status m
       = (Done (pid =? process_id _ m),
          set_process_messages _ (process_messages _ m ++ [Exit _ pid status])
            m)).
Proof.
  split; [|reflexivity].
  intros m m' pid exited signal status. unfold MonitorCallback.
  destruct exited.
  { unfold bindM, SendMessage. simpl. intros [= Hpid <-].
    by apply Z.eqb_eq in Hpid. }
  unfold bindM at 1.
  pose proof (GetSignalInfo_process pid m) as [Hid Hmsg].
  destruct (GetSignalInfo pid m) as [[[[ok info] err]| | |] m1]; try done.
  simpl in Hid, Hmsg. destruct ok; simpl.
  - unfold bindM at 1.
    match goal with
    | |- context [let (o, s') := ?c m1 in _] =>
        destruct (c m1) as [[message| | |] m2]; try done
    end.
  - destruct (err =? EINVAL).
    + unfold bindM at 1.
      destruct (Resume pid SIGSTOP m1) as [[resumed| | |] m2]; try done.
      by destruct resumed.
    + unfold bindM, retM, SendMessage. simpl.
      destruct (Z.eqb_spec pid (process_id _ m1)) as [Hpid|Hpid]; simpl;
        intros [= <-]. split; [congruence|]. simpl. by rewrite Hmsg.
Qed.

(** *** What [Launch] leaves behind *)

Lemma WIFEXITED_child_exits (code : Z) :
  WIFEXITED (wait_status (child_exits code)) = true.
Proof.
  unfold WIFEXITED, wait_status. simpl. apply Z.eqb_eq.
  change 127 with (Z.ones 7). rewrite Z.land_ones by lia.
  rewrite Z.shiftl_mul_pow2 by lia.
  change (2 ^ 8) with (2 * 2 ^ 7). rewrite Z.mul_assoc. apply Z.mod_mul. lia.
Qed.

Lemma WIFEXITED_wait_status (run : ChildRun) :
  WIFEXITED (wait_status run) = bool_decide (is_Some (child_exit run)).
Proof.
  destruct run as [call [code|]].
  - rewrite bool_decide_true by (by eexists).
    apply (WIFEXITED_child_exits code).
  - rewrite bool_decide_false by (by intros [? ?]). reflexivity.
Qed.

Lemma Success_child_exit_error (status : Z) :
  Success (child_exit_error status) = false.
Proof. unfold child_exit_error. by repeat case_match. Qed.

(** The child that gets through all its steps. *)
Lemma Launch_child_executes (args : LaunchArgs) (envp : list string)
    (sys : LaunchSyscalls) :
  child_exit (Launch_child args envp sys) = None
  ↔ ∀ f, step_fails args envp sys f = false.
Proof.
  unfold Launch_child. split.
  - intros Hrun f.
    destruct f; unfold step_fails;
      repeat (case_match; simplify_eq/=; try done).
  - intros Hok.
    pose proof (Hok TraceMeFails) as H1. pose proof (Hok SetGidFails) as H2.
    pose proof (Hok DupStdinFails) as H3.
    pose proof (Hok DupStdoutFails) as H4.
    pose proof (Hok DupStderrFails) as H5. pose proof (Hok ChdirFails) as H6.
    pose proof (Hok ExecFails) as H7.
    unfold step_fails in H1, H2, H3, H4, H5, H6, H7.
    rewrite H1, H2, H3, H4, H5, H6. simpl.
    apply negb_false_iff in H7. by rewrite H7.
Qed.

Lemma Launch_child_execve (args : LaunchArgs) (envp : list string)
    (sys : LaunchSyscalls) :
  child_exit (Launch_child args envp sys) = None →
  child_execve (Launch_child args envp sys)
  = Some (hd EmptyString (m_argv args), m_argv args, envp).
Proof.
  unfold Launch_child. repeat (case_match; simplify_eq/=; try done).
Qed.

(** C9.  When [envp] is null or its first entry is null, [Launch] in
    the parent of a successful fork runs the child with [environ] as
    its environment: whatever the system calls answer ([waitpid]
    failing, or reporting the child), [Launch] returns having run the
    child that was given [environ]; every [execve] this child calls
    carries [environ]; and the child does call [execve], with the
    program, [argv] and [environ], when no earlier step of it fails. *)
Theorem Launch_propagates_environ (args : LaunchArgs) (sys : LaunchSyscalls)
    (m : Monitor) :
  m_envp args = None ∨ m_envp args = Some [] →
  0 < sys_fork sys →
  (sys_waitpid sys).1 < 0 ∨ (sys_waitpid sys).1 = sys_fork sys →
  let run := Launch_child args (environ sys) sys in
  let call := (hd EmptyString (m_argv args), m_argv args, environ sys) in
  (∃ r e m', Launch CrashReason args sys m = (Done (r, e, Some run), m'))
  ∧ (∀ c, child_execve run = Some c → c = call)
  ∧ ((∀ f, f ∈ steps_before ExecFails →
           step_fails args (environ sys) sys f = false) →
     child_execve run = Some call).
Proof.
  intros Henvp Hfork Hwait run call.
  assert (Hprop : propagate_environment (m_envp args) (environ sys)
                  = environ sys).
  { by destruct Henvp as [-> | ->]. }
  split_and!.
  - unfold Launch. rewrite Hprop. fold run.
    destruct (Z.eqb_spec (sys_fork sys) (-1)) as [|_]; [lia|].
    destruct (sys_waitpid sys) as [raw_pid errno]. simpl in Hwait.
    destruct (Z.ltb_spec raw_pid 0) as [Hraw|Hraw]; [by eexists _, _, _|].
    destruct Hwait as [Hneg| ->]; [lia|].
    rewrite WIFEXITED_wait_status.
    case_bool_decide as Hexit; [by eexists _, _, _|].
    assert (Hnone : child_exit run = None).
    { destruct (child_exit run) as [code|]; [|done].
      destruct Hexit. by eexists. }
    unfold wait_status. rewrite Hnone, Z.eqb_refl.
    unfold bindM at 1, assert. simpl (WIFSTOPPED _ && true). cbv iota beta.
    destruct (SetDefaultPtraceOpts sys); cbn [negb]; [|by eexists _, _, _].
    unfold bindM at 1.
    destruct (EnsureFDFlags sys O_NONBLOCK ErrorSuccess) as [ok err].
    destruct ok; cbn [negb]; [|by eexists _, _, _].
    unfold bindM, SendMessage, retM. by eexists _, _, _.
  - intros c. unfold run, Launch_child.
    repeat case_match; simpl; try done; by intros [= <-].
  - intros Hok. unfold run, Launch_child.
    pose proof (Hok TraceMeFails ltac:(repeat constructor)) as H1.
    pose proof (Hok SetGidFails ltac:(repeat constructor)) as H2.
    pose proof (Hok DupStdinFails ltac:(repeat constructor)) as H3.
    pose proof (Hok DupStdoutFails ltac:(repeat constructor)) as H4.
    pose proof (Hok DupStderrFails ltac:(repeat constructor)) as H5.
    pose proof (Hok ChdirFails ltac:(repeat constructor)) as H6.
    unfold step_fails in H1, H2, H3, H4, H5, H6.
    by rewrite H1, H2, H3, H4, H5, H6.
Qed.

(** X13.  Whenever [Launch] returns, what it returns is whether the
    error it leaves is a success, and it has sent the process object
    [Trace] for the forked pid if it returns [true] and nothing
    otherwise; no operation goes through the funnel.  (In the parent
    [fork] does not return 0.)  It returns [true]
    only if the child got through all its steps and through [execve],
    called with [argv[0]], [argv] and the environment chosen, and
    [waitpid] reported the forked pid; the monitor then holds this pid
    and the master side of the terminal. *)
Theorem Launch_result (args : LaunchArgs) (sys : LaunchSyscalls)
    (m m' : Monitor) (ok : bool) (err : Error) (run : option ChildRun) :
  sys_fork sys ≠ 0 →
  Launch CrashReason args sys m = (Done (ok, err, run), m') →
  let envp := propagate_environment (m_envp args) (environ sys) in
  ok = Success err
  ∧ process_messages _ m'
    = process_messages _ m ++ (if ok then [Trace _ (sys_fork sys)] else [])
  ∧ executed _ m' = executed _ m
  ∧ (ok = true →
     m_pid _ m' = sys_fork sys ∧ m_terminal_fd _ m' = master_fd sys
     ∧ (sys_waitpid sys).1 = sys_fork sys
     ∧ (∀ f, step_fails args envp sys f = false)
     ∧ run = Some {| child_execve :=
                       Some (hd EmptyString (m_argv args), m_argv args, envp);
                     child_exit := None |}).
Proof.
  intros _ Hrun envp. unfold Launch in Hrun. fold envp in Hrun.
  destruct (Z.eqb_spec (sys_fork sys) (-1)) as [Hfork|Hfork].
  { injection Hrun as <- <- <- <-. by rewrite app_nil_r. }
  destruct (sys_waitpid sys) as [raw_pid errno] eqn:Hwait.
  destruct (Z.ltb_spec raw_pid 0) as [Hraw|Hraw].
  { injection Hrun as <- <- <- <-. by rewrite app_nil_r. }
  rewrite WIFEXITED_wait_status in Hrun.
  case_bool_decide as Hexit.
  { unfold retM in Hrun. injection Hrun as <- <- <- <-.
    rewrite Success_child_exit_error, app_nil_r. done. }
  assert (Hnone : child_exit (Launch_child args envp sys) = None).
  { destruct (child_exit _) as [code|]; [|done]. destruct Hexit. by eexists. }
  unfold bindM at 1, assert in Hrun.
  destruct (WIFSTOPPED _ && (raw_pid =? sys_fork sys)) eqn:Hsync; [|done].
  apply andb_true_iff in Hsync as [_ Hpid%Z.eqb_eq].
  destruct (SetDefaultPtraceOpts sys).
  2:{ injection Hrun as <- <- <- <-. by rewrite app_nil_r. }
  cbn [negb] in Hrun. unfold bindM at 1 in Hrun.
  destruct (EnsureFDFlags sys O_NONBLOCK ErrorSuccess) as [fd_ok fd_err]
    eqn:Hfd.
  assert (Hfd_err : fd_ok = Success fd_err).
  { unfold EnsureFDFlags in Hfd. repeat case_match; by simplify_eq/=. }
  destruct fd_ok; cbn [negb] in Hrun.
  2:{ injection Hrun as <- <- <- <-. rewrite <- Hfd_err. simpl.
      by rewrite app_nil_r. }
  unfold bindM, SendMessage, retM in Hrun.
  injection Hrun as <- <- <- <-. rewrite <- Hfd_err. simpl.
  split_and!; try done. intros _.
  pose proof (proj1 (Launch_child_executes args envp sys) Hnone) as Hsteps.
  split_and!; try done.
  f_equal. pose proof (Launch_child_execve args envp sys Hnone) as Hcall.
  destruct (Launch_child args envp sys) as [call code].
  simpl in *. by subst.
Qed.

(** X14.  When the fork succeeds, no step of the child fails, [waitpid]
    reports the forked pid, the trace options are accepted and the
    terminal is made non-blocking, [Launch] returns [true] with no
    error: the monitor holds the pid and the terminal, and the process
    object is sent [Trace] for the pid, once. *)
Theorem Launch_succeeds (args : LaunchArgs) (sys : LaunchSyscalls)
    (m : Monitor) :
  let envp := propagate_environment (m_envp args) (environ sys) in
  0 < sys_fork sys →
  (∀ f, step_fails args envp sys f = false) →
  (sys_waitpid sys).1 = sys_fork sys →
  0 ≤ (sys_ptrace_setoptions sys).1 →
  (sys_fcntl_getfl sys).1 ≠ -1 →
  (sys_fcntl_setfl sys (Z.lor (sys_fcntl_getfl sys).1 O_NONBLOCK)).1 ≠ -1 →
  Launch CrashReason args sys m
  = (Done (true, ErrorSuccess, Some (Launch_child args envp sys)),
     set_process_messages _
       (process_messages _ m ++ [Trace _ (sys_fork sys)])
       (set_pid_terminal _ (sys_fork sys) (master_fd sys) m)).
Proof.
  intros envp Hfork Hsteps Hwait Hopts Hget Hset.
  apply Launch_child_executes in Hsteps.
  unfold Launch. fold envp.
  destruct (Z.eqb_spec (sys_fork sys) (-1)) as [|_]; [lia|].
  destruct (sys_waitpid sys) as [raw_pid errno]. simpl in Hwait. subst raw_pid.
  destruct (Z.ltb_spec (sys_fork sys) 0) as [|_]; [lia|].
  rewrite WIFEXITED_wait_status, bool_decide_false
    by (rewrite Hsteps; by intros [? ?]).
  unfold wait_status. rewrite Hsteps, Z.eqb_refl. simpl.
  unfold bindM at 1, assert, SetDefaultPtraceOpts.
  destruct (Z.leb_spec 0 (sys_ptrace_setoptions sys).1) as [_|]; [|lia].
  cbn [negb]. unfold bindM at 1, EnsureFDFlags.
  destruct (sys_fcntl_getfl sys) as [status e0]. simpl in Hget, Hset.
  destruct (Z.eqb_spec status (-1)) as [|_]; [done|].
  destruct (sys_fcntl_setfl sys (Z.lor status O_NONBLOCK)) as [r e].
  simpl in Hset. destruct (Z.eqb_spec r (-1)) as [|_]; [done|].
  reflexivity.
Qed.

(** X15.  When everything up to the trace options succeeds and the
    terminal cannot be made non-blocking, [Launch] returns [false] with
    the [errno] of the failing [fcntl], yet the monitor already holds
    the pid of the child and the terminal; the process object is sent
    nothing. *)
Theorem Launch_fails_after_storing_pid (args : LaunchArgs)
    (sys : LaunchSyscalls) (m : Monitor) (e : Z) :
  let envp := propagate_environment (m_envp args) (environ sys) in
  0 < sys_fork sys →
  (∀ f, step_fails args envp sys f = false) →
  (sys_waitpid sys).1 = sys_fork sys →
  0 ≤ (sys_ptrace_setoptions sys).1 →
  (sys_fcntl_getfl sys = (-1, e)
   ∨ (sys_fcntl_getfl sys).1 ≠ -1
     ∧ sys_fcntl_setfl sys (Z.lor (sys_fcntl_getfl sys).1 O_NONBLOCK)
       = (-1, e)) →
  Launch CrashReason args sys m
  = (Done (false, SetErrorToErrno e, Some (Launch_child args envp sys)),
     set_pid_terminal _ (sys_fork sys) (master_fd sys) m).
Proof.
  intros envp Hfork Hsteps Hwait Hopts Hfcntl.
  apply Launch_child_executes in Hsteps.
  unfold Launch. fold envp.
  destruct (Z.eqb_spec (sys_fork sys) (-1)) as [|_]; [lia|].
  destruct (sys_waitpid sys) as [raw_pid errno]. simpl in Hwait. subst raw_pid.
  destruct (Z.ltb_spec (sys_fork sys) 0) as [|_]; [lia|].
  rewrite WIFEXITED_wait_status, bool_decide_false
    by (rewrite Hsteps; by intros [? ?]).
  unfold wait_status. rewrite Hsteps, Z.eqb_refl. simpl.
  unfold bindM at 1, assert, SetDefaultPtraceOpts.
  destruct (Z.leb_spec 0 (sys_ptrace_setoptions sys).1) as [_|]; [|lia].
  cbn [negb]. unfold bindM at 1, EnsureFDFlags.
  destruct Hfcntl as [-> | [Hget Hset]]; [reflexivity|].
  destruct (sys_fcntl_getfl sys) as [st e0]. simpl in Hget, Hset.
  destruct (Z.eqb_spec st (-1)) as [|_]; [done|].
  rewrite Hset. reflexivity.
Qed.

(** *** Construction and teardown *)

Variable LLDB_INVALID_PROCESS_ID : Z.

Local Abbreviation ProcessMonitor_launch :=
  (ProcessMonitor_launch word_size CrashReason LLDB_INVALID_SIGNAL_NUMBER
     LLDB_INVALID_PROCESS_ID).
Local Abbreviation StopMonitor :=
  (StopMonitor word_size CrashReason LLDB_INVALID_SIGNAL_NUMBER).
Local Abbreviation initialise := (initialise CrashReason LLDB_INVALID_PROCESS_ID).

(** What [Launch] returns is whether its error is a success. *)
Lemma Launch_ok (args : LaunchArgs) (sys : LaunchSyscalls) (m m' : Monitor)
    (ok : bool) (err : Error) (run : option ChildRun) :
  Launch CrashReason args sys m = (Done (ok, err, run), m') →
  ok = Success err.
Proof.
  unfold Launch, bindM, retM, assert, SendMessage.
  repeat (case_match; simplify_eq/=; try done); by intros [= <- <- _ _].
Qed.

(** [Launch] touches neither the operation thread nor the funnel. *)
Lemma Launch_frame (args : LaunchArgs) (sys : LaunchSyscalls) (m : Monitor) :
  let m' := (Launch CrashReason args sys m).2 in
  m_operation_thread_joinable _ m' = m_operation_thread_joinable _ m
  ∧ operation_thread_returned _ m' = operation_thread_returned _ m
  ∧ m_operation_done _ m' = m_operation_done _ m
  ∧ m_operation_pending _ m' = m_operation_pending _ m.
Proof.
  unfold Launch, bindM, retM, assert, SendMessage.
  repeat (case_match; simplify_eq/=; try done).
Qed.

Lemma wait_again_acquired (n : nat) (rest : list sem_wait_return)
    (semaphore : nat) (m : Monitor) :
  wait_again _ (replicate n sem_EINTR ++ sem_acquired :: rest) (S semaphore) m
  = (Done None, m).
Proof. induction n as [|n IH]; [reflexivity|exact IH]. Qed.

(** Teardown of a monitor whose operation thread was started. *)
Lemma StopOpThread_started (m : Monitor) :
  m_operation_thread_joinable _ m = true →
  operation_thread_returned _ m = false
  ∨ m_operation_done _ m = 0%nat →
  ∃ m',
    StopOpThread m = (if operation_thread_returned _ m then Blocked
                      else NullDereference, m')
    ∧ m_terminal_fd _ m' = m_terminal_fd _ m.
Proof.
  intros Hjoinable Hstate. unfold StopOpThread. rewrite Hjoinable. simpl.
  unfold DoOperation, bindM, post_operation, serve_pending, wait_done. simpl.
  destruct (operation_thread_returned _ m) eqn:Hreturned.
  - destruct Hstate as [|Hdone]; [done|]. rewrite Hdone. by eexists.
  - by eexists.
Qed.

(** X16.  When the operation thread is started and [Launch] on it
    fails, the launching constructor does not return: after the wait
    for the thread it calls [StopOpThread], which posts the sentinel
    and then waits for a completion that the thread, having returned,
    never posts.  The error of the launch does not reach the caller. *)
Theorem ProcessMonitor_launch_failure_blocks (args : LaunchArgs)
    (sys : LaunchSyscalls) (thread_error error : Error) (n : nat)
    (rest : list sem_wait_return) (monitor_thread_joinable : bool)
    (m m1 : Monitor) (err : Error) (run : option ChildRun) :
  Success thread_error = true →
  Launch CrashReason args sys
    (set_operation_thread _ true false (initialise m).2)
  = (Done (false, err, run), m1) →
  (ProcessMonitor_launch args sys thread_error
     (replicate n sem_EINTR ++ sem_acquired :: rest)
     monitor_thread_joinable error m).1
  = Blocked.
Proof.
  intros Hthread Hlaunch.
  pose proof (Launch_frame args sys
                (set_operation_thread _ true false (initialise m).2))
    as (Hj & _ & Hd & _).
  rewrite Hlaunch in Hj, Hd. simpl in Hj, Hd.
  pose proof (Launch_ok args sys _ _ _ _ _ Hlaunch) as Herr.
  symmetry in Herr.
  unfold ProcessMonitor_launch, bindM at 1.
  change (initialise m) with (Done tt, (initialise m).2).
  unfold bindM at 1, StartLaunchOpThread.
  change (m_operation_thread_joinable _ (initialise m).2) with false.
  cbv iota. rewrite Hthread.
  unfold bindM at 1, LaunchOpThread, bindM at 1. rewrite Hlaunch.
  cbn [negb]. unfold retM at 1. rewrite Hthread.
  cbv beta iota delta [negb default from_option id].
  unfold bindM at 1. rewrite wait_again_acquired. rewrite Herr. cbn [negb].
  unfold bindM at 1.
  match goal with
  | |- context [StopOpThread ?m2] =>
      destruct (StopOpThread_started m2) as (m' & -> & _);
      [exact Hj|right; exact Hd|]
  end.
  reflexivity.
Qed.

(** C8 (what the source does where the claim applies).  The seven
    steps of the child that can fail have seven different exit codes,
    all between 1 and 7, and seven different error strings.  Whichever
    step is the first to fail, the child exits with the code of that
    step, and [Launch] in the parent — if the fork and the wait succeed
    — returns [false] with the generic error whose string is the one of
    that step, sends no message and leaves the monitor as it was.  The
    construction does not fail, though: the constructor, once the
    operation thread has handed over, calls [StopOpThread] and does not
    return, so that the error never reaches the caller. *)
Theorem Launch_child_failure_reported :
  (∀ f, 1 ≤ exit_code f ≤ 7)
  ∧ (∀ f g, exit_code f = exit_code g → f = g)
  ∧ (∀ f g, error_string f = error_string g → f = g)
  ∧ (∀ args envp sys f,
       first_failure args envp sys f = true →
       child_exit (Launch_child args envp sys) = Some (exit_code f))
  ∧ (∀ args sys (m : Monitor) f,
       let envp := propagate_environment (m_envp args) (environ sys) in
       first_failure args envp sys f = true →
       sys_fork sys ≠ -1 →
       0 ≤ (sys_waitpid sys).1 →
       Launch CrashReason args sys m
       = (Done (false, ErrorGeneric (error_string f),
                Some (Launch_child args envp sys)), m))
  ∧ (∀ args sys thread_error error n rest monitor_thread_joinable
       (m : Monitor) f,
       let envp := propagate_environment (m_envp args) (environ sys) in
       first_failure args envp sys f = true →
       sys_fork sys ≠ -1 →
       0 ≤ (sys_waitpid sys).1 →
       Success thread_error = true →
       (ProcessMonitor_launch args sys thread_error
          (replicate n sem_EINTR ++ sem_acquired :: rest)
          monitor_thread_joinable error m).1
       = Blocked).
Proof.
  assert (Hlaunch : ∀ args sys (m : Monitor) f,
            let envp := propagate_environment (m_envp args) (environ sys) in
            first_failure args envp sys f = true →
            sys_fork sys ≠ -1 →
            0 ≤ (sys_waitpid sys).1 →
            Launch CrashReason args sys m
            = (Done (false, ErrorGeneric (error_string f),
                     Some (Launch_child args envp sys)), m)).
  { intros args sys m f envp Hfirst Hfork Hwait.
    pose proof (Launch_child_first_failure _ _ _ _ Hfirst) as Hexit.
    unfold Launch. fold envp.
    destruct (Z.eqb_spec (sys_fork sys) (-1)) as [|_]; [done|].
    destruct (sys_waitpid sys) as [raw_pid errno]. simpl in Hwait.
    destruct (Z.ltb_spec raw_pid 0) as [|_]; [lia|].
    assert (Hstatus : wait_status (Launch_child args envp sys)
                      = wait_status (child_exits (exit_code f))).
    { unfold wait_status. by rewrite Hexit. }
    rewrite Hstatus, child_exit_error_exit_code.
    by destruct f. }
  split_and!.
  - intros f. destruct f; unfold exit_code; cbv; split; discriminate.
  - intros f g. destruct f, g; simpl; try done; discriminate.
  - intros f g. destruct f, g; simpl; try done; discriminate.
  - apply Launch_child_first_failure.
  - exact Hlaunch.
  - intros args sys thread_error error n rest monitor_thread_joinable m f
      envp Hfirst Hfork Hwait Hthread.
    specialize (Hlaunch args sys
                  (set_operation_thread _ true false (initialise m).2) f
                  Hfirst Hfork Hwait).
    unfold ProcessMonitor_launch, bindM at 1.
    change (initialise m) with (Done tt, (initialise m).2).
    unfold bindM at 1, StartLaunchOpThread.
    change (m_operation_thread_joinable _ (initialise m).2) with false.
    cbv iota. rewrite Hthread.
    unfold bindM at 1, LaunchOpThread, bindM at 1. rewrite Hlaunch.
    cbn [negb]. unfold retM at 1. rewrite Hthread.
    cbv beta iota delta [negb default from_option id].
    unfold bindM at 1. rewrite wait_again_acquired. cbn [Success negb].
    unfold bindM at 1.
    match goal with
    | |- context [StopOpThread ?m2] =>
        destruct (StopOpThread_started m2) as (m' & -> & _);
        [reflexivity|right; reflexivity|]
    end.
    reflexivity.
Qed.

(** X17.  When the operation thread is started and [Launch] on it
    succeeds, the launching constructor returns with the operation
    thread serving.  If the thread that watches the child is started
    too, the caller's error is the success of the thread launch; if it
    is not, the error is the generic "Process launch failed." — and the
    operation thread still serves and the child stays traced. *)
Theorem ProcessMonitor_launch_success (args : LaunchArgs)
    (sys : LaunchSyscalls) (thread_error error : Error) (n : nat)
    (rest : list sem_wait_return) (monitor_thread_joinable : bool)
    (m m1 : Monitor) (err : Error) (run : option ChildRun) :
  Success thread_error = true →
  Launch CrashReason args sys
    (set_operation_thread _ true false (initialise m).2)
  = (Done (true, err, run), m1) →
  ProcessMonitor_launch args sys thread_error
    (replicate n sem_EINTR ++ sem_acquired :: rest)
    monitor_thread_joinable error m
  = (Done (if monitor_thread_joinable then (thread_error, true)
           else (ErrorGeneric "Process launch failed.", false)), m1)
  ∧ m_operation_thread_joinable _ m1 = true
  ∧ operation_thread_returned _ m1 = false.
Proof.
  intros Hthread Hlaunch.
  pose proof (Launch_frame args sys
                (set_operation_thread _ true false (initialise m).2))
    as (Hj & Hr & _ & _).
  rewrite Hlaunch in Hj, Hr. simpl in Hj, Hr.
  pose proof (Launch_ok args sys _ _ _ _ _ Hlaunch) as Herr.
  symmetry in Herr.
  split; [|done].
  unfold ProcessMonitor_launch, bindM at 1.
  change (initialise m) with (Done tt, (initialise m).2).
  unfold bindM at 1, StartLaunchOpThread.
  change (m_operation_thread_joinable _ (initialise m).2) with false.
  cbv iota. rewrite Hthread.
  unfold bindM at 1, LaunchOpThread, bindM at 1. rewrite Hlaunch.
  cbn [negb]. unfold retM at 1 2. rewrite Hthread.
  cbv beta iota delta [negb default from_option id].
  unfold bindM at 1. rewrite wait_again_acquired. rewrite Herr.
  by destruct monitor_thread_joinable.
Qed.

(** X18.  [StopMonitor] on a monitor whose operation thread was never
    started returns: it closes the terminal if the monitor holds one,
    forgets it, and a second [StopMonitor] closes nothing.  On a
    monitor whose operation thread was started — whether it serves or
    has returned without a completion pending — [StopMonitor] does not
    return, and the terminal is not closed. *)
Theorem StopMonitor_terminal (m : Monitor)
    (monitor_thread_joinable monitor_thread_ends : bool) :
  (m_operation_thread_joinable _ m = false →
   monitor_thread_joinable = false ∨ monitor_thread_ends = true →
   ∃ m',
     StopMonitor monitor_thread_joinable monitor_thread_ends m
     = (Done (if 0 <=? m_terminal_fd _ m then [m_terminal_fd _ m] else []),
        m')
     ∧ m_terminal_fd _ m' < 0
     ∧ StopMonitor monitor_thread_joinable monitor_thread_ends m'
       = (Done [], m'))
  ∧ (m_operation_thread_joinable _ m = true →
     operation_thread_returned _ m = false ∨ m_operation_done _ m = 0%nat →
     ∃ o m',
       StopMonitor monitor_thread_joinable monitor_thread_ends m = (o, m')
       ∧ (o = Blocked ∨ o = NullDereference)
       ∧ m_terminal_fd _ m' = m_terminal_fd _ m).
Proof.
  split.
  - intros Hjoinable Hthread.
    assert (Hstop : ∀ m0 : Monitor,
               StopMonitoringChildProcess _ monitor_thread_joinable
                 monitor_thread_ends m0 = (Done tt, m0)).
    { intros m0. unfold StopMonitoringChildProcess.
      by destruct Hthread as [-> | ->]; [|destruct monitor_thread_joinable]. }
    unfold StopMonitor, bindM at 1. rewrite Hstop.
    unfold bindM at 1, StopOpThread. rewrite Hjoinable. cbn [negb].
    destruct (Z.leb_spec 0 (m_terminal_fd _ m)) as [Hfd|Hfd].
    + eexists. split; [reflexivity|]. split; [simpl; lia|].
      unfold bindM at 1. rewrite Hstop. unfold bindM at 1. simpl.
      by rewrite Hjoinable.
    + eexists. split; [reflexivity|]. split; [lia|].
      unfold bindM at 1. rewrite Hstop. unfold bindM at 1.
      rewrite Hjoinable. cbn [negb].
      destruct (Z.leb_spec 0 (m_terminal_fd _ m)) as [|_]; [lia|done].
  - intros Hjoinable Hstate.
    destruct (StopOpThread_started m Hjoinable Hstate) as (m' & Hstop & Hfd).
    unfold StopMonitor, bindM at 1, StopMonitoringChildProcess.
    destruct monitor_thread_joinable, monitor_thread_ends;
      try (unfold bindM at 1; rewrite Hstop;
           exists (if operation_thread_returned _ m then Blocked
                   else NullDereference), m';
           by destruct (operation_thread_returned _ m); auto).
    exists Blocked, m. auto.
Qed.

(** *** Stopping a thread *)

Local Abbreviation Tracing := (Monitor * list ThreadCall)%type.
Local Abbreviation StopThread_loop :=
  (StopThread_loop word_size CrashReason GetCrashReason eResumeSignalNone
     LLDB_INVALID_SIGNAL_NUMBER).
Local Abbreviation StopThread :=
  (StopThread word_size CrashReason GetCrashReason eResumeSignalNone
     LLDB_INVALID_SIGNAL_NUMBER).
Local Abbreviation WaitForInitialTIDStop :=
  (WaitForInitialTIDStop word_size CrashReason LLDB_INVALID_SIGNAL_NUMBER).

Lemma bind_SendMessage {A : Type} (message : ProcessMessage CrashReason)
    (k : unit → M Tracing A) (s : Tracing) :
  bindM (on_monitor _ (SendMessage _ message)) k s
  = k tt (set_process_messages _ (process_messages _ s.1 ++ [message]) s.1,
          s.2).
Proof. reflexivity. Qed.

Lemma bind_thread_call {A : Type} (c : ThreadCall) (k : unit → M Tracing A)
    (s : Tracing) :
  bindM (thread_call _ c) k s = k tt (s.1, s.2 ++ [c]).
Proof. reflexivity. Qed.

Lemma bind_assert {St A : Type} (c : bool) (k : unit → M St A) (s : St) :
  bindM (assert c) k s = if c then k tt s else (AssertionFailed, s).
Proof. unfold bindM, assert. by destruct c. Qed.

Lemma bind_on_monitor {A B : Type} (c : M Monitor A) (k : A → M Tracing B)
    (s : Tracing) (a : A) (m1 : Monitor) :
  c s.1 = (Done a, m1) →
  bindM (on_monitor _ c) k s = k a (m1, s.2).
Proof. intros Hc. unfold bindM, on_monitor. by rewrite Hc. Qed.

(** One step of a run that is known to end in [Done true]. *)
Local Ltac run_step Hrun :=
  first
    [ rewrite bind_SendMessage in Hrun
    | rewrite bind_thread_call in Hrun
    | rewrite bind_assert in Hrun
    | match type of Hrun with
      | (if ?c then _ else _) _ = _ => destruct c eqn:?
      | (if ?c then _ else _) = _ => destruct c eqn:?
      | (match GetKind _ ?message with _ => _ end) _ = _ =>
          destruct message; cbn [GetKind] in Hrun
      | (let '(_, _) := ?p in _) _ = _ => destruct p
      | bindM ?c _ ?s = _ =>
          unfold bindM at 1 in Hrun;
          destruct (c s) as [[?| | |] ?] eqn:?; try discriminate Hrun
      end ];
  cbv beta in Hrun; try discriminate Hrun.

Lemma StopThread_loop_true (tid : Z) (events : list wait_event) :
  ∀ s s' : Tracing,
  StopThread_loop tid events s = (Done true, s') →
  (∃ ev, ev ∈ events ∧ ev_pid ev = tid)
  ∧ ((∃ message,
        last (process_messages _ s'.1) = Some message
        ∧ (GetKind _ message = eExitMessage
           ∨ GetKind _ message = eLimboMessage))
     ∨ last s'.2 = Some (SetState_eStateStopped tid)).
Proof.
  induction events as [|ev events IH]; intros s s' Hrun; [done|].
  assert (Hrec : ∀ s1 : Tracing,
             StopThread_loop tid events s1 = (Done true, s') →
             (∃ ev0, ev0 ∈ ev :: events ∧ ev_pid ev0 = tid)
             ∧ ((∃ message,
                   last (process_messages _ s'.1) = Some message
                   ∧ (GetKind _ message = eExitMessage
                      ∨ GetKind _ message = eLimboMessage))
                ∨ last s'.2 = Some (SetState_eStateStopped tid))).
  { intros s1 H1. destruct (IH _ _ H1) as [(ev0 & Hin & Hpid) Hlast].
    split; [|done]. exists ev0. split; [by right|done]. }
  clear IH. cbn [StopThread_loop] in Hrun.
  repeat first [ by eapply Hrec | run_step Hrun ].
  all: injection Hrun as <-;
    repeat match goal with
           | H : _ && _ = true |- _ => apply andb_true_iff in H as [? ?]
           end;
    match goal with
    | H : (ev_pid ?e =? _) = true |- _ =>
        apply Z.eqb_eq in H; (split; [exists e; split; [left|done]|])
    end;
    simpl; rewrite last_snoc.
  - left. eexists. split; [done|]. by left.
  - left. eexists. split; [done|]. by left.
  - left. eexists. split; [done|]. by right.
  - right. by subst.
Qed.

(** X19.  [StopThread(tid)] returns [true] only if [tgkill] did not
    fail and one of the wake-ups was for [tid] itself; and what it did
    last was to send an exit or limbo message or to set the state of the
    thread [tid] to stopped. *)
Theorem StopThread_true_only_for_tid (tid ret : Z) (events : list wait_event)
    (s s' : Tracing) :
  StopThread tid ret events s = (Done true, s') →
  0 ≤ ret
  ∧ (∃ ev, ev ∈ events ∧ ev_pid ev = tid)
  ∧ ((∃ message,
        last (process_messages _ s'.1) = Some message
        ∧ (GetKind _ message = eExitMessage
           ∨ GetKind _ message = eLimboMessage))
     ∨ last s'.2 = Some (SetState_eStateStopped tid)).
Proof.
  unfold StopThread. destruct (Z.ltb_spec ret 0) as [|Hret]; [done|].
  intros Hrun. split; [done|]. by eapply StopThread_loop_true.
Qed.

(** X20.  A system-call stop seen by [StopThread] for a thread the
    process knows is absorbed: the owner task reads the signal
    information and resumes the thread with no signal, no message is
    sent, no thread is touched, and [StopThread] waits for the next
    wake-up.  For a thread the process does not know, the assertion on
    the kind of the message fails. *)
Theorem StopThread_syscall_stop (tid : Z) (ev : wait_event)
    (events : list wait_event) (m : Monitor) (calls : list ThreadCall)
    (errno : Z) (info : siginfo_t) :
  operation_thread_returned _ m = false →
  ev_pid ev ≠ -1 → WIFEXITED (ev_status ev) = false →
  ptrace_getsiginfo (kernel _ m) (ev_pid ev) = (0, errno, info) →
  si_signo info = SIGTRAP →
  si_code info = SIGTRAP ∨ si_code info = Z.lor SIGTRAP 128 →
  let m' := served _ (ResumeOperation (ev_pid ev) eResumeSignalNone)
              (served _ (SiginfoOperation (ev_pid ev)) m) in
  StopThread_loop tid (ev :: events) (m, calls)
  = if ev_thread ev then StopThread_loop tid events (m', calls)
    else (AssertionFailed, (m', calls)).
Proof.
  intros Hserving Hpid Hexited Hinfo Hsigno Hcode m'.
  cbn [StopThread_loop].
  destruct (Z.eqb_spec (ev_pid ev) (-1)) as [|_]; [done|].
  rewrite Hexited. unfold bindM at 1, on_monitor at 1. cbn [fst snd].
  rewrite GetSignalInfo_served, Hinfo by done. simpl.
  rewrite Hsigno, Z.eqb_refl.
  unfold bindM at 1, on_monitor at 1. cbn [fst snd].
  unfold MonitorSIGTRAP, bindM at 1, assert at 1.
  rewrite Hsigno, Z.eqb_refl.
  assert (Hstop :
            (si_code info =? SIGTRAP) || (si_code info =? Z.lor SIGTRAP 128)
            = true).
  { destruct Hcode as [-> | ->]; reflexivity. }
  destruct Hcode as [Hc | Hc]; rewrite Hc; simpl;
    unfold bindM at 1; rewrite Resume_served by done; simpl;
    rewrite bind_assert; by destruct (ev_thread ev).
Qed.

(** X21.  When [StopThread] cannot read the signal information of a
    stopped thread: with an [errno] other than EINVAL it gives up and
    returns [false].  With EINVAL (a group-stop) it asserts that the
    thread was stopped by SIGSTOP, has the thread resumed with SIGSTOP
    handed to PTRACE_CONT, asserts that the resume succeeded, and waits
    for the next wake-up; where one of the two assertions fails, the
    loop ends there.  In no case is a message sent or a thread
    touched. *)
Theorem StopThread_siginfo_unavailable (tid : Z) (ev : wait_event)
    (events : list wait_event) (m : Monitor) (calls : list ThreadCall)
    (result errno : Z) (info : siginfo_t) :
  SIGSTOP ≠ LLDB_INVALID_SIGNAL_NUMBER →
  operation_thread_returned _ m = false →
  ev_pid ev ≠ -1 → WIFEXITED (ev_status ev) = false →
  ptrace_getsiginfo (kernel _ m) (ev_pid ev) = (result, errno, info) →
  result ≠ 0 →
  let m1 := served _ (SiginfoOperation (ev_pid ev)) m in
  let m2 := served _ (ResumeOperation (ev_pid ev) SIGSTOP) m1 in
  StopThread_loop tid (ev :: events) (m, calls)
  = if errno =? EINVAL then
      if WIFSTOPPED (ev_status ev) && (WSTOPSIG (ev_status ev) =? SIGSTOP)
      then
        if ptrace_cont (kernel _ m) (ev_pid ev) SIGSTOP =? 0
        then StopThread_loop tid events (m2, calls)
        else (AssertionFailed, (m2, calls))
      else (AssertionFailed, (m1, calls))
    else (Done false, (m1, calls)).
Proof.
  intros Hsigstop Hserving Hpid Hexited Hinfo Hresult m1 m2.
  cbn [StopThread_loop].
  destruct (Z.eqb_spec (ev_pid ev) (-1)) as [|_]; [done|].
  rewrite Hexited.
  erewrite bind_on_monitor by (by apply GetSignalInfo_served).
  cbn [fst snd]. rewrite Hinfo. destruct (Z.eqb_spec result 0) as [|_]; [done|].
  cbn [negb]. fold m1.
  destruct (Z.eqb_spec errno EINVAL) as [->|Herrno]; [|done].
  rewrite bind_assert.
  destruct (WIFSTOPPED (ev_status ev) && (WSTOPSIG (ev_status ev) =? SIGSTOP));
    [|done].
  erewrite bind_on_monitor by (by apply Resume_served).
  cbn [fst snd].
  change (kernel _ m1) with (kernel _ m).
  rewrite resume_data_signal by done. fold m2.
  by destruct (ptrace_cont (kernel _ m) (ev_pid ev) SIGSTOP =? 0).
Qed.

(** X22.  A SIGSTOP that the debugger has not sent itself, seen by
    [StopThread(tid)] for a thread [w] the process knows, is not
    reported: no message is sent; [AddThreadForInitialStopIfNeeded] is
    called with the awaited [tid], the state of the thread [w] is set to
    stopped, and [StopThread] waits for the next wake-up. *)
Theorem StopThread_foreign_SIGSTOP (tid : Z) (ev : wait_event)
    (events : list wait_event) (m : Monitor) (calls : list ThreadCall)
    (errno : Z) (info : siginfo_t) :
  operation_thread_returned _ m = false →
  ev_pid ev ≠ -1 → WIFEXITED (ev_status ev) = false →
  ptrace_getsiginfo (kernel _ m) (ev_pid ev) = (0, errno, info) →
  si_signo info = SIGSTOP →
  ¬ ((si_code info = SI_TKILL ∨ si_code info = SI_USER)
     ∧ si_pid info = getpid (kernel _ m)) →
  ev_thread ev = true → WSTOPSIG (ev_status ev) = SIGSTOP →
  StopThread_loop tid (ev :: events) (m, calls)
  = StopThread_loop tid events
      (served _ (SiginfoOperation (ev_pid ev)) m,
       calls ++ [AddThreadForInitialStopIfNeeded tid;
                 SetState_eStateStopped (ev_pid ev)]).
Proof.
  intros Hserving Hpid Hexited Hinfo Hsigno Hforeign Hthread Hsig.
  cbn [StopThread_loop].
  destruct (Z.eqb_spec (ev_pid ev) (-1)) as [|_]; [done|].
  rewrite Hexited.
  erewrite bind_on_monitor by (by apply GetSignalInfo_served).
  cbn [fst snd]. rewrite Hinfo. cbn [Z.eqb negb]. rewrite Hsigno.
  change (SIGSTOP =? SIGTRAP) with false. cbv iota.
  erewrite bind_on_monitor by reflexivity. cbn [fst snd].
  assert (Hmessage :
            MonitorSignal (served _ (SiginfoOperation (ev_pid ev)) m) info
              (ev_pid ev)
            = Signal _ (ev_pid ev) SIGSTOP).
  { unfold MonitorSignal. rewrite Hsigno. simpl.
    destruct (Z.eqb_spec (si_code info) SI_TKILL) as [Ht|Ht];
      destruct (Z.eqb_spec (si_code info) SI_USER) as [Hu|Hu]; simpl;
      try done;
      (destruct (Z.eqb_spec (si_pid info) (getpid (kernel _ m))) as [Hp|Hp];
       [|done]); destruct Hforeign; auto. }
  rewrite Hmessage. rewrite bind_assert, Hthread. simpl.
  rewrite Hsig. simpl.
  unfold bindM, thread_call. simpl. by rewrite <- app_assoc.
Qed.

(** X23.  When [WaitForInitialTIDStop(tid)] returns [true], it has
    either sent [Exit] for [tid] and nothing else, or sent nothing and
    called [AddThreadForInitialStopIfNeeded(tid)]; no other thread was
    touched. *)
Theorem WaitForInitialTIDStop_returns_true (tid : Z)
    (events : list wait_event) (s s' : Tracing) :
  WaitForInitialTIDStop tid events s = (Done true, s') →
  (∃ status,
     process_messages _ s'.1
     = process_messages _ s.1 ++ [Exit _ tid status]
     ∧ s'.2 = s.2)
  ∨ (process_messages _ s'.1 = process_messages _ s.1
     ∧ s'.2 = s.2 ++ [AddThreadForInitialStopIfNeeded tid]).
Proof.
  revert s s'.
  induction events as [|ev events IH]; intros s s' Hrun; [done|].
  cbn [WaitForInitialTIDStop] in Hrun.
  destruct (ev_status ev =? -1).
  { destruct (ev_errno ev =? EINTR); [by apply IH|done]. }
  rewrite bind_assert in Hrun.
  destruct (Z.eqb_spec (ev_pid ev) tid) as [Hpid|]; [|done].
  unfold bindM at 1, on_monitor at 1 in Hrun.
  pose proof (GetSignalInfo_process (ev_pid ev) s.1) as [_ Hmsg].
  destruct (GetSignalInfo (ev_pid ev) s.1) as [[[[ok info] err]| | |] m1];
    try done.
  simpl in Hmsg. destruct ok; [|done]. cbn [negb] in Hrun.
  destruct (WIFEXITED (ev_status ev)).
  - rewrite bind_SendMessage in Hrun. injection Hrun as <-.
    left. eexists. simpl. rewrite Hmsg, Hpid. done.
  - rewrite !bind_assert in Hrun.
    destruct (si_code info =? SI_USER); [|done].
    destruct (WSTOPSIG (ev_status ev) =? SIGSTOP); [|done].
    rewrite bind_thread_call in Hrun. injection Hrun as <-.
    right. simpl. by rewrite Hmsg, Hpid.
Qed.

(** X24.  [WaitForInitialTIDStop] reads the signal information before
    it looks at the exit status: when the awaited thread has exited and
    its signal information cannot be read, the function returns [false]
    and the exit is not reported to the process object. *)
Theorem WaitForInitialTIDStop_unreported_exit (tid : Z) (ev : wait_event)
    (events : list wait_event) (m : Monitor) (calls : list ThreadCall)
    (result errno : Z) (info : siginfo_t) :
  operation_thread_returned _ m = false →
  ev_pid ev = tid → ev_status ev ≠ -1 → WIFEXITED (ev_status ev) = true →
  ptrace_getsiginfo (kernel _ m) tid = (result, errno, info) →
  result ≠ 0 →
  WaitForInitialTIDStop tid (ev :: events) (m, calls)
  = (Done false, (served _ (SiginfoOperation tid) m, calls)).
Proof.
  intros Hserving Hpid Hstatus Hexited Hinfo Hresult.
  cbn [WaitForInitialTIDStop].
  destruct (Z.eqb_spec (ev_status ev) (-1)) as [|_]; [done|].
  rewrite bind_assert, Hpid, Z.eqb_refl.
  erewrite bind_on_monitor by (by apply GetSignalInfo_served).
  cbn [fst snd]. rewrite Hinfo. by destruct (Z.eqb_spec result 0).
Qed.

End MonitorProofs.

(** * Properties of attaching *)

Section AttachProofs.

Variable word_size : Z.
Variable CrashReason : Type.
Variable LLDB_INVALID_SIGNAL_NUMBER : Z.
Variable LLDB_INVALID_PROCESS_ID : Z.

Local Abbreviation ProcessMonitor_attach :=
  (ProcessMonitor_attach word_size CrashReason LLDB_INVALID_SIGNAL_NUMBER
     LLDB_INVALID_PROCESS_ID).
Local Abbreviation initialise :=
  (initialise CrashReason LLDB_INVALID_PROCESS_ID).

Lemma thread_attached_not_vanished (sys : AttachSyscalls) (tid : Z) :
  thread_attached sys tid = true → thread_vanished sys tid = false.
Proof.
  unfold thread_attached, thread_vanished.
  destruct (att_ptrace_attach sys tid) as [r e],
    (att_waitpid sys tid) as [w e'],
    (att_ptrace_setoptions sys tid) as [o e'']; simpl.
  intros H. apply andb_true_iff in H as [H _].
  apply andb_true_iff in H as [H1 H2].
  apply Z.leb_le in H1, H2.
  destruct (Z.ltb_spec r 0); [lia|].
  destruct (Z.ltb_spec w 0); [lia|]. done.
Qed.

Lemma TidMap_insert_spec (tid : Z) (tids tids' : TidMap) (inserted : bool) :
  StronglySorted Z.lt tids.*1 →
  TidMap_insert tid tids = (tids', inserted) →
  StronglySorted Z.lt tids'.*1
  ∧ (∀ e, e ∈ tids' ↔ (inserted = true ∧ e = (tid, false)) ∨ e ∈ tids)
  ∧ (inserted = true → tid ∉ tids.*1)
  ∧ (inserted = false → tids' = tids)
  ∧ tid ∈ tids'.*1.
Proof.
  revert tids' inserted.
  induction tids as [|[t a] rest IH]; intros tids' inserted Hsorted Hrun;
    simpl in Hrun.
  - simplify_eq. split_and!.
    + repeat constructor.
    + intros e. rewrite list_elem_of_singleton. split.
      * intros ->. by left.
      * intros [[_ ->]|H]; [done|by apply elem_of_nil in H].
    + by intros _ ?%elem_of_nil.
    + done.
    + simpl. by left.
  - apply StronglySorted_cons in Hsorted as [Hlt Hrest]. simpl in Hlt.
    destruct (Z.ltb_spec tid t).
    { simplify_eq. split_and!.
      - simpl. apply StronglySorted_cons.
        split; [|by apply StronglySorted_cons].
        constructor; [done|]. eapply Forall_impl; [done|]. simpl. lia.
      - intros e. rewrite elem_of_cons. split.
        + intros [->|?]; [by left|by right].
        + intros [[_ ->]|?]; [by left|by right].
      - intros _. simpl. rewrite elem_of_cons. intros [?|Hin]; [lia|].
        rewrite Forall_forall in Hlt. apply Hlt in Hin. lia.
      - done.
      - simpl. by left. }
    destruct (Z.eqb_spec tid t).
    { simplify_eq. split_and!.
      - simpl. by apply StronglySorted_cons.
      - intros e. split; [by right|by intros [[? _]|?]].
      - done.
      - done.
      - simpl. by left. }
    destruct (TidMap_insert tid rest) as [rest' ins] eqn:Hins.
    simplify_eq.
    destruct (IH _ _ Hrest eq_refl) as (Hs & Hmem & Hnew & Hsame & Hin).
    split_and!.
    + simpl. apply StronglySorted_cons. split; [|done].
      apply Forall_forall. intros k Hk.
      apply list_elem_of_fmap in Hk as ([k' b] & -> & Hk). simpl.
      apply Hmem in Hk as [[_ ?]|Hk]; [simplify_eq; lia|].
      rewrite Forall_forall in Hlt. apply Hlt.
      apply list_elem_of_fmap. by exists (k', b).
    + intros e. rewrite !elem_of_cons, Hmem. tauto.
    + intros Hi. simpl. rewrite elem_of_cons. intros [?|?]; [lia|].
      by apply Hnew.
    + intros Hi. by rewrite Hsame.
    + simpl. by right.
Qed.

Lemma FindProcessThreads_fold (listing : list Z) (found0 found : bool)
    (tids0 tids' : TidMap) :
  StronglySorted Z.lt tids0.*1 →
  foldl (λ found tid,
           let '(tids, inserted) := TidMap_insert tid found.2 in
           (found.1 || inserted, tids))
        (found0, tids0) listing = (found, tids') →
  StronglySorted Z.lt tids'.*1
  ∧ (∀ e, e ∈ tids0 → e ∈ tids')
  ∧ (∀ e, e ∈ tids' →
       e ∈ tids0 ∨ (e.2 = false ∧ e.1 ∈ listing ∧ e.1 ∉ tids0.*1))
  ∧ (∀ t, t ∈ listing → t ∈ tids'.*1)
  ∧ (found = false → tids' = tids0).
Proof.
  revert found0 tids0.
  induction listing as [|t listing IH]; intros found0 tids0 Hsorted Hrun;
    simpl in Hrun.
  - simplify_eq.
    split_and!; [done|done|by left|by intros t ?%elem_of_nil|done].
  - destruct (TidMap_insert t tids0) as [tids1 ins] eqn:Hins.
    destruct (TidMap_insert_spec _ _ _ _ Hsorted Hins)
      as (Hs1 & Hmem1 & Hnew1 & Hsame1 & Hin1).
    destruct (IH _ _ Hs1 Hrun) as (Hs & Hold & Hnew & Hlist & Hsame).
    split_and!.
    + done.
    + intros e He. apply Hold, Hmem1. by right.
    + intros e He. apply Hnew in He as [He|(Hflag & Hl & Hk)].
      * apply Hmem1 in He as [[Hi ->]|He]; [|by left].
        right. simpl. split_and!; [done|by left|by apply Hnew1].
      * right. split_and!; [done|by right|].
        intros Hk'. apply Hk.
        apply list_elem_of_fmap in Hk' as (e' & -> & He').
        apply list_elem_of_fmap. exists e'. split; [done|].
        apply Hmem1. by right.
    + intros k. rewrite elem_of_cons. intros [->|Hk]; [|by apply Hlist].
      apply list_elem_of_fmap in Hin1 as (e' & -> & He').
      apply list_elem_of_fmap. exists e'. split; [done|]. by apply Hold.
    + intros ->. specialize (Hsame eq_refl).
      destruct ins.
      * simpl in Hrun. rewrite orb_true_r in Hrun.
        assert (Hfalse : ∀ l b tids,
          foldl (λ found tid,
                   let '(tids, inserted) := TidMap_insert tid found.2 in
                   (found.1 || inserted, tids))
                (b, tids) l = (false, tids') → b = false).
        { clear. induction l as [|x l IHl]; intros b tids H; simpl in H.
          - by simplify_eq.
          - destruct (TidMap_insert x tids) as [t1 i1]. simpl in H.
            apply IHl in H. by apply orb_false_iff in H as [? ?]. }
        by apply Hfalse in Hrun.
      * rewrite Hsame. by apply Hsame1.
Qed.

Lemma Attach_for_spec (sys : AttachSyscalls) (entries : TidMap)
    (requests : list Z) (s : ProcessMonitor CrashReason * list ThreadCall) :
  ∃ step new calls,
    Attach_for CrashReason sys entries requests s
    = (Done (step, requests ++ new), (s.1, s.2 ++ calls))
    ∧ new `sublist_of` (filter (λ e, e.2 = false) entries).*1
    ∧ match step with
      | attach_continue entries' =>
          entries' = (λ e, (e.1, true)) <$> entries
          ∧ new = (filter (λ e, e.2 = false) entries).*1
          ∧ Forall (λ t, thread_attached sys t = true) new
          ∧ calls
            = new ≫= (λ t, [AddThread t; AddThreadForInitialStopIfNeeded t])
      | attach_finish m_error =>
          Success m_error = false
          ∧ Forall (λ t, thread_vanished sys t = false) new
      | attach_undefined =>
          Exists (λ t, thread_vanished sys t = true) new
      end.
Proof.
  unfold TidMap in *. revert requests s.
  induction entries as [|[tid attached] rest IH]; intros requests s.
  { exists (attach_continue []), [], []. simpl. unfold retM.
    rewrite !app_nil_r. by destruct s. }
  cbn [Attach_for]. destruct attached; cbn [negb].
  { destruct (IH requests s) as (step & new & calls & Hrun & Hsub & Hstep).
    unfold bindM. rewrite Hrun. cbn beta iota. unfold retM.
    assert (Hf : filter (λ e : Z * bool, e.2 = false) ((tid, true) :: rest)
                 = filter (λ e : Z * bool, e.2 = false) rest)
      by (by rewrite filter_cons_False).
    rewrite Hf.
    destruct step as [entries'| |]; eexists _, new, calls;
      (split; [done|]); (split; [done|]); [|done..].
    destruct Hstep as (-> & ? & ? & ?). done. }
  assert (Hf : filter (λ e : Z * bool, e.2 = false) ((tid, false) :: rest)
               = (tid, false) :: filter (λ e : Z * bool, e.2 = false) rest)
    by (by rewrite filter_cons_True).
  rewrite Hf. clear Hf. rewrite fmap_cons. cbn [fst].
  pose proof (eq_refl (thread_vanished sys tid)) as Hv.
  pose proof (eq_refl (thread_attached sys tid)) as Ha.
  unfold thread_vanished at 2 in Hv. unfold thread_attached at 2 in Ha.
  assert (Hone : [tid] `sublist_of`
                 tid :: (filter (λ e : Z * bool, e.2 = false) rest).*1)
    by (apply sublist_skip, sublist_nil_l).
  destruct (att_ptrace_attach sys tid) as [result errno].
  destruct (Z.ltb_spec result 0).
  { destruct (errno =? ESRCH) eqn:He.
    - exists attach_undefined, [tid], []. unfold retM. rewrite app_nil_r.
      split_and!; [by destruct s|done|by apply Exists_cons_hd].
    - exists (attach_finish (SetErrorToErrno errno)), [tid], [].
      unfold retM. rewrite app_nil_r.
      split_and!; [by destruct s|done|done|by repeat constructor]. }
  destruct (att_waitpid sys tid) as [wpid errno0].
  destruct (Z.ltb_spec wpid 0).
  { destruct (errno0 =? ESRCH) eqn:He.
    - exists attach_undefined, [tid], []. unfold retM. rewrite app_nil_r.
      split_and!; [by destruct s|done|by apply Exists_cons_hd].
    - exists (attach_finish (SetErrorToErrno errno0)), [tid], [].
      unfold retM. rewrite app_nil_r.
      split_and!; [by destruct s|done|done|by repeat constructor]. }
  destruct (att_ptrace_setoptions sys tid) as [result0 errno1].
  cbn [fst] in Ha.
  destruct (Z.leb_spec 0 result0); cbn [negb].
  2:{ exists (attach_finish (SetErrorToErrno errno1)), [tid], [].
      unfold retM. rewrite app_nil_r.
      split_and!; [by destruct s|done|done|by repeat constructor]. }
  rewrite !bind_thread_call. cbn [fst snd].
  destruct (IH (requests ++ [tid])
              (s.1, (s.2 ++ [AddThread tid])
                    ++ [AddThreadForInitialStopIfNeeded tid]))
    as (step & new & calls & Hrun & Hsub & Hstep).
  unfold bindM. rewrite Hrun. cbn beta iota. unfold retM. cbn [fst snd].
  eexists _, (tid :: new),
    ([AddThread tid; AddThreadForInitialStopIfNeeded tid] ++ calls).
  split; [by rewrite <- !app_assoc|].
  split; [by apply sublist_skip|].
  assert (Hatt : thread_attached sys tid = true).
  { rewrite Ha, andb_true_r. apply andb_true_iff. split; by apply Z.leb_le. }
  destruct step as [entries'| |].
  - destruct Hstep as (-> & -> & Hall & ->).
    split_and!; [done|done|by constructor|done].
  - destruct Hstep as [? Hall]. split; [done|].
    constructor; [by apply thread_attached_not_vanished|done].
  - by apply Exists_cons_tl.
Qed.

Lemma StronglySorted_lt_NoDup (l : list Z) :
  StronglySorted Z.lt l → NoDup l.
Proof.
  induction l as [|x l IH]; [constructor|].
  intros [Hlt Hs]%StronglySorted_cons. constructor; [|by apply IH].
  intros Hx. rewrite Forall_forall in Hlt. apply Hlt in Hx. lia.
Qed.

Lemma Attach_while_spec (sys : AttachSyscalls) (listings : list (list Z))
    (tids : list (Z * bool)) (requests : list Z)
    (s : ProcessMonitor CrashReason * list ThreadCall) :
  StronglySorted Z.lt tids.*1 →
  Forall (λ e, e.2 = true) tids →
  NoDup requests →
  (∀ t, t ∈ requests ↔ t ∈ tids.*1) →
  ∃ step new calls,
    Attach_while CrashReason sys listings tids requests s
    = (Done (step, requests ++ new), (s.1, s.2 ++ calls))
    ∧ NoDup (requests ++ new)
    ∧ (∀ t, t ∈ new → ∃ l, l ∈ listings ∧ t ∈ l)
    ∧ match step with
      | attach_continue tids' =>
          (∀ t, t ∈ requests ++ new ↔ t ∈ tids'.*1)
          ∧ (∀ l, head listings = Some l → ∀ t, t ∈ l → t ∈ tids'.*1)
          ∧ Forall (λ t, thread_attached sys t = true) new
          ∧ calls
            = new ≫= (λ t, [AddThread t; AddThreadForInitialStopIfNeeded t])
      | attach_finish m_error =>
          Success m_error = false
          ∧ Forall (λ t, thread_vanished sys t = false) new
      | attach_undefined =>
          Exists (λ t, thread_vanished sys t = true) new
      end.
Proof.
  revert tids requests s.
  induction listings as [|listing listings IH];
    intros tids requests s Hsorted Htrue Hdup Hkeys.
  { exists (attach_continue tids), [], []. simpl. unfold retM.
    rewrite !app_nil_r.
    split_and!; [by destruct s|done|by intros t ?%elem_of_nil|done|done|
                 done|done]. }
  cbn [Attach_while].
  destruct (FindProcessThreads listing tids) as [found tids1] eqn:Hfind.
  destruct (FindProcessThreads_fold _ _ _ _ _ Hsorted Hfind)
    as (Hs1 & Hold & Hnew & Hlist & Hsame).
  destruct found.
  2:{ rewrite (Hsame eq_refl) in *.
      exists (attach_continue tids), [], []. unfold retM.
      rewrite !app_nil_r.
      split_and!; [by destruct s|done|by intros t ?%elem_of_nil|done| |
                   done|done].
      intros l [= <-]. done. }
  destruct (Attach_for_spec sys tids1 requests s)
    as (step1 & new1 & calls1 & Hrun1 & Hsub1 & Hstep1).
  unfold bindM. rewrite Hrun1. cbn beta iota.
  assert (Hun : ∀ t, t ∈ (filter (λ e : Z * bool, e.2 = false) tids1).*1 →
                     t ∈ listing ∧ t ∉ requests).
  { intros t ([t' a] & -> & [Hfalse He]%list_elem_of_filter)%list_elem_of_fmap.
    simpl in *. subst a. apply Hnew in He as [He|(_ & ? & Hk)].
    - rewrite Forall_forall in Htrue. by apply Htrue in He.
    - split; [done|]. by rewrite Hkeys. }
  assert (Hdup1 : NoDup (requests ++ new1)).
  { apply NoDup_app. split_and!; [done| |].
    - intros t Ht Ht'. eapply elem_of_sublist in Ht'; [|done].
      by apply Hun in Ht' as [_ ?].
    - eapply sublist_NoDup; [|done].
      eapply sublist_NoDup; [by apply StronglySorted_lt_NoDup|].
      apply fmap_sublist, sublist_filter. }
  assert (Hfrom1 : ∀ t, t ∈ new1 → ∃ l, l ∈ listing :: listings ∧ t ∈ l).
  { intros t Ht. exists listing. split; [by left|].
    eapply elem_of_sublist in Ht; [|done]. by apply Hun in Ht as [? _]. }
  destruct step1 as [tids2|m_error|].
  - destruct Hstep1 as (-> & -> & Hatt1 & ->).
    set (new1 := (filter (λ e : Z * bool, e.2 = false) tids1).*1) in *.
    assert (Hk2 : ((λ e : Z * bool, (e.1, true)) <$> tids1).*1 = tids1.*1).
    { rewrite <- list_fmap_compose. by apply list_fmap_ext. }
    assert (Hkeys1 : ∀ t, t ∈ requests ++ new1 ↔ t ∈ tids1.*1).
    { intros t. rewrite elem_of_app. split.
      - intros [Ht|Ht].
        + apply Hkeys in Ht.
          apply list_elem_of_fmap in Ht as (e & -> & He).
          apply list_elem_of_fmap. exists e. split; [done|by apply Hold].
        + eapply elem_of_sublist; [done|].
          apply fmap_sublist, sublist_filter.
      - intros ([t' a] & -> & He)%list_elem_of_fmap. simpl.
        destruct a.
        + left. apply Hnew in He as [He|(? & _)]; [|done].
          apply Hkeys, list_elem_of_fmap. by exists (t', true).
        + right. apply list_elem_of_fmap. exists (t', false).
          split; [done|]. by apply list_elem_of_filter. }
    destruct (IH ((λ e : Z * bool, (e.1, true)) <$> tids1) (requests ++ new1)
                (s.1, s.2 ++ (new1 ≫= λ t,
                   [AddThread t; AddThreadForInitialStopIfNeeded t])))
      as (step & new & calls & Hrun & Hdup2 & Hfrom & Hstep).
    { by rewrite Hk2. }
    { apply Forall_fmap, Forall_true. done. }
    { done. }
    { intros t. by rewrite Hk2. }
    rewrite Hrun. cbn [fst snd].
    exists step, (new1 ++ new),
      ((new1 ≫= λ t, [AddThread t; AddThreadForInitialStopIfNeeded t])
       ++ calls).
    rewrite !app_assoc.
    split_and!; [done|done| |].
    { intros t [Ht|Ht]%elem_of_app; [by apply Hfrom1|].
      destruct (Hfrom t Ht) as (l & ? & ?). exists l. split; [by right|done]. }
    destruct step as [tids'| |].
    + destruct Hstep as (Hkeys' & _ & Hatt & ->).
      split_and!; [done| |by apply Forall_app|by rewrite bind_app].
      intros l [= <-] t Ht. apply Hkeys', elem_of_app. left.
      apply Hkeys1. by apply Hlist.
    + destruct Hstep as [? Hall]. split; [done|].
      apply Forall_app. split; [|done].
      eapply Forall_impl; [done|]. apply thread_attached_not_vanished.
    + apply Exists_app. by right.
  - unfold retM. exists (attach_finish m_error), new1, calls1.
    destruct Hstep1. by split_and!.
  - unfold retM. exists attach_undefined, new1, calls1.
    by split_and!.
Qed.

Lemma Attach_while_start (sys : AttachSyscalls) (listings : list (list Z))
    (s : ProcessMonitor CrashReason * list ThreadCall) :
  ∃ step requests calls,
    Attach_while CrashReason sys listings [] [] s
    = (Done (step, requests), (s.1, s.2 ++ calls))
    ∧ NoDup requests
    ∧ (∀ t, t ∈ requests → ∃ l, l ∈ listings ∧ t ∈ l)
    ∧ match step with
      | attach_continue tids' =>
          (∀ t, t ∈ requests ↔ t ∈ tids'.*1)
          ∧ (∀ l, head listings = Some l → ∀ t, t ∈ l → t ∈ tids'.*1)
          ∧ Forall (λ t, thread_attached sys t = true) requests
          ∧ calls
            = requests
              ≫= (λ t, [AddThread t; AddThreadForInitialStopIfNeeded t])
      | attach_finish m_error =>
          Success m_error = false
          ∧ Forall (λ t, thread_vanished sys t = false) requests
      | attach_undefined =>
          Exists (λ t, thread_vanished sys t = true) requests
      end.
Proof.
  destruct (Attach_while_spec sys listings [] [] s)
    as (step & new & calls & Hrun & Hdup & Hfrom & Hstep);
    [constructor|constructor|constructor|done|].
  by exists step, new, calls.
Qed.

(** X25.  A run of [Attach] whose behaviour is defined returns whether
    [args->m_error] is a success.  When it returns true, the process id
    is above 1, at least one thread was attached, PTRACE_ATTACH,
    [waitpid] and the default options succeeded for every thread
    PTRACE_ATTACH was issued for, every task of the first listing is
    among them, [m_pid] is the process id, the one message sent is
    [Trace pid], and every attached thread was added to the thread list
    and to the initial stops, in the order of attaching.  When it
    returns false the monitor is as before: no process id is stored
    and no message is sent. *)
Theorem Attach_result (pid : Z) (sys : AttachSyscalls)
    (listings : list (list Z))
    (s s' : ProcessMonitor CrashReason * list ThreadCall)
    (ok : bool) (m_error : Error) (tids : TidMap) (requests : list Z) :
  Attach CrashReason pid sys listings s
  = (Done (Some (ok, m_error), tids, requests), s') →
  ok = Success m_error
  ∧ (ok = true →
     1 < pid
     ∧ requests ≠ []
     ∧ Forall (λ t, thread_attached sys t = true) requests
     ∧ (∀ l, head listings = Some l → ∀ t, t ∈ l → t ∈ requests)
     ∧ m_pid _ s'.1 = pid
     ∧ process_messages _ s'.1 = process_messages _ s.1 ++ [Trace _ pid]
     ∧ s'.2
       = s.2 ++ (requests ≫= λ t,
           [AddThread t; AddThreadForInitialStopIfNeeded t]))
  ∧ (ok = false → s'.1 = s.1).
Proof.
  unfold Attach. destruct (Z.leb_spec pid 1).
  { intros [= <- <- <- <- <-]. by split_and!. }
  destruct (Attach_while_start sys listings s)
    as (step & requests' & calls & Hrun & Hdup & Hfrom & Hstep).
  unfold bindM at 1. rewrite Hrun. cbn beta iota.
  destruct step as [tids'|err|]; [| |done].
  - destruct Hstep as (Hkeys & Hhead & Hatt & ->).
    destruct tids' as [|[t a] tids']; cbn [length Nat.ltb Nat.leb].
    + intros [= <- <- <- <- <-]. by split_and!.
    + intros [= <- <- <- <- <-]. split_and!; try done.
      intros _. split_and!; try done.
      * intros ->. specialize (Hkeys t) as [_ Hk].
        eapply elem_of_nil, Hk. simpl. by left.
      * intros l Hl k Hk. by eapply Hkeys, Hhead.
  - intros [= <- <- <- <- <-]. destruct Hstep as [Herr _].
    rewrite Herr. by split_and!.
Qed.

(** X26.  In a run of [Attach] whose behaviour is defined,
    PTRACE_ATTACH is issued at most once for a thread, however many
    rounds of listing the tasks it takes, and only for tasks that
    [FindProcessThreads] listed. *)
Theorem Attach_attaches_once (pid : Z) (sys : AttachSyscalls)
    (listings : list (list Z))
    (s s' : ProcessMonitor CrashReason * list ThreadCall)
    (ok : bool) (m_error : Error) (tids : TidMap) (requests : list Z) :
  Attach CrashReason pid sys listings s
  = (Done (Some (ok, m_error), tids, requests), s') →
  NoDup requests ∧ ∀ t, t ∈ requests → ∃ l, l ∈ listings ∧ t ∈ l.
Proof.
  unfold Attach. destruct (Z.leb_spec pid 1).
  { intros [= <- <- <- <- <-].
    split; [constructor|by intros t ?%elem_of_nil]. }
  destruct (Attach_while_start sys listings s)
    as (step & requests' & calls & Hrun & Hdup & Hfrom & Hstep).
  unfold bindM at 1. rewrite Hrun. cbn beta iota.
  destruct step as [tids'|err|]; [| |done].
  - destruct (0 <? length tids')%nat; by intros [= <- <- <- <- <-].
  - by intros [= <- <- <- <- <-].
Qed.

(** X27.  The behaviour of [Attach] is undefined exactly when a thread
    it issues PTRACE_ATTACH for has vanished: the entry is erased from
    the map and [continue] then increments the erased iterator. *)
Theorem Attach_undefined_iff_vanished (pid : Z) (sys : AttachSyscalls)
    (listings : list (list Z))
    (s s' : ProcessMonitor CrashReason * list ThreadCall)
    (result : option (bool * Error)) (tids : TidMap) (requests : list Z) :
  Attach CrashReason pid sys listings s = (Done (result, tids, requests), s') →
  result = None ↔ ∃ t, t ∈ requests ∧ thread_vanished sys t = true.
Proof.
  unfold Attach. destruct (Z.leb_spec pid 1).
  { intros [= <- <- <- <-]. split; [done|].
    by intros (t & ?%elem_of_nil & _). }
  destruct (Attach_while_start sys listings s)
    as (step & requests' & calls & Hrun & Hdup & Hfrom & Hstep).
  unfold bindM at 1. rewrite Hrun. cbn beta iota.
  assert (Hno : Forall (λ t, thread_vanished sys t = false) requests' →
                ¬ ∃ t, t ∈ requests' ∧ thread_vanished sys t = true).
  { intros Hall (t & Ht & Hv). rewrite Forall_forall in Hall.
    apply Hall in Ht. congruence. }
  destruct step as [tids'|err|].
  - destruct Hstep as (_ & _ & Hatt & _).
    assert (Hall : Forall (λ t, thread_vanished sys t = false) requests').
    { eapply Forall_impl; [done|]. apply thread_attached_not_vanished. }
    destruct (0 <? length tids')%nat; intros [= <- <- <- <-];
      (split; [done|]); intros Hex; by apply Hno in Hex.
  - destruct Hstep as [_ Hall]. intros [= <- <- <- <-].
    split; [done|]. intros Hex; by apply Hno in Hex.
  - intros [= <- <- <- <-]. split; [|done]. intros _.
    by apply Exists_exists in Hstep.
Qed.
(** What [Attach] leaves of the monitor. *)
Lemma Attach_monitor (pid : Z) (sys : AttachSyscalls)
    (listings : list (list Z))
    (s s' : ProcessMonitor CrashReason * list ThreadCall)
    (ok : bool) (m_error : Error) (tids : TidMap) (requests : list Z) :
  Attach CrashReason pid sys listings s
  = (Done (Some (ok, m_error), tids, requests), s') →
  ok = Success m_error
  ∧ s'.1 = (if ok
            then set_process_messages _
                   (process_messages _ s.1 ++ [Trace _ pid])
                   (set_pid_terminal _ pid (m_terminal_fd _ s.1) s.1)
            else s.1).
Proof.
  unfold Attach. destruct (Z.leb_spec pid 1).
  { by intros [= <- <- _ _ <-]. }
  destruct (Attach_while_start sys listings s)
    as (step & requests' & calls & Hrun & _ & _ & Hstep).
  unfold bindM at 1. rewrite Hrun. cbn beta iota.
  destruct step as [tids'|err|].
  - destruct (0 <? length tids')%nat; by intros [= <- <- _ _ <-].
  - destruct Hstep as [Herr _]. intros [= <- <- _ _ <-]. by rewrite Herr.
  - done.
Qed.

(** X28.  When the operation thread is started and [Attach] on it
    fails, as it does for a process id of 1 or below, for a process
    without tasks and after a failing system call, the attaching
    constructor does not return: after the wait for the thread it calls
    [StopOpThread], which posts the sentinel and then waits for a
    completion that the thread, having returned, never posts.  The
    error of the attach does not reach the caller. *)
Theorem ProcessMonitor_attach_failure_blocks (pid : Z) (sys : AttachSyscalls)
    (listings : list (list Z)) (thread_error error : Error) (n : nat)
    (rest : list sem_wait_return) (monitor_thread_joinable : bool)
    (m : ProcessMonitor CrashReason) (calls : list ThreadCall)
    (s1 : ProcessMonitor CrashReason * list ThreadCall)
    (err : Error) (tids : TidMap) (requests : list Z) :
  Success thread_error = true →
  Attach CrashReason pid sys listings
    (set_operation_thread _ true false (initialise m).2, calls)
  = (Done (Some (false, err), tids, requests), s1) →
  (ProcessMonitor_attach pid sys listings thread_error
     (replicate n sem_EINTR ++ sem_acquired :: rest)
     monitor_thread_joinable error (m, calls)).1
  = Blocked.
Proof.
  intros Hthread Hattach.
  destruct (Attach_monitor _ _ _ _ _ _ _ _ _ Hattach) as [Herr Hs1].
  symmetry in Herr. cbn [fst] in Hs1.
  unfold ProcessMonitor_attach.
  rewrite (bind_on_monitor _ initialise _ (m, calls) tt (initialise m).2
             eq_refl).
  unfold bindM at 1, StartAttachOpThread. cbn [fst snd].
  change (m_operation_thread_joinable _ (initialise m).2) with false.
  cbv iota. rewrite Hthread.
  unfold bindM at 1, AttachOpThread, bindM at 1. rewrite Hattach.
  cbn [negb]. unfold on_monitor at 1. rewrite Hs1. cbn [fst snd].
  unfold retM at 1. rewrite Hthread.
  cbv beta iota delta [negb default from_option id].
  erewrite bind_on_monitor by apply wait_again_acquired.
  rewrite Herr. cbn [negb].
  unfold bindM at 1, on_monitor at 1. cbn [fst].
  match goal with
  | |- context [StopOpThread _ _ _ ?m2] =>
      destruct (StopOpThread_started word_size CrashReason
                  LLDB_INVALID_SIGNAL_NUMBER m2) as (m' & -> & _);
      [reflexivity|right; reflexivity|]
  end.
  reflexivity.
Qed.

(** X29.  When the operation thread is started and [Attach] on it
    succeeds, the attaching constructor returns with the operation
    thread serving and [m_pid] the process attached to.  If the thread
    that watches the process is started too, the caller's error is the
    success of the thread launch; if it is not, the error is the
    generic "Process attach failed." and the threads of the process
    stay attached. *)
Theorem ProcessMonitor_attach_success (pid : Z) (sys : AttachSyscalls)
    (listings : list (list Z)) (thread_error error : Error) (n : nat)
    (rest : list sem_wait_return) (monitor_thread_joinable : bool)
    (m : ProcessMonitor CrashReason) (calls : list ThreadCall)
    (s1 : ProcessMonitor CrashReason * list ThreadCall)
    (err : Error) (tids : TidMap) (requests : list Z) :
  Success thread_error = true →
  Attach CrashReason pid sys listings
    (set_operation_thread _ true false (initialise m).2, calls)
  = (Done (Some (true, err), tids, requests), s1) →
  ProcessMonitor_attach pid sys listings thread_error
    (replicate n sem_EINTR ++ sem_acquired :: rest)
    monitor_thread_joinable error (m, calls)
  = (Done (Some (if monitor_thread_joinable then (thread_error, true)
                 else (ErrorGeneric "Process attach failed.", false))), s1)
  ∧ m_operation_thread_joinable _ s1.1 = true
  ∧ operation_thread_returned _ s1.1 = false
  ∧ m_pid _ s1.1 = pid.
Proof.
  intros Hthread Hattach.
  destruct (Attach_monitor _ _ _ _ _ _ _ _ _ Hattach) as [Herr Hs1].
  symmetry in Herr. cbn [fst] in Hs1.
  split; [|by rewrite Hs1].
  unfold ProcessMonitor_attach.
  rewrite (bind_on_monitor _ initialise _ (m, calls) tt (initialise m).2
             eq_refl).
  unfold bindM at 1, StartAttachOpThread. cbn [fst snd].
  change (m_operation_thread_joinable _ (initialise m).2) with false.
  cbv iota. rewrite Hthread.
  unfold bindM at 1, AttachOpThread, bindM at 1. rewrite Hattach.
  cbn [negb]. unfold retM at 1 2. rewrite Hthread.
  cbv beta iota delta [negb default from_option id].
  erewrite bind_on_monitor by apply wait_again_acquired.
  rewrite Herr. cbn [negb]. destruct s1.
  by destruct monitor_thread_joinable.
Qed.
End AttachProofs.

(** * The theorems at concrete inputs *)

(** Three bytes written at the unaligned address 4098 are read back. *)
Lemma WriteMemory_ReadMemory_roundtrip_witness :
  DoReadMemory 8 example_written 7 4098 (replicate 3 Byte.x00) 3 ErrorSuccess
  = Some (3, example_bytes, ErrorSuccess).
Proof.
  apply (WriteMemory_ReadMemory_roundtrip 8 (or_intror eq_refl)
           example_tracees example_written 7 4098 3 example_bytes
           (replicate 3 Byte.x00) ErrorSuccess ErrorSuccess ErrorSuccess).
  - lia.
  - by vm_compute.
  - reflexivity.
  - reflexivity.
  - vm_compute. reflexivity.
Defined.

(** The same write leaves the bytes at 4097 and 4101 as they were. *)
Lemma DoWriteMemory_preserves_outside_witness :
  ∃ k' cnt error',
    DoWriteMemory 8 example_tracees 7 4098 example_bytes 3 ErrorSuccess
    = Some (k', cnt, error')
    ∧ mem_byte k' 7 (4098 - 1) = mem_byte example_tracees 7 (4098 - 1)
    ∧ mem_byte k' 7 (4098 + 3) = mem_byte example_tracees 7 (4098 + 3).
Proof.
  destruct (DoWriteMemory_preserves_outside 8 (or_intror eq_refl)
              example_tracees 7 4098 3 example_bytes ErrorSuccess)
    as [(k' & cnt & error' & Hrun & _ & Hbefore & Hafter) _].
  - lia.
  - lia.
  - by vm_compute.
  - by exists k', cnt, error'.
Defined.

(** A read of twenty bytes at 4100 stops at the second word, which
    reaches beyond the mapped bytes. *)
Lemma DoReadMemory_failing_peek_witness :
  ∃ buf',
    DoReadMemory 8 example_tracees 7 4100 (replicate 20 Byte.x00) 20
      ErrorSuccess
    = Some (1 * 8, buf', SetErrorToErrno EIO)
    ∧ length buf' = length (replicate 20 Byte.x00).
Proof.
  destruct (DoReadMemory_failing_peek 8 (or_intror eq_refl) example_tracees 7
              4100 20 (replicate 20 Byte.x00) ErrorSuccess 1 EIO)
    as (buf' & Hrun & Hlen & _).
  - lia.
  - lia.
  - intros j Hj. assert (j = 0) as -> by lia. vm_compute. reflexivity.
  - vm_compute. reflexivity.
  - discriminate.
  - by exists buf'.
Defined.

(** Teardown of the example monitor ends in the null dereference. *)
Lemma ServeOperation_has_no_exit_witness :
  (StopOpThread 8 unit 2147483647 (example_monitor syscall_stop)).1
  = NullDereference.
Proof.
  apply (proj1 (proj2 (proj2 (ServeOperation_has_no_exit 8 unit 2147483647))));
    reflexivity.
Defined.

(** C2, as the claim states it, at a system-call stop: the process
    object is sent a message. *)
Lemma MonitorCallback_syscall_stop_sends_a_message :
  si_signo syscall_stop.2 = SIGTRAP
  ∧ si_code syscall_stop.2 = SIGTRAP
  ∧ process_messages unit (example_MonitorCallback syscall_stop).2
    ≠ process_messages unit (example_monitor syscall_stop).
Proof. split_and!; [reflexivity..|]. vm_compute. discriminate. Qed.

Lemma MonitorCallback_syscall_stop_witness :
  ∃ m',
    example_MonitorCallback syscall_stop = (Done false, m')
    ∧ executed unit m' = [SiginfoOperation 7; ResumeOperation 7 0]
    ∧ process_messages unit m' = [ProcessMessage_default unit].
Proof.
  apply (proj1 (MonitorCallback_syscall_stop 8 unit (λ _, tt) 0 2147483647)
           (example_monitor syscall_stop) 7 SIGTRAP 0 0 syscall_stop.2).
  - reflexivity.
  - reflexivity.
  - reflexivity.
  - left. reflexivity.
Defined.

(** C5, as the claim states it, at a group-stop whose resume the kernel
    refuses: the callback does not go on monitoring, the assertion on
    the resume fails. *)
Lemma MonitorCallback_group_stop_resume_refused :
  ptrace_getsiginfo (kernel unit (refused_monitor group_stop)) 7
  = (-1, EINVAL, group_stop.2)
  ∧ (MonitorCallback 8 unit (λ _, tt) 0 2147483647 7 false SIGTRAP 0
       (refused_monitor group_stop)).1
    = AssertionFailed
  ∧ (MonitorCallback 8 unit (λ _, tt) 0 2147483647 7 false SIGTRAP 0
       (refused_monitor group_stop)).1
    ≠ Done false.
Proof. split_and!; [reflexivity..|discriminate]. Qed.

(** A group-stop whose resume succeeds, one whose resume the kernel
    refuses, and the loss of the process 7 itself. *)
Lemma MonitorCallback_siginfo_unavailable_witness :
  example_MonitorCallback group_stop
  = (Done false,
     served unit (ResumeOperation 7 SIGSTOP)
       (served unit (SiginfoOperation 7) (example_monitor group_stop)))
  ∧ MonitorCallback 8 unit (λ _, tt) 0 2147483647 7 false SIGTRAP 0
      (refused_monitor group_stop)
    = (AssertionFailed,
       served unit (ResumeOperation 7 SIGSTOP)
         (served unit (SiginfoOperation 7) (refused_monitor group_stop)))
  ∧ example_MonitorCallback unreadable
    = (Done true,
       set_process_messages unit [Exit unit 7 0]
         (served unit (SiginfoOperation 7) (example_monitor unreadable))).
Proof.
  split_and!.
  - apply (MonitorCallback_siginfo_unavailable 8 unit (λ _, tt) 0 2147483647
             (example_monitor group_stop) 7 SIGTRAP 0 (-1) EINVAL
             group_stop.2 ltac:(discriminate) eq_refl eq_refl
             ltac:(discriminate)).
  - apply (MonitorCallback_siginfo_unavailable 8 unit (λ _, tt) 0 2147483647
             (refused_monitor group_stop) 7 SIGTRAP 0 (-1) EINVAL
             group_stop.2 ltac:(discriminate) eq_refl eq_refl
             ltac:(discriminate)).
  - apply (MonitorCallback_siginfo_unavailable 8 unit (λ _, tt) 0 2147483647
             (example_monitor unreadable) 7 SIGTRAP 0 (-1) ESRCH
             unreadable.2 ltac:(discriminate) eq_refl eq_refl
             ltac:(discriminate)).
Defined.

Lemma MonitorCallback_signal_classification_witness :
  ∃ message,
    example_MonitorCallback segfault
    = (Done false,
       set_process_messages unit [message]
         (served unit (SiginfoOperation 7) (example_monitor segfault)))
    ∧ message = Crash unit 7 tt SIGSEGV 0.
Proof.
  destruct (MonitorCallback_signal_classification 8 unit (λ _, tt) 0
              2147483647 (example_monitor segfault) 7 SIGTRAP 0 0 segfault.2
              eq_refl eq_refl ltac:(discriminate))
    as (message & Hrun & _ & _ & Hcrash & _).
  exists message. split; [exact Hrun|].
  apply Hcrash.
  - intros [H | H]; discriminate H.
  - left. reflexivity.
Defined.

(** Both register-set requests fail, and both functions return [true]. *)
Lemma hardware_debug_operations_return_true_witness :
  (ReadHardwareDebugInfo 8 unit 2147483647 7 (example_monitor syscall_stop)).1
  = Done (true, 0, 0)
  ∧ (WriteHardwareDebugRegs 8 unit 2147483647 7 [4096] [5] 0 1
       (example_monitor syscall_stop)).1
    = Done true.
Proof.
  destruct (hardware_debug_operations_return_true 8 unit 2147483647
              (example_monitor syscall_stop) 7 [4096] [5] 0 1 eq_refl)
    as [Hread Hwrite].
  by rewrite Hread, Hwrite.
Defined.

(** The working directory cannot be entered: the child exits with 5,
    [Launch] reports it, and the constructor does not return. *)
Lemma Launch_child_failure_reported_witness :
  Launch unit example_args (example_syscalls (-1))
    (example_monitor syscall_stop)
  = (Done (false, ErrorGeneric "Child failed to set working directory.",
           Some (child_exits eChdirFailed)),
     example_monitor syscall_stop)
  ∧ (ProcessMonitor_launch 8 unit 2147483647 0 example_args
       (example_syscalls (-1)) ErrorSuccess [sem_acquired] true ErrorSuccess
       (example_monitor syscall_stop)).1
    = Blocked.
Proof.
  destruct (Launch_child_failure_reported 8 unit 2147483647 0)
    as (_ & _ & _ & _ & Hlaunch & Hblocks).
  split.
  - apply (Hlaunch example_args (example_syscalls (-1))
             (example_monitor syscall_stop) ChdirFails).
    + reflexivity.
    + discriminate.
    + by vm_compute.
  - apply (Hblocks example_args (example_syscalls (-1)) ErrorSuccess
             ErrorSuccess 0%nat [] true (example_monitor syscall_stop)
             ChdirFails).
    + reflexivity.
    + discriminate.
    + by vm_compute.
    + reflexivity.
Defined.

(** An empty [envp]: [Launch] runs the child, and the child is executed
    with [environ]. *)
Lemma Launch_propagates_environ_witness :
  (∃ r e m',
     Launch unit example_args (example_syscalls 0)
       (example_monitor syscall_stop)
     = (Done (r, e,
              Some (Launch_child example_args (environ (example_syscalls 0))
                      (example_syscalls 0))), m'))
  ∧ child_execve
      (Launch_child example_args (environ (example_syscalls 0))
         (example_syscalls 0))
    = Some ("/bin/true", ["/bin/true"], ["PATH=/bin"]).
Proof.
  destruct (Launch_propagates_environ unit example_args (example_syscalls 0)
              (example_monitor syscall_stop) (or_intror eq_refl)
              ltac:(by vm_compute) (or_intror eq_refl))
    as (Hlaunch & _ & Hexec).
  split; [exact Hlaunch|]. apply Hexec. intros f Hf. by destruct f.
Defined.

(** A read of twenty bytes at 4100 is short or complete. *)
Lemma DoReadMemory_short_or_complete_witness :
  ∃ n buf' error',
    DoReadMemory 8 example_tracees 7 4100 (replicate 20 Byte.x00) 20
      ErrorSuccess
    = Some (n, buf', error')
    ∧ 0 ≤ n ≤ 20.
Proof.
  destruct (DoReadMemory_short_or_complete 8 (or_intror eq_refl)
              example_tracees 7 4100 20 (replicate 20 Byte.x00) ErrorSuccess)
    as (n & buf' & error' & Hrun & Hn & _); [lia|].
  by exists n, buf', error'.
Defined.

(** The sixteen mapped bytes are read as two whole words. *)
Lemma DoReadMemory_complete_iff_mapped_witness :
  (∃ buf' error',
     DoReadMemory 8 example_tracees 7 4096 (replicate 16 Byte.x00) 16
       ErrorSuccess
     = Some (16, buf', error'))
  ↔ (∀ j i, 0 ≤ j → j * 8 < 16 → 0 ≤ i < 8 →
            is_Some (mem_byte example_tracees 7 (4096 + j * 8 + i))).
Proof.
  destruct (DoReadMemory_complete_iff_mapped 8 (or_intror eq_refl)
              example_tracees 7 4096 16 (replicate 16 Byte.x00) ErrorSuccess)
    as [Hiff _]; [lia|lia|by vm_compute|exact Hiff].
Defined.

(** A word written at 4108, where only the bytes up to 4111 are
    mapped: the write returns 0 with EIO, and the four mapped bytes of
    the word hold the caller's bytes all the same. *)
Example DoWriteMemory_straddling_word :
  ∃ k',
    DoWriteMemory 8 example_tracees 7 4108 example_word 8 ErrorSuccess
    = Some (k', 0, SetErrorToErrno EIO)
    ∧ mem_byte k' 7 <$> [4107; 4108; 4109; 4110; 4111; 4112]
      = [Some Byte.xff; Some Byte.x01; Some Byte.x02; Some Byte.x03;
         Some Byte.x04; None].
Proof. eexists. split; [by vm_compute|by vm_compute]. Qed.




(** On a 32-bit host the read at 4 GiB + 4096 is the read at 4096. *)
Lemma memory_access_truncates_address_witness :
  DoReadMemory 4 example_tracees 7 (4096 + 1 * 2 ^ word_bits 4)
    (replicate 8 Byte.x00) 8 ErrorSuccess
  = DoReadMemory 4 example_tracees 7 4096 (replicate 8 Byte.x00) 8
      ErrorSuccess.
Proof.
  exact (proj1 (memory_access_truncates_address 4 (or_introl eq_refl)
                  example_tracees 7 4096 1 8 (replicate 8 Byte.x00)
                  ErrorSuccess)).
Defined.

Lemma DoOperation_sequence_witness :
  ∃ m',
    foldr (λ op rest, DoOperation 8 unit 2147483647 (Some op) ;;; rest)
      (retM tt) [SiginfoOperation 7; ResumeOperation 7 0]
      (example_monitor syscall_stop)
    = (Done tt, m')
    ∧ executed unit m' = [SiginfoOperation 7; ResumeOperation 7 0].
Proof.
  destruct (DoOperation_sequence 8 unit 2147483647
              [SiginfoOperation 7; ResumeOperation 7 0]
              (example_monitor syscall_stop) (or_intror eq_refl) eq_refl)
    as (m' & Hrun & Hex & _).
  by exists m'.
Defined.

Lemma WriteMemory_then_ReadMemory_witness :
  ∃ m2,
    ReadMemory 8 unit 2147483647 4098 (replicate 3 Byte.x00) 3 ErrorSuccess
      example_after_write
    = (Done (3, example_bytes, ErrorSuccess), m2).
Proof.
  destruct (WriteMemory_then_ReadMemory 8 unit 2147483647
              (example_monitor syscall_stop) example_after_write 4098 3
              example_bytes example_bytes (replicate 3 Byte.x00)
              ErrorSuccess ErrorSuccess ErrorSuccess)
    as (m2 & Hread & _).
  - by right.
  - reflexivity.
  - lia.
  - by vm_compute.
  - reflexivity.
  - reflexivity.
  - vm_compute. reflexivity.
  - by exists m2.
Defined.

(** A breakpoint is reported as [Break]. *)
Lemma MonitorCallback_trap_events_witness :
  example_MonitorCallback breakpoint_stop
  = (Done false,
     set_process_messages unit [Break unit 7]
       (served unit (SiginfoOperation 7) (example_monitor breakpoint_stop))).
Proof.
  apply (proj1 (proj2 (MonitorCallback_trap_events 8 unit (λ _, tt) 0
                         2147483647 (example_monitor breakpoint_stop) 7
                         SIGTRAP 0 0 breakpoint_stop.2 eq_refl eq_refl
                         eq_refl))).
  right. reflexivity.
Defined.

(** An exit event whose event message the kernel refuses, on a 64-bit
    host: the status of the [Limbo] message is -1. *)
Lemma MonitorCallback_event_message_witness :
  MonitorCallback 8 unit (λ _, tt) 0 2147483647 7 false SIGTRAP 0
    (refused_monitor exit_event)
  = (Done false,
     set_process_messages unit [Limbo unit 7 (-1)]
       (served unit (EventMessageOperation 7)
          (served unit (SiginfoOperation 7) (refused_monitor exit_event)))).
Proof.
  apply (proj1 (proj2 (MonitorCallback_event_message 8 unit (λ _, tt) 0
                         2147483647 (refused_monitor exit_event) 7 SIGTRAP 0
                         0 exit_event.2 eq_refl eq_refl eq_refl))).
  reflexivity.
Defined.

Lemma MonitorCallback_unexpected_trap_code_witness :
  example_MonitorCallback unknown_trap
  = (AssertionFailed,
     served unit (SiginfoOperation 7) (example_monitor unknown_trap)).
Proof.
  apply (MonitorCallback_unexpected_trap_code 8 unit (λ _, tt) 0 2147483647
           (example_monitor unknown_trap) 7 SIGTRAP 0 0 unknown_trap.2
           eq_refl eq_refl eq_refl).
  intros Hin. vm_compute in Hin.
  repeat (apply elem_of_cons in Hin as [Hin|Hin]; [discriminate Hin|]).
  by apply elem_of_nil in Hin.
Defined.

(** The exit of the process itself stops the monitoring. *)
Lemma MonitorCallback_stops_monitoring_witness :
  7 = process_id unit (example_monitor syscall_stop)
  ∧ process_messages unit
      (MonitorCallback 8 unit (λ _, tt) 0 2147483647 7 true SIGTRAP 0
         (example_monitor syscall_stop)).2
    = process_messages unit (example_monitor syscall_stop)
      ++ [Exit unit 7 0].
Proof.
  apply (proj1 (MonitorCallback_stops_monitoring 8 unit (λ _, tt) 0
                  2147483647)
           (example_monitor syscall_stop) _ 7 true SIGTRAP 0).
  reflexivity.
Defined.

(** The launch of /bin/true. *)
Lemma Launch_result_witness :
  process_messages unit
    (Launch unit example_args (example_syscalls 0)
       (example_monitor syscall_stop)).2
  = process_messages unit (example_monitor syscall_stop)
    ++ [Trace unit 1234].
Proof.
  destruct (Launch_result unit example_args (example_syscalls 0)
              (example_monitor syscall_stop)
              (Launch unit example_args (example_syscalls 0)
                 (example_monitor syscall_stop)).2
              true ErrorSuccess
              (Some (Launch_child example_args ["PATH=/bin"]
                       (example_syscalls 0))))
    as (_ & Hmessages & _).
  - discriminate.
  - vm_compute. reflexivity.
  - exact Hmessages.
Defined.

Lemma Launch_succeeds_witness :
  Launch unit example_args (example_syscalls 0) (example_monitor syscall_stop)
  = (Done (true, ErrorSuccess,
           Some (Launch_child example_args ["PATH=/bin"]
                   (example_syscalls 0))),
     set_process_messages unit [Trace unit 1234]
       (set_pid_terminal unit 1234 3 (example_monitor syscall_stop))).
Proof.
  apply (Launch_succeeds unit example_args (example_syscalls 0)
           (example_monitor syscall_stop)).
  - reflexivity.
  - intros f. by destruct f.
  - reflexivity.
  - simpl. lia.
  - discriminate.
  - discriminate.
Defined.

Lemma Launch_fails_after_storing_pid_witness :
  Launch unit example_args example_syscalls_fcntl_fails
    (example_monitor syscall_stop)
  = (Done (false, SetErrorToErrno 9,
           Some (Launch_child example_args ["PATH=/bin"]
                   example_syscalls_fcntl_fails)),
     set_pid_terminal unit 1234 3 (example_monitor syscall_stop)).
Proof.
  apply (Launch_fails_after_storing_pid unit example_args
           example_syscalls_fcntl_fails (example_monitor syscall_stop) 9).
  - reflexivity.
  - intros f. by destruct f.
  - reflexivity.
  - simpl. lia.
  - left. reflexivity.
Defined.

(** The working directory cannot be entered: the constructor hangs. *)
Lemma ProcessMonitor_launch_failure_blocks_witness :
  (ProcessMonitor_launch 8 unit 2147483647 0 example_args
     (example_syscalls (-1)) ErrorSuccess [sem_acquired] true ErrorSuccess
     (example_monitor syscall_stop)).1
  = Blocked.
Proof.
  apply (ProcessMonitor_launch_failure_blocks 8 unit 2147483647 0
           example_args (example_syscalls (-1)) ErrorSuccess ErrorSuccess
           0 [] true (example_monitor syscall_stop)
           (set_operation_thread unit true false
              (initialise unit 0 (example_monitor syscall_stop)).2)
           (ErrorGeneric "Child failed to set working directory.")
           (Some (child_exits eChdirFailed))).
  - reflexivity.
  - vm_compute. reflexivity.
Defined.

Lemma ProcessMonitor_launch_success_witness :
  (ProcessMonitor_launch 8 unit 2147483647 0 example_args
     (example_syscalls 0) ErrorSuccess [sem_acquired] true ErrorSuccess
     (example_monitor syscall_stop)).1
  = Done (ErrorSuccess, true).
Proof.
  destruct (ProcessMonitor_launch_success 8 unit 2147483647 0
              example_args (example_syscalls 0) ErrorSuccess ErrorSuccess
              0 [] true (example_monitor syscall_stop)
              (Launch unit example_args (example_syscalls 0)
                 (set_operation_thread unit true false
                    (initialise unit 0 (example_monitor syscall_stop)).2)).2
              ErrorSuccess
              (Some (Launch_child example_args ["PATH=/bin"]
                       (example_syscalls 0))))
    as (Hrun & _).
  - reflexivity.
  - vm_compute. reflexivity.
  - simpl replicate in Hrun. simpl app in Hrun. by rewrite Hrun.
Defined.

(** Teardown of the serving example monitor keeps the terminal open. *)
Lemma StopMonitor_terminal_witness :
  ∃ o m',
    StopMonitor 8 unit 2147483647 false false (example_monitor syscall_stop)
    = (o, m')
    ∧ (o = Blocked ∨ o = NullDereference)
    ∧ m_terminal_fd unit m' = 3.
Proof.
  apply (proj2 (StopMonitor_terminal 8 unit 2147483647
                  (example_monitor syscall_stop) false false)).
  - reflexivity.
  - left. reflexivity.
Defined.

(** The awaited thread exits. *)
Lemma StopThread_true_only_for_tid_witness :
  0 ≤ 0 ∧ ∃ ev, ev ∈ [exited_event] ∧ ev_pid ev = 7.
Proof.
  destruct (StopThread_true_only_for_tid 8 unit (λ _, tt) 0 2147483647 7 0
              [exited_event] (example_monitor syscall_stop, [])
              (StopThread 8 unit (λ _, tt) 0 2147483647 7 0 [exited_event]
                 (example_monitor syscall_stop, [])).2)
    as (Hret & Hev & _).
  - reflexivity.
  - by split.
Defined.

Lemma StopThread_syscall_stop_witness :
  StopThread_loop 8 unit (λ _, tt) 0 2147483647 7 [stopped_event]
    (example_monitor syscall_stop, [])
  = StopThread_loop 8 unit (λ _, tt) 0 2147483647 7 []
      (served unit (ResumeOperation 7 0)
         (served unit (SiginfoOperation 7) (example_monitor syscall_stop)),
       []).
Proof.
  apply (StopThread_syscall_stop 8 unit (λ _, tt) 0 2147483647 7
           stopped_event [] (example_monitor syscall_stop) [] 0
           syscall_stop.2).
  - reflexivity.
  - discriminate.
  - reflexivity.
  - reflexivity.
  - reflexivity.
  - left. reflexivity.
Defined.

(** A group-stop seen while stopping the thread 7: the resume
    succeeds, or the kernel refuses it. *)
Lemma StopThread_siginfo_unavailable_witness :
  StopThread_loop 8 unit (λ _, tt) 0 2147483647 7 [stopped_event]
    (example_monitor group_stop, [])
  = StopThread_loop 8 unit (λ _, tt) 0 2147483647 7 []
      (served unit (ResumeOperation 7 SIGSTOP)
         (served unit (SiginfoOperation 7) (example_monitor group_stop)),
       [])
  ∧ StopThread_loop 8 unit (λ _, tt) 0 2147483647 7 [stopped_event]
      (refused_monitor group_stop, [])
    = (AssertionFailed,
       (served unit (ResumeOperation 7 SIGSTOP)
          (served unit (SiginfoOperation 7) (refused_monitor group_stop)),
        [])).
Proof.
  split.
  - apply (StopThread_siginfo_unavailable 8 unit (λ _, tt) 0 2147483647 7
             stopped_event [] (example_monitor group_stop) [] (-1) EINVAL
             group_stop.2 ltac:(discriminate) eq_refl ltac:(discriminate)
             eq_refl eq_refl ltac:(discriminate)).
  - apply (StopThread_siginfo_unavailable 8 unit (λ _, tt) 0 2147483647 7
             stopped_event [] (refused_monitor group_stop) [] (-1) EINVAL
             group_stop.2 ltac:(discriminate) eq_refl ltac:(discriminate)
             eq_refl eq_refl ltac:(discriminate)).
Defined.

Lemma StopThread_foreign_SIGSTOP_witness :
  StopThread_loop 8 unit (λ _, tt) 0 2147483647 9 [stopped_event]
    (example_monitor foreign_stop, [])
  = StopThread_loop 8 unit (λ _, tt) 0 2147483647 9 []
      (served unit (SiginfoOperation 7) (example_monitor foreign_stop),
       [AddThreadForInitialStopIfNeeded 9; SetState_eStateStopped 7]).
Proof.
  apply (StopThread_foreign_SIGSTOP 8 unit (λ _, tt) 0 2147483647 9
           stopped_event [] (example_monitor foreign_stop) [] 0
           foreign_stop.2).
  - reflexivity.
  - discriminate.
  - reflexivity.
  - reflexivity.
  - reflexivity.
  - intros [_ Hpid]. discriminate Hpid.
  - reflexivity.
  - reflexivity.
Defined.

(** The initial stop of the thread 7. *)
Lemma WaitForInitialTIDStop_returns_true_witness :
  (∃ status,
     process_messages unit
       (WaitForInitialTIDStop 8 unit 2147483647 7 [stopped_event]
          (example_monitor foreign_stop, [])).2.1
     = [] ++ [Exit unit 7 status]
     ∧ (WaitForInitialTIDStop 8 unit 2147483647 7 [stopped_event]
          (example_monitor foreign_stop, [])).2.2 = [])
  ∨ (process_messages unit
       (WaitForInitialTIDStop 8 unit 2147483647 7 [stopped_event]
          (example_monitor foreign_stop, [])).2.1
     = []
     ∧ (WaitForInitialTIDStop 8 unit 2147483647 7 [stopped_event]
          (example_monitor foreign_stop, [])).2.2
       = [] ++ [AddThreadForInitialStopIfNeeded 7]).
Proof.
  apply (WaitForInitialTIDStop_returns_true 8 unit 2147483647 7
           [stopped_event] (example_monitor foreign_stop, [])).
  reflexivity.
Defined.

(** The thread 7 has exited and its signal information is gone. *)
Lemma WaitForInitialTIDStop_unreported_exit_witness :
  WaitForInitialTIDStop 8 unit 2147483647 7 [exited_event]
    (example_monitor unreadable, [])
  = (Done false,
     (served unit (SiginfoOperation 7) (example_monitor unreadable), [])).
Proof.
  apply (WaitForInitialTIDStop_unreported_exit 8 unit 2147483647 7
           exited_event [] (example_monitor unreadable) [] (-1) ESRCH
           unreadable.2).
  - reflexivity.
  - reflexivity.
  - discriminate.
  - reflexivity.
  - reflexivity.
  - discriminate.
Defined.

(** Attaching to the process 10 with the threads 10 and 11. *)
Lemma Attach_result_witness :
  let s' := (Attach unit 10 (example_attach 12) [[10; 11]; [10; 11]]
               (example_monitor syscall_stop, [])).2 in
  Forall (λ t, thread_attached (example_attach 12) t = true) [10; 11]
  ∧ m_pid unit s'.1 = 10
  ∧ process_messages unit s'.1 = [Trace unit 10]
  ∧ s'.2 = [AddThread 10; AddThreadForInitialStopIfNeeded 10;
            AddThread 11; AddThreadForInitialStopIfNeeded 11].
Proof.
  intros s'.
  destruct (Attach_result unit 10 (example_attach 12) [[10; 11]; [10; 11]]
              (example_monitor syscall_stop, []) s'
              true ErrorSuccess [(10, true); (11, true)] [10; 11] eq_refl)
    as (_ & Htrue & _).
  destruct (Htrue eq_refl) as (_ & _ & Hall & _ & Hpid & Hmsg & Hcalls).
  by split_and!.
Defined.

Lemma Attach_attaches_once_witness :
  NoDup [10; 11]
  ∧ ∀ t, t ∈ [10; 11] → ∃ l, l ∈ [[10; 11]; [10; 11]] ∧ t ∈ l.
Proof.
  apply (Attach_attaches_once unit 10 (example_attach 12)
           [[10; 11]; [10; 11]] (example_monitor syscall_stop, [])
           (Attach unit 10 (example_attach 12) [[10; 11]; [10; 11]]
              (example_monitor syscall_stop, [])).2
           true ErrorSuccess [(10, true); (11, true)] [10; 11]).
  reflexivity.
Defined.

(** The thread 11 of the process 10 exits before it is attached. *)
Lemma Attach_undefined_iff_vanished_witness :
  @None (bool * Error) = None
  ↔ ∃ t, t ∈ [10; 11] ∧ thread_vanished (example_attach 11) t = true.
Proof.
  apply (Attach_undefined_iff_vanished unit 10 (example_attach 11)
           [[10; 11]; [10; 11]] (example_monitor syscall_stop, [])
           (Attach unit 10 (example_attach 11) [[10; 11]; [10; 11]]
              (example_monitor syscall_stop, [])).2
           None [] [10; 11]).
  reflexivity.
Defined.

(** Attaching to the process 1. *)
Lemma ProcessMonitor_attach_failure_blocks_witness :
  (ProcessMonitor_attach 8 unit 2147483647 0 1 (example_attach 12) []
     ErrorSuccess [sem_EINTR; sem_acquired] true ErrorSuccess
     (example_monitor syscall_stop, [])).1
  = Blocked.
Proof.
  apply (ProcessMonitor_attach_failure_blocks 8 unit 2147483647 0 1
           (example_attach 12) [] ErrorSuccess ErrorSuccess 1 [] true
           (example_monitor syscall_stop) []
           (Attach unit 1 (example_attach 12) []
              (set_operation_thread unit true false
                 (initialise unit 0 (example_monitor syscall_stop)).2, [])).2
           (ErrorGeneric "Attaching to process 1 is not allowed.") [] []).
  - reflexivity.
  - reflexivity.
Defined.

(** Attaching to the process 10 with the threads 10 and 11. *)
Lemma ProcessMonitor_attach_success_witness :
  m_pid unit
    (Attach unit 10 (example_attach 12) [[10; 11]; [10; 11]]
       (set_operation_thread unit true false
          (initialise unit 0 (example_monitor syscall_stop)).2, [])).2.1
  = 10.
Proof.
  apply (ProcessMonitor_attach_success 8 unit 2147483647 0 10
           (example_attach 12) [[10; 11]; [10; 11]] ErrorSuccess ErrorSuccess
           0 [] true (example_monitor syscall_stop) []
           (Attach unit 10 (example_attach 12) [[10; 11]; [10; 11]]
              (set_operation_thread unit true false
                 (initialise unit 0 (example_monitor syscall_stop)).2, [])).2
           ErrorSuccess [(10, true); (11, true)] [10; 11]).
  - reflexivity.
  - reflexivity.
Defined.
